(** * Patent / M&A company-name matcher: a verification development

    Shallow embedding of the five pipeline scripts
    (步骤1_自动清洗.py, 步骤2_超级字典.py, 步骤3_最终聚合.py,
    步骤4A_Compustat匹配.py, 步骤4B_Compustat匹配.py) and proofs of the
    properties stated about them.

    Conventions of the embedding.
    - A Python [str] is the list of its characters.  The development covers
      the ASCII range (code points below 128); [ascii_only] marks strings in
      that range and is a hypothesis wherever a statement quantifies over
      strings and looks at their characters.
    - A table cell (a value read by pandas from a spreadsheet or CSV file) is
      missing ([CNull]: None, NaN), a number or a text.
    - Python's [re] module is embedded as a small backtracking matcher over
      the subset of the pattern language the scripts use; the patterns are
      kept as the source writes them and compiled by [re_compile]. *)

From Stdlib Require Import Ascii String ZArith QArith Qcanon List Lia Bool.
From Stdlib Require Import DecimalString DecimalPos DecimalZ.
From stdpp Require Import base option list gmap strings.

Local Open Scope nat_scope.

(** ** Python strings *)

Abbreviation pystr := (list ascii).

(** [lit "abc"] is the Python literal ['abc']. *)
Definition lit (s : string) : pystr := list_ascii_of_string s.

Definition code (c : ascii) : nat := nat_of_ascii c.

Definition in_range (lo hi : nat) (c : ascii) : bool :=
  (lo <=? code c) && (code c <=? hi).

Definition is_ascii (c : ascii) : bool := code c <? 128.
Definition is_upper (c : ascii) : bool := in_range 65 90 c.
Definition is_lower (c : ascii) : bool := in_range 97 122 c.
Definition is_digit (c : ascii) : bool := in_range 48 57 c.

(** [str.isspace] / regex [\s] on ASCII: TAB, LF, VT, FF, CR, the four
    separators 0x1c-0x1f and the blank. *)
Definition is_space (c : ascii) : bool :=
  in_range 9 13 c || in_range 28 32 c.

(** Regex [\w] on ASCII: letters, digits and the underscore. *)
Definition is_word (c : ascii) : bool :=
  is_upper c || is_lower c || is_digit c || (code c =? 95).

Definition ascii_only (s : pystr) : Prop := forallb is_ascii s = true.

Definition upper_char (c : ascii) : ascii :=
  if is_lower c then ascii_of_nat (code c - 32) else c.
Definition lower_char (c : ascii) : ascii :=
  if is_upper c then ascii_of_nat (code c + 32) else c.

(** [str.upper()] *)
Definition py_upper (s : pystr) : pystr := map upper_char s.

(** [str.strip()] *)
Fixpoint lstrip (s : pystr) : pystr :=
  match s with
  | c :: s' => if is_space c then lstrip s' else s
  | [] => []
  end.
Definition rstrip (s : pystr) : pystr := rev (lstrip (rev s)).
Definition py_strip (s : pystr) : pystr := rstrip (lstrip s).

(** [str.replace(old, new)] for a one-character [old]. *)
Fixpoint py_replace (old : ascii) (new : pystr) (s : pystr) : pystr :=
  match s with
  | c :: s' =>
      (if Ascii.eqb c old then new else [c]) ++ py_replace old new s'
  | [] => []
  end.

(** ** Regular expressions (the subset of [re] used by the scripts) *)

Inductive cls_item :=
| IRange (lo hi : ascii)      (* A-Z *)
| ISingle (c : ascii)         (* x   *)
| ISpace.                     (* \s  *)

(** One-character matchers. *)
Inductive cset :=
| CChr (c : ascii)                          (* a literal character *)
| CAny                                      (* .  (anything but a newline) *)
| CSpace                                    (* \s *)
| CClass (neg : bool) (items : list cls_item).   (* [...] and [^...] *)

Inductive atom :=
| One (cs : cset)
| Opt (cs : cset)      (* greedy x? *)
| Plus (cs : cset)     (* greedy x+ *)
| Bnd.                 (* \b *)

Abbreviation regex := (list atom).

Definition item_match (ic : bool) (d : ascii) (it : cls_item) : bool :=
  match it with
  | IRange lo hi =>
      in_range (code lo) (code hi) d
      || (ic && (in_range (code lo) (code hi) (lower_char d)
                 || in_range (code lo) (code hi) (upper_char d)))
  | ISingle c =>
      Ascii.eqb c d || (ic && Ascii.eqb (lower_char c) (lower_char d))
  | ISpace => is_space d
  end.

(** [ic] is the IGNORECASE flag. *)
Definition cset_match (ic : bool) (cs : cset) (d : ascii) : bool :=
  match cs with
  | CChr c => Ascii.eqb c d || (ic && Ascii.eqb (lower_char c) (lower_char d))
  | CAny => negb (code d =? 10)
  | CSpace => is_space d
  | CClass neg items => xorb neg (existsb (item_match ic d) items)
  end.

Definition word_before (prev : option ascii) : bool :=
  match prev with Some c => is_word c | None => false end.
Definition word_after (s : pystr) : bool :=
  match s with c :: _ => is_word c | [] => false end.

(** [match_here ic re prev s]: the pattern matches a prefix of [s], the
    character before [s] being [prev]; the result is the length of the match
    the backtracking matcher finds first (greedy operators try the longer
    alternative first). *)
Fixpoint match_here (ic : bool) (re : regex)
  : option ascii -> pystr -> option nat :=
  match re with
  | [] => fun _ _ => Some 0
  | a :: re' =>
      let k := match_here ic re' in
      match a with
      | Bnd => fun prev s =>
          if xorb (word_before prev) (word_after s) then k prev s else None
      | One cs => fun prev s =>
          match s with
          | c :: s' => if cset_match ic cs c then S <$> k (Some c) s' else None
          | [] => None
          end
      | Opt cs => fun prev s =>
          match s with
          | c :: s' =>
              if cset_match ic cs c then
                match k (Some c) s' with
                | Some n => Some (S n)
                | None => k prev s
                end
              else k prev s
          | [] => k prev s
          end
      | Plus cs =>
          fix plus (prev : option ascii) (s : pystr) : option nat :=
            match s with
            | c :: s' =>
                if cset_match ic cs c then
                  match plus (Some c) s' with
                  | Some n => Some (S n)
                  | None => S <$> k (Some c) s'
                  end
                else None
            | [] => None
            end
      end
  end.

(** [re.sub]: scan from the left; at each position not covered by an earlier
    match try the pattern; a match is replaced by [repl] and the scan resumes
    behind it.  [skip] counts the characters of the current match still to be
    passed over. *)
Fixpoint sub_from (ic : bool) (re : regex) (repl : pystr)
  (prev : option ascii) (skip : nat) (s : pystr) : pystr :=
  match s with
  | [] =>
      match skip, match_here ic re prev [] with
      | 0, Some _ => repl
      | _, _ => []
      end
  | c :: s' =>
      match skip with
      | S k => sub_from ic re repl (Some c) k s'
      | 0 =>
          match match_here ic re prev s with
          | Some (S k) => repl ++ sub_from ic re repl (Some c) k s'
          | Some 0 => repl ++ c :: sub_from ic re repl (Some c) 0 s'
          | None => c :: sub_from ic re repl (Some c) 0 s'
          end
      end
  end.

(** *** Reading a pattern *)

Definition backslash : ascii := ascii_of_nat 92.

Definition is_special (c : ascii) : bool :=
  existsb (Ascii.eqb c) (lit "()|*{}^$").

Definition escape_atom (c : ascii) : option atom :=
  if Ascii.eqb c "b" then Some Bnd
  else if Ascii.eqb c "s" then Some (One CSpace)
  else if is_upper c || is_lower c || is_digit c then None
  else Some (One (CChr c)).

Definition postfix (f : cset -> atom) (acc : list atom) : option (list atom) :=
  match acc with
  | One cs :: acc' => Some (f cs :: acc')
  | _ => None
  end.

(** Items of a character class, up to the closing bracket; returns the items
    and what follows the bracket. *)
Fixpoint parse_class (s : pystr) : option (list cls_item * pystr) :=
  match s with
  | [] => None
  | c :: s1 =>
      if Ascii.eqb c "]" then Some ([], s1)
      else if Ascii.eqb c backslash then
        match s1 with
        | e :: s2 =>
            if Ascii.eqb e "s" then
              '(its, r) ← parse_class s2; Some (ISpace :: its, r)
            else if is_upper e || is_lower e || is_digit e then None
            else '(its, r) ← parse_class s2; Some (ISingle e :: its, r)
        | [] => None
        end
      else
        match s1 with
        | d :: h :: s3 =>
            if Ascii.eqb d "-" && negb (Ascii.eqb h "]") then
              '(its, r) ← parse_class s3; Some (IRange c h :: its, r)
            else '(its, r) ← parse_class s1; Some (ISingle c :: its, r)
        | _ => '(its, r) ← parse_class s1; Some (ISingle c :: its, r)
        end
  end.

(** The pattern reader; [acc] holds the atoms read so far, last first.  The
    fuel bounds the number of atoms and is the length of the pattern. *)
Fixpoint parse_re (fuel : nat) (acc : list atom) (s : pystr)
  : option regex :=
  match fuel with
  | 0 => match s with [] => Some (rev acc) | _ => None end
  | S fuel' =>
      match s with
      | [] => Some (rev acc)
      | c :: s1 =>
          if Ascii.eqb c backslash then
            match s1 with
            | e :: s2 => a ← escape_atom e; parse_re fuel' (a :: acc) s2
            | [] => None
            end
          else if Ascii.eqb c "[" then
            match s1 with
            | n :: s2 =>
                if Ascii.eqb n "^" then
                  '(its, r) ← parse_class s2;
                  parse_re fuel' (One (CClass true its) :: acc) r
                else
                  '(its, r) ← parse_class s1;
                  parse_re fuel' (One (CClass false its) :: acc) r
            | [] => None
            end
          else if Ascii.eqb c "." then parse_re fuel' (One CAny :: acc) s1
          else if Ascii.eqb c "?" then
            acc' ← postfix Opt acc; parse_re fuel' acc' s1
          else if Ascii.eqb c "+" then
            acc' ← postfix Plus acc; parse_re fuel' acc' s1
          else if is_special c then None
          else parse_re fuel' (One (CChr c) :: acc) s1
      end
  end.

(** [re.compile]; [None] stands for a pattern outside the supported subset. *)
Definition re_compile (pat : string) : option regex :=
  parse_re (String.length pat) [] (lit pat).

(** [re.sub(pat, repl, s)] and [re.sub(pat, repl, s, flags=re.IGNORECASE)]. *)
Definition re_sub_flags (ic : bool) (pat : string) (repl : pystr) (s : pystr)
  : pystr :=
  match re_compile pat with
  | Some re => sub_from ic re repl None 0 s
  | None => s
  end.
Definition re_sub := re_sub_flags false.
Definition re_sub_i := re_sub_flags true.

(** ** Table cells *)

(** A value pandas hands to the scripts: missing (None, NaN), a number, or a
    text. *)
Inductive cell :=
| CNull
| CNum (q : Qc)
| CStr (s : pystr).

(** [pd.isna] on a scalar. *)
Definition isna (v : cell) : bool :=
  match v with CNull => true | _ => false end.
Definition notna (v : cell) : bool := negb (isna v).

(** [isinstance(v, str)] *)
Definition is_str (v : cell) : bool :=
  match v with CStr _ => true | _ => false end.

(** ** Step 1: the cleaning function (步骤1_自动清洗.py, clean_company_name) *)

Module Step1.

(** The [abbreviations] dict, in insertion order. *)
Definition abbreviations : list (string * string) :=
  [ ("\bINTL\b", "INTERNATIONAL");
    ("\bNATL\b", "NATIONAL");
    ("\bCORP\b", "CORPORATION");
    ("\bINC\b", "INCORPORATED");
    ("\bMFG\b", "MANUFACTURING");
    ("\bTECH\b", "TECHNOLOGY");
    ("\bSYS\b", "SYSTEMS") ]%string.

Definition suffixes_priority : list string :=
  [ "\bINCORPORATED\b"; "\bCORPORATION\b"; "\bCOMPANY\b";
    "\bLIMITED\b"; "\bGROUP\b";
    "\bCORP\.?\b"; "\bINC\.?\b"; "\bLTD\.?\b";
    "\bCO\.?\b"; "\bL\.L\.C\.?\b"; "\bPLC\.?\b";
    "\bLLC\b"; "\bS\.A\.\b"; "\bNV\b"; "\bGMBH\b";
    "\bSA\b"; "\bAG\b"; "\bKK\b" ]%string.

(** The two [for] loops over the tables. *)
Definition expand_abbreviations (name : pystr) : pystr :=
  fold_left (fun name '(abbr, full) => re_sub abbr (lit full) name)
            abbreviations name.

Definition remove_suffixes (sfx : list string) (name : pystr) : pystr :=
  fold_left (fun name suffix => re_sub_i suffix [] name) sfx name.

(** The body of the function on a [str] argument. *)
Definition clean_str (sfx : list string) (name : pystr) : pystr :=
  let name := py_strip (py_upper name) in
  let name := py_replace "&" (lit " AND ") name in
  let name := py_replace "-" (lit " ") name in
  let name := py_replace "'" [] name in
  let name := expand_abbreviations name in
  let name := remove_suffixes sfx name in
  let name := re_sub "[^A-Z0-9\s]" (lit " ") name in
  let name := py_strip (re_sub "\s+" (lit " ") name) in
  name.

Definition clean_company_name (name : cell) : pystr :=
  if isna name || negb (is_str name) then []
  else match name with
       | CStr s => clean_str suffixes_priority s
       | _ => []
       end.

End Step1.

(** ** Step 1: the cleaning function with the exceptions of [re]
    (步骤1_自动清洗.py, clean_company_name) *)

(** [re.sub(pat, repl, s)] with its exception: [None] stands for
    [re.error].  [re] raises it for a pattern it cannot compile;
    [re_compile] gives [None] for the malformed patterns that an unclosed
    bracket, a repetition of nothing, an unknown escape or a lone backslash
    make, and for every pattern with a form it does not read (a
    parenthesis among them).  [re] also raises for a replacement template it cannot read: a
    template is read for its backslashes only, and one with a backslash
    counts as an error here. *)
Definition re_sub_raising (ic : bool) (pat : string) (repl : pystr)
  (s : pystr) : option pystr :=
  re ← re_compile pat;
  if bool_decide (backslash ∈ repl) then None
  else Some (sub_from ic re repl None 0 s).

Module Step1Raising.

(** The two [for] loops over the tables; the first [re.sub] that raises ends
    the loop. *)
Definition expand_abbreviations (name : pystr) : option pystr :=
  fold_left (fun name '(abbr, full) =>
               name ← name; re_sub_raising false abbr (lit full) name)
            Step1.abbreviations (Some name).

Definition remove_suffixes (sfx : list string) (name : pystr) : option pystr :=
  fold_left (fun name suffix => name ← name; re_sub_raising true suffix [] name)
            sfx (Some name).

(** The body of the function on a [str] argument; the methods of [str] do
    not raise. *)
Definition clean_str (sfx : list string) (name : pystr) : option pystr :=
  let name := py_strip (py_upper name) in
  let name := py_replace "&" (lit " AND ") name in
  let name := py_replace "-" (lit " ") name in
  let name := py_replace "'" [] name in
  name ← expand_abbreviations name;
  name ← remove_suffixes sfx name;
  name ← re_sub_raising false "[^A-Z0-9\s]" (lit " ") name;
  name ← re_sub_raising false "\s+" (lit " ") name;
  Some (py_strip name).

(** [clean_company_name(name)]: [Some] is the returned string, [None] an
    exception. *)
Definition clean_company_name (name : cell) : option pystr :=
  if isna name || negb (is_str name) then Some []
  else match name with
       | CStr s => clean_str Step1.suffixes_priority s
       | _ => Some []
       end.

End Step1Raising.

(** ** Step 4A: its copy of the cleaning function
    (步骤4A_Compustat匹配.py, clean_company_name) *)

Module Step4A.

Definition suffixes_priority : list string :=
  [ "\bINCORPORATED\b"; "\bCORPORATION\b"; "\bCOMPANY\b";
    "\bLIMITED\b"; "\bGROUP\b";
    "\bCORP\.?\b"; "\bINC\.?\b"; "\bLTD\.?\b";
    "\bCO\.?\b"; "\bL\.L\.C\.?\b"; "\bPLC\.?\b";
    "\bLLC\b"; "\bS\.A\\.b"; "\bNV\b"; "\bGMBH\b";
    "\bSA\b"; "\bAG\b"; "\bKK\b" ]%string.

Definition clean_company_name (name : cell) : pystr :=
  if isna name || negb (is_str name) then []
  else match name with
       | CStr s => Step1.clean_str suffixes_priority s
       | _ => []
       end.

End Step4A.

(** ** Data frames *)

(** [str(v)] of a cell; how Python prints a number is a parameter. *)
Definition py_str (repr_number : Qc -> pystr) (v : cell) : pystr :=
  match v with
  | CStr s => s
  | CNum q => repr_number q
  | CNull => lit "nan"
  end.

(** A pandas DataFrame: the column labels and the rows, each row holding one
    cell per column. *)
Record DataFrame := mkDF { columns : list pystr; rows : list (list cell) }.

Definition n_rows (df : DataFrame) : nat := length (rows df).

(** Position of the first column with this label. *)
Definition col_pos (cols : list pystr) (c : pystr) : option nat :=
  fst <$> list_find (fun x => x = c) cols.

Definition has_col (df : DataFrame) (c : pystr) : bool :=
  bool_decide (c ∈ columns df).

Definition at_pos (i : nat) (r : list cell) : cell := default CNull (r !! i).

(** [row[c]] *)
Definition row_get (cols : list pystr) (r : list cell) (c : pystr)
  : option cell :=
  i ← col_pos cols c; Some (at_pos i r).

(** [df[c]]; [None] is a KeyError. *)
Definition series (df : DataFrame) (c : pystr) : option (list cell) :=
  i ← col_pos (columns df) c; Some (map (at_pos i) (rows df)).

(** [df[c] = v] with a scalar [v], for a label the frame does not have yet. *)
Definition add_const_col (df : DataFrame) (c : pystr) (v : cell) : DataFrame :=
  mkDF (columns df ++ [c]) (map (fun r => r ++ [v]) (rows df)).

(** [df[c] = vals]: overwrite the column, or append it when it is new. *)
Definition assign (df : DataFrame) (c : pystr) (vals : list cell)
  : DataFrame :=
  match col_pos (columns df) c with
  | Some i =>
      mkDF (columns df)
           (zip_with (fun r v => <[i:=v]> r) (rows df) vals)
  | None =>
      mkDF (columns df ++ [c])
           (zip_with (fun r v => r ++ [v]) (rows df) vals)
  end.

(** [df.dropna(subset=cs)]: keep the rows that are non-null in every listed
    column. *)
Definition dropna (df : DataFrame) (cs : list pystr) : option DataFrame :=
  ps ← mapM (col_pos (columns df)) cs;
  Some (mkDF (columns df)
             (List.filter (fun r => forallb (fun i => notna (at_pos i r)) ps)
                          (rows df))).

(** Lexicographic order of strings by code point (Python's [<=] on [str]). *)
Fixpoint pystr_leb (a b : pystr) : bool :=
  match a, b with
  | [], _ => true
  | _ :: _, [] => false
  | x :: a', y :: b' =>
      if code x <? code y then true
      else if code y <? code x then false
      else pystr_leb a' b'
  end.

(** Stable insertion sort by a key. *)
Fixpoint insert_by {A} (le : A -> A -> bool) (x : A) (l : list A) : list A :=
  match l with
  | [] => [x]
  | y :: l' => if le x y then x :: l else y :: insert_by le x l'
  end.
Definition sort_by {A} (le : A -> A -> bool) (l : list A) : list A :=
  foldr (fun x acc => insert_by (fun a b => le a b) x acc) [] l.

Definition Qc_of_nat (n : nat) : Qc := Q2Qc (inject_Z (Z.of_nat n)).
Definition Qc_of_Z (z : Z) : Qc := Q2Qc (inject_Z z).


#[global] Instance cell_eq_dec : EqDecision cell.
Proof. solve_decision. Defined.

#[global] Instance cell_countable : Countable cell.
Proof.
  refine (inj_countable'
            (fun v => match v with
                      | CNull => inl ()
                      | CNum q => inr (inl q)
                      | CStr s => inr (inr s)
                      end)
            (fun x => match x with
                      | inl _ => CNull
                      | inr (inl q) => CNum q
                      | inr (inr s) => CStr s
                      end) _).
  intros []; reflexivity.
Defined.

(** [str(int)] in decimal. *)
Definition int_str (z : Z) : pystr := lit (NilZero.string_of_int (Z.to_int z)).

(** [s.startswith(p)] *)
Fixpoint py_startswith (p s : pystr) : bool :=
  match p, s with
  | [], _ => true
  | _ :: _, [] => false
  | x :: p', y :: s' => Ascii.eqb x y && py_startswith p' s'
  end.

(** [needle in s] *)
Fixpoint py_contains (needle s : pystr) : bool :=
  py_startswith needle s
  || match s with
     | [] => false
     | _ :: s' => py_contains needle s'
     end.

(** Comparison and maximum of numbers. *)
Definition Qc_leb (a b : Qc) : bool :=
  match (a ?= b)%Qc with Gt => false | _ => true end.
Definition Qc_max (a b : Qc) : Qc := if Qc_leb b a then a else b.

(** [int(x)] of a float: truncation toward zero. *)
Definition Qc_trunc (q : Qc) : Z := Z.quot (Qnum q) (Z.pos (Qden q)).

(** Keep the entries of [l] whose flag in [mask] is set. *)
Fixpoint select {A} (mask : list bool) (l : list A) : list A :=
  match mask, l with
  | b :: mask', x :: l' => if b then x :: select mask' l' else select mask' l'
  | _, _ => []
  end.

(** [df.drop(columns=[c for c in df.columns if p c])] *)
Definition drop_cols (p : pystr -> bool) (df : DataFrame) : DataFrame :=
  let mask := map (fun c => negb (p c)) (columns df) in
  mkDF (select mask (columns df)) (map (select mask) (rows df)).

(** [pd.merge(left, right, on=key, how='left')]: the rows of [left] in their
    order, each extended by every row of [right] with an equal key, or by
    nulls when there is none; a label the two frames share besides the key
    gets the suffixes [_x] and [_y]. *)
Definition merge_left (left right : DataFrame) (key : pystr)
  : option DataFrame :=
  i ← col_pos (columns left) key;
  j ← col_pos (columns right) key;
  let rcols := delete j (columns right) in
  let lcols' :=
    map (fun c => if bool_decide (c ≠ key) && bool_decide (c ∈ rcols)
                  then c ++ lit "_x" else c) (columns left) in
  let rcols' :=
    map (fun c => if bool_decide (c ∈ columns left)
                  then c ++ lit "_y" else c) rcols in
  let extend (l : list cell) : list (list cell) :=
    match List.filter (fun r => bool_decide (at_pos j r = at_pos i l))
                      (rows right) with
    | [] => [l ++ replicate (length rcols) CNull]
    | ms => map (fun r => l ++ delete j r) ms
    end in
  Some (mkDF (lcols' ++ rcols') (flat_map extend (rows left))).

(** Distinct values in increasing order (the keys of a [groupby], the labels
    of a [pivot]). *)
Definition sorted_unique {A} `{EqDecision A} (le : A -> A -> bool)
  (l : list A) : list A :=
  sort_by le (remove_dups l).

(** ** Step 2: the master dictionary (步骤2_超级字典.py) *)

Module Step2.

Record ConflictRecord := mkConflict {
  Assignee : pystr;
  Existing_Acquiror : pystr;
  New_Acquiror : pystr;
  Source_File : pystr }.

Record SourceStat := mkStat {
  File : pystr;
  Valid_Rows : nat;
  New_Mappings : nat;
  Duplicates : nat;
  Conflicts : nat }.

(** What [os.path.exists] and [pd.read_excel] find under a path: a workbook,
    or something [read_excel] raises on. *)
Inductive file :=
| Unreadable
| Workbook (df : DataFrame).

(** The variables of the row loop: the dictionary, the conflict list and the
    three counters of the current file. *)
Record loop_state := mkLoop {
  master_dict : gmap pystr pystr;
  conflicts : list ConflictRecord;
  count_new : nat;
  count_duplicate : nat;
  count_conflict : nat }.

(** One iteration of [for idx, row in df_valid.iterrows()], the two names
    already stripped. *)
Definition process_pair (file_path : pystr) (st : loop_state)
  (assignee_raw acquiror_std : pystr) : loop_state :=
  match master_dict st !! assignee_raw with
  | None =>
      mkLoop (<[assignee_raw := acquiror_std]> (master_dict st))
             (conflicts st)
             (count_new st + 1) (count_duplicate st) (count_conflict st)
  | Some existing =>
      if bool_decide (existing = acquiror_std) then
        mkLoop (master_dict st) (conflicts st)
               (count_new st) (count_duplicate st + 1) (count_conflict st)
      else
        mkLoop (master_dict st)
               (conflicts st ++
                  [mkConflict assignee_raw existing acquiror_std file_path])
               (count_new st) (count_duplicate st) (count_conflict st + 1)
  end.

(** [os.path.basename] *)
Fixpoint basename_from (acc : pystr) (s : pystr) : pystr :=
  match s with
  | [] => acc
  | c :: s' => if Ascii.eqb c "/" then basename_from s' s' else basename_from acc s'
  end.
Definition basename (p : pystr) : pystr := basename_from p p.

Section Build.

Variable repr_number : Qc -> pystr.

Definition stripped (v : cell) : pystr := py_strip (py_str repr_number v).

(** [df_valid]: both cells present and non-blank. *)
Definition valid_pair (p : cell * cell) : bool :=
  notna p.1 && notna p.2
  && negb (bool_decide (stripped p.1 = []))
  && negb (bool_decide (stripped p.2 = [])).

Definition process_rows (file_path : pystr) (st : loop_state)
  (df_valid : list (cell * cell)) : loop_state :=
  fold_left (fun st p => process_pair file_path st (stripped p.1) (stripped p.2))
            df_valid st.

(** The state between two files: dictionary, statistics, conflicts. *)
Record build_state := mkBuild {
  b_dict : gmap pystr pystr;
  b_stats : list SourceStat;
  b_conflicts : list ConflictRecord }.

(** The body of [for file_path in files_list]. *)
Definition process_file (fs : gmap pystr file) (b : build_state)
  (file_path : pystr) : build_state :=
  match fs !! file_path with
  | None => b                                   (* not found: skipped *)
  | Some Unreadable => b                        (* read_excel raised *)
  | Some (Workbook df) =>
      match col_pos (columns df) (lit "Assignee_Original"),
            col_pos (columns df) (lit "Original_Acquiror_Name") with
      | Some i, Some j =>
          let df_valid :=
            List.filter valid_pair
              (map (fun r => (at_pos i r, at_pos j r)) (rows df)) in
          let st :=
            process_rows file_path
              (mkLoop (b_dict b) (b_conflicts b) 0 0 0) df_valid in
          mkBuild (master_dict st)
                  (b_stats b ++
                     [mkStat (basename file_path) (length df_valid)
                             (count_new st) (count_duplicate st)
                             (count_conflict st)])
                  (conflicts st)
      | _, _ => b                               (* a column is missing *)
      end
  end.

Definition build_master_dictionary (fs : gmap pystr file)
  (files_list : list pystr) : build_state :=
  fold_left (process_file fs) files_list (mkBuild ∅ [] []).

End Build.

(** *** Saving *)

Definition OUTPUT_DICT_FILE : pystr := lit "Master_Company_Dictionary.pkl".
Definition OUTPUT_EXCEL_FILE : pystr :=
  lit "Master_Company_Dictionary_VIEW.xlsx".

(** What the script leaves on disk. *)
Inductive artifact :=
| Pickle (d : gmap pystr pystr)
| Excel (df : DataFrame).

Definition nat_cell (n : nat) : cell := CNum (Qc_of_nat n).

Definition stats_frame (source_stats : list SourceStat) : DataFrame :=
  mkDF [lit "File"; lit "Valid_Rows"; lit "New_Mappings"; lit "Duplicates";
        lit "Conflicts"]
       (map (fun s => [CStr (File s); nat_cell (Valid_Rows s);
                       nat_cell (New_Mappings s); nat_cell (Duplicates s);
                       nat_cell (Conflicts s)]) source_stats).

Definition conflicts_frame (cs : list ConflictRecord) : DataFrame :=
  mkDF [lit "Assignee"; lit "Existing_Acquiror"; lit "New_Acquiror";
        lit "Source_File"]
       (map (fun c => [CStr (Assignee c); CStr (Existing_Acquiror c);
                       CStr (New_Acquiror c); CStr (Source_File c)]) cs).

(** The listing sorted by canonical name (ties in the order of the items). *)
Definition view_frame (d : gmap pystr pystr) : DataFrame :=
  mkDF [lit "Assignee_Original_Name"; lit "Mapped_Acquiror_Name"]
       (map (fun kv => [CStr kv.1; CStr kv.2])
            (sort_by (fun a b : pystr * pystr => pystr_leb a.2 b.2)
                     (map_to_list d))).

(** [save_dictionary]: the returned flag and the disk afterwards. *)
Definition save_dictionary (master : gmap pystr pystr)
  (source_stats : list SourceStat) (cs : list ConflictRecord)
  (disk : gmap pystr artifact) : bool * gmap pystr artifact :=
  if bool_decide (master = ∅) then (false, disk)
  else
    let disk := <[OUTPUT_DICT_FILE := Pickle master]> disk in
    let disk := <[OUTPUT_EXCEL_FILE := Excel (view_frame master)]> disk in
    let disk :=
      match source_stats with
      | [] => disk
      | _ => <[lit "Dictionary_Build_Statistics.xlsx" :=
                 Excel (stats_frame source_stats)]> disk
      end in
    let disk :=
      match cs with
      | [] => disk
      | _ => <[lit "Dictionary_Conflicts.xlsx" :=
                 Excel (conflicts_frame cs)]> disk
      end in
    (true, disk).

(** [main]: build, then save; the exit status is the flag. *)
Definition main (repr_number : Qc -> pystr) (fs : gmap pystr file)
  (files_list : list pystr) (disk : gmap pystr artifact)
  : bool * gmap pystr artifact :=
  let b := build_master_dictionary repr_number fs files_list in
  save_dictionary (b_dict b) (b_stats b) (b_conflicts b) disk.

End Step2.

(** ** Step 3: aggregation (步骤3_最终聚合.py) *)

Module Step3.

(** [inventor_name_cols = [f'inventor_name{i}' for i in range(1, 11)]] *)
Definition inventor_name_cols : list pystr :=
  map (fun i => lit "inventor_name" ++ int_str (Z.of_nat i)) (seq 1 10).

Definition fillna (x : Qc) (v : option Qc) : Qc := default x v.

Section Aggregation.

(** Not part of the repository: how Python prints a number, how pandas reads
    a number from a text, and the order in which a [set] is iterated. *)
Variable repr_number : Qc -> pystr.
Variable parse_number : pystr -> option Qc.
Variable set_to_list : list cell -> list cell.

(** [pd.to_numeric(v, errors='coerce')]; [None] is NaN. *)
Definition to_numeric (v : cell) : option Qc :=
  match v with
  | CNum q => Some q
  | CStr s => parse_number s
  | CNull => None
  end.

Definition num_cell (v : option Qc) : cell :=
  match v with Some q => CNum q | None => CNull end.

(** [calculate_inventor_count_vectorized(df, inventor_cols)] *)
Definition calculate_inventor_count_vectorized (df : DataFrame)
  (inventor_cols : list pystr) : option (list Qc) :=
  inventors ← series df (lit "inventors");
  let num_from_column := map (fun v => fillna 0%Qc (to_numeric v)) inventors in
  ps ← mapM (col_pos (columns df)) inventor_cols;
  let num_from_names :=
    map (fun r => length (List.filter (fun i => notna (at_pos i r)) ps))
        (rows df) in
  Some (zip_with (fun a n => Qc_max a (Qc_of_nat n))
                 num_from_column num_from_names).

(** The loop that makes sure the name columns exist. *)
Definition ensure_cols (cs : list pystr) (df : DataFrame) : DataFrame :=
  fold_left (fun df c => if has_col df c then df else add_const_col df c CNull)
            cs df.

(** [.map(master_dict)] on one cell. *)
Definition map_dict (master_dict : gmap pystr pystr) (v : cell) : cell :=
  match v with
  | CStr k => match master_dict !! k with Some a => CStr a | None => CNull end
  | _ => CNull
  end.

(** [process_patent_data(df_patent, master_dict)] *)
Definition process_patent_data (df_patent : DataFrame)
  (master_dict : gmap pystr pystr) : option DataFrame :=
  assignee ← series df_patent (lit "assignee");
  let assignee_stripped :=
    map (fun v => CStr (py_strip (py_str repr_number v))) assignee in
  let df_patent := assign df_patent (lit "assignee_stripped") assignee_stripped in
  let df_patent :=
    assign df_patent (lit "Matched_Acquiror")
           (map (map_dict master_dict) assignee_stripped) in
  df_matched ← dropna df_patent [lit "Matched_Acquiror"];
  year ← series df_matched (lit "application_year");
  let df_matched :=
    assign df_matched (lit "application_year")
           (map (fun v => num_cell (to_numeric v)) year) in
  df_matched ← dropna df_matched [lit "application_year"];
  year ← series df_matched (lit "application_year");
  let df_matched :=
    assign df_matched (lit "application_year")
           (map (fun v => match v with
                          | CNum q => CNum (Qc_of_Z (Qc_trunc q))
                          | _ => v
                          end) year) in
  let df_matched := ensure_cols inventor_name_cols df_matched in
  counts ← calculate_inventor_count_vectorized df_matched inventor_name_cols;
  Some (assign df_matched (lit "final_inventor_count") (map CNum counts)).

(** The rows [aggregate_data] reads: entity, year, assignee, weight.  The
    entity is a text, the year an integer and the weight a number on every
    frame [process_patent_data] returns; [None] stands for any other frame. *)
Record matched_row := mkMatched {
  m_acquiror : pystr;
  m_year : Z;
  m_assignee : cell;
  m_weight : option Qc }.

Definition read_matched (df : DataFrame) : option (list matched_row) :=
  a ← col_pos (columns df) (lit "Matched_Acquiror");
  y ← col_pos (columns df) (lit "application_year");
  n ← col_pos (columns df) (lit "assignee");
  w ← col_pos (columns df) (lit "final_inventor_count");
  mapM (fun r =>
          match at_pos a r, at_pos y r, at_pos w r with
          | CStr acq, CNum yr, CNum wt =>
              Some (mkMatched acq (Qc_trunc yr) (at_pos n r) (Some wt))
          | CStr acq, CNum yr, CNull =>
              Some (mkMatched acq (Qc_trunc yr) (at_pos n r) None)
          | _, _, _ => None
          end) (rows df).

Definition Qc_sum (l : list Qc) : Qc := foldr Qcplus 0%Qc l.

(** The group of one (entity, year) key. *)
Definition group_of (ms : list matched_row) (acq : pystr) (yr : Z)
  : list matched_row :=
  List.filter (fun m => bool_decide (m_acquiror m = acq)
                        && bool_decide (m_year m = yr)) ms.

(** A cell of the two pivot tables: the group's count of assignees, or the
    sum of its weights; NaN when the key has no group. *)
Definition pivot_patent (ms : list matched_row) (acq : pystr) (yr : Z) : cell :=
  match group_of ms acq yr with
  | [] => CNull
  | g => CNum (Qc_of_nat (length (List.filter (fun m => notna (m_assignee m)) g)))
  end.
Definition pivot_inventor (ms : list matched_row) (acq : pystr) (yr : Z)
  : cell :=
  match group_of ms acq yr with
  | [] => CNull
  | g => CNum (Qc_sum (omap m_weight g))
  end.

Definition entities (ms : list matched_row) : list pystr :=
  sorted_unique pystr_leb (map m_acquiror ms).
Definition years (ms : list matched_row) : list Z :=
  sorted_unique Z.leb (map m_year ms).

Definition patent_col (yr : Z) : pystr := lit "patent_" ++ int_str yr.
Definition patent_inventor_col (yr : Z) : pystr :=
  lit "patent_inventor_" ++ int_str yr.

Definition stats_of (ms : list matched_row) : DataFrame :=
  mkDF (lit "acquiror_name"
          :: map patent_col (years ms) ++ map patent_inventor_col (years ms))
       (map (fun acq =>
               CStr acq
                 :: map (pivot_patent ms acq) (years ms)
                 ++ map (pivot_inventor ms acq) (years ms))
            (entities ms)).

(** The aliases of an entity: [list(set(x))] of its assignees. *)
Definition aliases (ms : list matched_row) (acq : pystr) : list cell :=
  set_to_list
    (map m_assignee
         (List.filter (fun m => bool_decide (m_acquiror m = acq)) ms)).

Definition pad (n : nat) (l : list cell) : list cell :=
  l ++ replicate (n - length l) CNull.

(** The alias table: [names_expanded] has one row per entity, as wide as
    the longest list ([max_len]); [iloc[:, :len(name_cols)]] keeps its first
    [len(name_cols)] columns, which get the first labels of [name_cols]. *)
Definition names_of (ms : list matched_row) : DataFrame :=
  let lists := map (aliases ms) (entities ms) in
  let max_len := foldr Nat.max 0 (map length lists) in
  let name_cols :=
    lit "patent_name"
      :: map (fun i => lit "patent_name_" ++ int_str (Z.of_nat i))
             (seq 1 (max_len - 1)) in
  let width := Nat.min max_len (length name_cols) in
  mkDF (lit "acquiror_name" :: take width name_cols)
       (map (fun acq =>
               CStr acq
                 :: take (length name_cols) (pad max_len (aliases ms acq)))
            (entities ms)).

(** [aggregate_data(df_matched)]: the statistics and the alias table. *)
Definition aggregate_data (df_matched : DataFrame)
  : option (DataFrame * DataFrame) :=
  ms ← read_matched df_matched;
  Some (stats_of ms, names_of ms).

End Aggregation.

Definition old_col (c : pystr) : bool :=
  py_startswith (lit "patent_") c || py_startswith (lit "patent_inventor_") c.

Definition stat_col (c : pystr) : bool :=
  old_col c && negb (py_contains (lit "name") c).

(** [.fillna(0).astype(int)] on one cell; a text cannot be cast. *)
Definition fill_int (v : cell) : option cell :=
  match v with
  | CNull => Some (CNum (Qc_of_Z 0))
  | CNum q => Some (CNum (Qc_of_Z (Qc_trunc q)))
  | CStr _ => None
  end.

Definition fill_row (cols : list pystr) (r : list cell) : option (list cell) :=
  mapM (fun cv : pystr * cell => if stat_col cv.1 then fill_int cv.2 else Some cv.2)
       (zip cols r).

(** [merge_to_final_outcome(df_main, df_stats, df_names)] *)
Definition merge_to_final_outcome (df_main df_stats df_names : DataFrame)
  : option DataFrame :=
  let df_main := drop_cols old_col df_main in
  df_final ← merge_left df_main df_stats (lit "acquiror_name");
  df_final ← merge_left df_final df_names (lit "acquiror_name");
  rs ← mapM (fill_row (columns df_final)) (rows df_final);
  Some (mkDF (columns df_final) rs).

End Step3.

(** ** Step 1: tiered matching (步骤1_自动清洗.py, main / perform_matching) *)

Module Matching.

(** A row of [df_summary]. *)
Record summary_row := mkSummary {
  assignee : cell;
  clean_name : pystr;
  patent_count : nat;
  inventor_sum : Qc }.

(** ['Strict'] and [f'Fuzzy (≥{threshold})']. *)
Inductive match_type :=
| Strict
| Fuzzy (threshold : Qc).

Record MatchCandidate := mkCandidate {
  Assignee_Original : cell;
  Assignee_Clean : pystr;
  Matched_Acquiror_Clean : pystr;
  Match_Type : match_type;
  Similarity : Qc;
  Tier : pystr }.

Definition hundred : Qc := Qc_of_Z 100.

(** [np.array_split(l, n)]: [n] sections, the first [len mod n] of them one
    longer; [None] is the ValueError for [n = 0]. *)
Fixpoint chunks_by {A} (sizes : list nat) (l : list A) : list (list A) :=
  match sizes with
  | [] => []
  | k :: sizes' => take k l :: chunks_by sizes' (drop k l)
  end.
Definition array_split {A} (l : list A) (n : nat) : option (list (list A)) :=
  if n =? 0 then None
  else
    let each := length l / n in
    let extras := length l mod n in
    Some (chunks_by (replicate extras (S each) ++ replicate (n - extras) each) l).

Section Matcher.

(** [rapidfuzz.fuzz.token_set_ratio] and [multiprocessing.cpu_count()]; the
    registry's cleaned names as a set and as the list made from it. *)
Variable token_set_ratio : pystr -> pystr -> Qc.
Variable cpu_count : nat.
Variable acquiror_clean_set : gset pystr.
Variable acquiror_clean_list : list pystr.

(** The scorer called with [score_cutoff]: a score under the cutoff is
    reported as 0. *)
Definition scorer (score_cutoff : Qc) (query choice : pystr) : Qc :=
  let v := token_set_ratio query choice in
  if Qc_leb score_cutoff v then v else 0%Qc.

(** [rapidfuzz.process.extractOne(query, choices, scorer=..., score_cutoff=t)]
    as the library documents it: the choices are scored in order; a choice
    becomes the result when its score reaches the cutoff and beats the result
    so far; a score of 100 ends the search. *)
Fixpoint extractOne_from (query : pystr) (choices : list pystr) (key : nat)
  (score_cutoff : Qc) (result : option (pystr * Qc * nat))
  : option (pystr * Qc * nat) :=
  match choices with
  | [] => result
  | choice :: rest =>
      let score := scorer score_cutoff query choice in
      let better :=
        Qc_leb score_cutoff score
        && match result with
           | Some (_, best, _) => negb (Qc_leb score best)
           | None => true
           end in
      let result' := if better then Some (choice, score, key) else result in
      let cutoff' := if better then score else score_cutoff in
      if better && bool_decide (score = hundred) then result'
      else extractOne_from query rest (S key) cutoff' result'
  end.
Definition extractOne (query : pystr) (choices : list pystr)
  (score_cutoff : Qc) : option (pystr * Qc * nat) :=
  extractOne_from query choices 0 score_cutoff None.

(** The body of the fuzzy loops: the candidate of one unmatched row. *)
Definition fuzzy_candidate (threshold : Qc) (tier_name : pystr)
  (row : summary_row) : list MatchCandidate :=
  match extractOne (clean_name row) acquiror_clean_list threshold with
  | Some (match_name, score, _) =>
      [mkCandidate (assignee row) (clean_name row) match_name
                   (Fuzzy threshold) score tier_name]
  | None => []
  end.

(** [fuzzy_match_batch((unmatched_chunk, acquiror_list, threshold, tier_name))] *)
Definition fuzzy_match_batch (unmatched_chunk : list summary_row)
  (threshold : Qc) (tier_name : pystr) : list MatchCandidate :=
  fold_left (fun results row => results ++ fuzzy_candidate threshold tier_name row)
            unmatched_chunk [].

(** The strict loop: the hits and the rows left over. *)
Definition strict_step (tier_name : pystr)
  (acc : list MatchCandidate * list summary_row) (row : summary_row)
  : list MatchCandidate * list summary_row :=
  if bool_decide (clean_name row ∈ acquiror_clean_set) then
    (acc.1 ++ [mkCandidate (assignee row) (clean_name row) (clean_name row)
                           Strict hundred tier_name], acc.2)
  else (acc.1, acc.2 ++ [row]).

(** [perform_matching(df_target, tier_name, fuzzy_threshold, use_parallel)];
    [None] is the exception raised when the worker pool would be empty. *)
Definition perform_matching (df_target : list summary_row) (tier_name : pystr)
  (fuzzy_threshold : option Qc) (use_parallel : bool)
  : option (list MatchCandidate * list MatchCandidate) :=
  let '(strict_res, unmatched_list) :=
    fold_left (strict_step tier_name) df_target ([], []) in
  match fuzzy_threshold, unmatched_list with
  | Some threshold, _ :: _ =>
      if use_parallel && (100 <? length unmatched_list) then
        let n_cores := Nat.min (cpu_count - 1) 4 in
        chunks ← array_split unmatched_list n_cores;
        let results :=
          map (fun chunk => fuzzy_match_batch chunk threshold tier_name) chunks in
        Some (strict_res, fold_left (fun acc r => acc ++ r) results [])
      else
        Some (strict_res,
              fold_left
                (fun acc row => acc ++ fuzzy_candidate threshold tier_name row)
                unmatched_list [])
  | _, _ => Some (strict_res, [])
  end.

(** The three tiers of [main] and their runs. *)
Definition tiers (df_summary : list summary_row)
  : list summary_row * list summary_row * list summary_row :=
  let top_5_idx := length df_summary / 20 in
  let df_remaining := drop top_5_idx df_summary in
  (take top_5_idx df_summary,
   List.filter (fun r => 5 <? patent_count r) df_remaining,
   List.filter (fun r => patent_count r <=? 5) df_remaining).

(** [main] up to the quality check: the matches for review and the
    automatically accepted ones. *)
Definition run_tiers (df_summary : list summary_row)
  : option (list MatchCandidate * list MatchCandidate) :=
  let '(df_tier1, df_tier2, df_tier3) := tiers df_summary in
  '(t1_strict, t1_fuzzy) ←
    perform_matching df_tier1 (lit "Tier 1") (Some (Qc_of_Z 90)) true;
  '(t2_strict, t2_fuzzy) ←
    perform_matching df_tier2 (lit "Tier 2") (Some (Qc_of_Z 100)) true;
  '(t3_strict, t3_fuzzy) ←
    perform_matching df_tier3 (lit "Tier 3") None false;
  Some (t1_strict ++ t1_fuzzy ++ t2_fuzzy, t2_strict ++ t3_strict).

End Matcher.

End Matching.

(** ** Step 4B: filling the identifier columns (步骤4B_Compustat匹配.py) *)

Module Step4B.

Record ids := mkIds {
  gvkey : cell;
  cusip : cell;
  cik : cell;
  compustat_name : cell }.

Definition id_cols : list pystr :=
  [lit "gvkey"; lit "cusip"; lit "cik"; lit "compustat_name"].

(** [row.get(c, None)] *)
Definition row_get_default (cols : list pystr) (r : list cell) (c : pystr)
  : cell :=
  default CNull (row_get cols r c).

(** The loop building [acquiror_to_ids] from [df_verify_with_ids]; [None] is
    the KeyError of [row['Acquiror_Original']]. *)
Definition build_ids (df : DataFrame) : option (gmap cell ids) :=
  a ← col_pos (columns df) (lit "Acquiror_Original");
  Some (fold_left
          (fun (m : gmap cell ids) r =>
             <[at_pos a r :=
                 mkIds (row_get_default (columns df) r (lit "gvkey"))
                       (row_get_default (columns df) r (lit "cusip"))
                       (row_get_default (columns df) r (lit "cik"))
                       (row_get_default (columns df) r
                                        (lit "Matched_Compustat_Original"))]> m)
          (rows df) ∅).

(** The loop that makes sure the four columns exist. *)
Definition ensure_id_cols (df : DataFrame) : DataFrame :=
  fold_left (fun df c => if has_col df c then df else add_const_col df c CNull)
            id_cols df.

(** [if pd.isna(df_final.at[idx, c]): df_final.at[idx, c] = v] *)
Definition fill_cell (cols : list pystr) (c : pystr) (v : cell)
  (r : list cell) : list cell :=
  match col_pos cols c with
  | Some i => if isna (at_pos i r) then <[i:=v]> r else r
  | None => r
  end.

(** One iteration of [for idx, row in df_final.iterrows()]. *)
Definition fill_row (acquiror_to_ids : gmap cell ids) (cols : list pystr)
  (r : list cell) : option (list cell) :=
  acquiror_name ← row_get cols r (lit "acquiror_name");
  match acquiror_to_ids !! acquiror_name with
  | Some i =>
      let r := fill_cell cols (lit "gvkey") (gvkey i) r in
      let r := fill_cell cols (lit "cusip") (cusip i) r in
      let r := fill_cell cols (lit "cik") (cik i) r in
      let r := fill_cell cols (lit "compustat_name") (compustat_name i) r in
      Some r
  | None => Some r
  end.

(** Lines 143-166 of [main]: copy, ensure the columns, fill row by row. *)
Definition fill_ids (df_main : DataFrame) (acquiror_to_ids : gmap cell ids)
  : option DataFrame :=
  let df_final := ensure_id_cols df_main in
  rs ← mapM (fill_row acquiror_to_ids (columns df_final)) (rows df_final);
  Some (mkDF (columns df_final) rs).

End Step4B.

(** ** Step 1: the quality check and the export
    (步骤1_自动清洗.py, validate_matches and main) *)

Module Step1Main.

#[global] Instance match_type_eq_dec : EqDecision Matching.match_type.
Proof. solve_decision. Defined.

#[global] Instance match_type_countable : Countable Matching.match_type.
Proof.
  refine (inj_countable'
            (fun t => match t with
                      | Matching.Strict => None
                      | Matching.Fuzzy q => Some q
                      end)
            (fun o => match o with
                      | None => Matching.Strict
                      | Some q => Matching.Fuzzy q
                      end) _).
  intros []; reflexivity.
Defined.

(** A message of [validate_matches]: the check that fired and the count the
    message prints (the wording is not modelled). *)
Inductive issue :=
| OneToMany (n : nat)
| LowScore (n : nat)
| ShortNames (n : nat).

(** The [stats] dict; a key that was not set is [None]. *)
Record quality_stats (D : Type) := mkQuality {
  one_to_many : option nat;
  score_distribution : option D;
  low_score_count : option nat;
  short_names : option nat;
  match_types : option (gmap Matching.match_type nat) }.
Arguments mkQuality {D}.
Arguments one_to_many {D}.
Arguments score_distribution {D}.
Arguments low_score_count {D}.
Arguments short_names {D}.
Arguments match_types {D}.

(** [groupby('Assignee_Original')['Matched_Acquiror_Clean'].nunique()]: the
    keys are the distinct non-null originals, the value of a key the number
    of distinct matched names in its rows. *)
Definition group_keys (df_matches : list Matching.MatchCandidate)
  : list cell :=
  remove_dups
    (List.filter notna (map Matching.Assignee_Original df_matches)).
Definition nunique (df_matches : list Matching.MatchCandidate) (k : cell)
  : nat :=
  length
    (remove_dups
       (map Matching.Matched_Acquiror_Clean
            (List.filter
               (fun c => bool_decide (Matching.Assignee_Original c = k))
               df_matches))).

(** [Series.value_counts().to_dict()] *)
Definition value_counts (l : list Matching.match_type)
  : gmap Matching.match_type nat :=
  foldr (fun t m => <[t := S (default 0 (m !! t))]> m) ∅ l.

Section Validate.

(** [Series.describe().to_dict()] is not part of the repository. *)
Context {D : Type}.
Variable describe : list Qc -> D.

(** [validate_matches(df_matches)] *)
Definition validate_matches (df_matches : list Matching.MatchCandidate)
  : list issue * quality_stats D :=
  match df_matches with
  | [] => ([], mkQuality None None None None None)
  | _ =>
      let one_to_many :=
        List.filter (fun k => 1 <? nunique df_matches k)
                    (group_keys df_matches) in
      let low_score :=
        List.filter
          (fun c => negb (Qc_leb (Qc_of_Z 95) (Matching.Similarity c)))
          df_matches in
      let short_names :=
        List.filter (fun c => length (Matching.Assignee_Clean c) <? 3)
                    df_matches in
      let report (n : nat) (mk : nat -> issue) : list issue :=
        if 0 <? n then [mk n] else [] in
      let count (n : nat) : option nat :=
        if 0 <? n then Some n else None in
      (report (length one_to_many) OneToMany
         ++ report (length low_score) LowScore
         ++ report (length short_names) ShortNames,
       mkQuality
         (count (length one_to_many))
         (Some (describe (map Matching.Similarity df_matches)))
         (count (length low_score))
         (count (length short_names))
         (Some (value_counts (map Matching.Match_Type df_matches))))
  end.

End Validate.

(** [acquiror_clean_set = set(df_main['clean_name'].dropna().unique())], the
    frame given by its column [acquiror_name]. *)
Definition acquiror_clean_set (df_main : list cell) : gset pystr :=
  list_to_set (map Step1.clean_company_name df_main).

(** [get_orig_acquiror(clean_val)]: the first name of the registry with this
    cleaned name; the empty string when [iloc[0]] raises. *)
Definition get_orig_acquiror (df_main : list cell) (clean_val : pystr)
  : cell :=
  match List.filter
          (fun a => bool_decide (Step1.clean_company_name a = clean_val))
          df_main with
  | a :: _ => a
  | [] => CStr []
  end.

End Step1Main.


(** [df.drop_duplicates(subset=[key])]: the first row of every key, in the
    order of the frame.  [seen] holds the keys met so far. *)
Fixpoint drop_duplicates_from {A K} `{EqDecision K} (key : A -> K)
  (seen : list K) (l : list A) : list A :=
  match l with
  | [] => []
  | x :: l' =>
      if bool_decide (key x ∈ seen) then drop_duplicates_from key seen l'
      else x :: drop_duplicates_from key (key x :: seen) l'
  end.
Definition drop_duplicates {A K} `{EqDecision K} (key : A -> K) (l : list A)
  : list A :=
  drop_duplicates_from key [] l.

(** ** Step 4A: matching the registry with Compustat
    (步骤4A_Compustat匹配.py, main) *)

Module Step4AMain.

Definition FUZZY_THRESHOLD : Qc := Qc_of_Z 90.

(** ['Strict'] and ['Fuzzy']. *)
Inductive match_type := Strict | Fuzzy.

(** An entry of [strict_res] or [fuzzy_res]. *)
Record match_row := mkMatch {
  Acquiror_Original : cell;
  Acquiror_Clean : pystr;
  Matched_Compustat_Clean : pystr;
  Match_Type : match_type;
  Score : Qc }.

(** [df_ma_target] with its column [clean_acquiror]: the rows of the registry
    that have a [patent_name], given by [acquiror_name] and [patent_name]. *)
Definition df_ma_target (df_ma : list (cell * cell)) : list (cell * pystr) :=
  map (fun r => (r.1, Step4A.clean_company_name r.1))
      (List.filter (fun r : cell * cell => notna r.2) df_ma).

(** [compustat_unique]: the names [conm] with their cleaned form, without
    the names that clean to nothing, one row per cleaned form. *)
Definition compustat_unique (df_comp : list cell) : list (cell * pystr) :=
  drop_duplicates snd
    (List.filter (fun p : cell * pystr => negb (bool_decide (p.2 = [])))
       (map (fun c => (c, Step4A.clean_company_name c)) df_comp)).

Definition compustat_clean_list (df_comp : list cell) : list pystr :=
  map snd (compustat_unique df_comp).
Definition compustat_clean_set (df_comp : list cell) : gset pystr :=
  list_to_set (compustat_clean_list df_comp).

(** [dict(zip(compustat_unique['clean_conm'], compustat_unique['conm']))] *)
Definition clean_to_original_map (df_comp : list cell) : gmap pystr cell :=
  fold_left (fun (m : gmap pystr cell) (p : cell * pystr) => <[p.2 := p.1]> m)
            (compustat_unique df_comp) ∅.

(** The body of the strict loop: the hits and the rows left over. *)
Definition strict_step (clean_set : gset pystr)
  (acc : list match_row * list (cell * pystr)) (row : cell * pystr)
  : list match_row * list (cell * pystr) :=
  if bool_decide (row.2 = []) then acc
  else if bool_decide (row.2 ∈ clean_set) then
    (acc.1 ++ [mkMatch row.1 row.2 row.2 Strict (Qc_of_Z 100)], acc.2)
  else (acc.1, acc.2 ++ [row]).

Section Main.

Variable token_set_ratio : pystr -> pystr -> Qc.

(** The body of the fuzzy loop. *)
Definition fuzzy_step (clean_list : list pystr) (acc : list match_row)
  (row : cell * pystr) : list match_row :=
  match Matching.extractOne token_set_ratio row.2 clean_list
          FUZZY_THRESHOLD with
  | Some (match_name, score, _) =>
      acc ++ [mkMatch row.1 row.2 match_name Fuzzy score]
  | None => acc
  end.

(** [main] up to the sort of the verification table: the matches, each with
    its [Matched_Compustat_Original]; [None] when nothing matched and [main]
    returns False. *)
Definition main (df_ma : list (cell * cell)) (df_comp : list cell)
  : option (list (match_row * cell)) :=
  let '(strict_res, unmatched_rows) :=
    fold_left (strict_step (compustat_clean_set df_comp))
              (df_ma_target df_ma) ([], []) in
  let fuzzy_res :=
    fold_left (fuzzy_step (compustat_clean_list df_comp)) unmatched_rows [] in
  match strict_res ++ fuzzy_res with
  | [] => None
  | df_all_matches =>
      Some (map (fun r =>
                   (r, default CNull
                         (clean_to_original_map df_comp
                            !! Matched_Compustat_Clean r)))
                df_all_matches)
  end.

End Main.

End Step4AMain.


(** * Vocabulary of the statements *)

Definition sheet (pairs : list (pystr * pystr)) : Step2.file :=
  Step2.Workbook
    (mkDF [lit "Assignee_Original"; lit "Original_Acquiror_Name"]
          (map (fun p => [CStr p.1; CStr p.2]) pairs)).

(** The rule in the words of the specification: the numeric value of the
    count field, 0 when it is absent or not a number, against the number of
    non-null sub-fields. *)
Definition count_field_value (parse_number : pystr -> option Qc) (v : cell)
  : Qc :=
  match v with
  | CNum q => q
  | CStr s => match parse_number s with Some q => q | None => 0%Qc end
  | CNull => 0%Qc
  end.

Definition record_weight (parse_number : pystr -> option Qc)
  (count_field : cell) (sub_fields : list cell) : Qc :=
  Qc_max (count_field_value parse_number count_field)
         (Qc_of_nat (length (List.filter notna sub_fields))).

Definition patent_row (count : cell) (names : list cell) : list cell :=
  count :: names.
Definition patent_frame (rs : list (list cell)) : DataFrame :=
  mkDF (lit "inventors" :: Step3.inventor_name_cols) rs.

Definition two_patents : DataFrame :=
  patent_frame
    [patent_row (CNum (Qc_of_Z 3))
       (replicate 5 (CStr (lit "N")) ++ replicate 5 CNull);
     patent_row (CStr (lit "seven"))
       (replicate 2 (CStr (lit "N")) ++ replicate 8 CNull)].

(** The outcome of one record in a tier run, in the words of the
    specification: a strict hit, a fuzzy hit or no match, with the candidate
    it emits. *)
Inductive outcome :=
| StrictHit (c : Matching.MatchCandidate)
| FuzzyHit (c : Matching.MatchCandidate)
| NoMatch.

Definition strict_of (o : outcome) : list Matching.MatchCandidate :=
  match o with StrictHit c => [c] | _ => [] end.
Definition fuzzy_of (o : outcome) : list Matching.MatchCandidate :=
  match o with FuzzyHit c => [c] | _ => [] end.

(** What an outcome must satisfy for its record. *)
Definition outcome_ok (acquiror_clean_set : gset pystr)
  (acquiror_clean_list : list pystr) (tier_name : pystr)
  (fuzzy_threshold : option Qc) (row : Matching.summary_row) (o : outcome)
  : Prop :=
  match o with
  | StrictHit c =>
      (Matching.clean_name row ∈ acquiror_clean_set)
      /\ c = Matching.mkCandidate (Matching.assignee row)
               (Matching.clean_name row) (Matching.clean_name row)
               Matching.Strict Matching.hundred tier_name
  | FuzzyHit c =>
      (Matching.clean_name row ∉ acquiror_clean_set)
      /\ exists t : Qc,
          fuzzy_threshold = Some t
          /\ Matching.Assignee_Original c = Matching.assignee row
          /\ Matching.Assignee_Clean c = Matching.clean_name row
          /\ (Matching.Matched_Acquiror_Clean c ∈ acquiror_clean_list)
          /\ Matching.Match_Type c = Matching.Fuzzy t
          /\ Matching.Tier c = tier_name
          /\ (t <= Matching.Similarity c)%Qc
          /\ (Matching.Similarity c <= Matching.hundred)%Qc
  | NoMatch => Matching.clean_name row ∉ acquiror_clean_set
  end.

(** A scorer for examples: 100 on equal strings, 0 otherwise. *)
Definition exact_ratio (a b : pystr) : Qc :=
  if bool_decide (a = b) then Matching.hundred else 0%Qc.

(** The outcome the code gives a record: strict when its cleaned name is in
    the registry's set, else fuzzy when a threshold is set and [extractOne]
    finds a choice, else none. *)
Definition outcome_of (token_set_ratio : pystr -> pystr -> Qc)
  (acquiror_clean_set : gset pystr) (acquiror_clean_list : list pystr)
  (tier_name : pystr) (fuzzy_threshold : option Qc)
  (row : Matching.summary_row) : outcome :=
  if bool_decide (Matching.clean_name row ∈ acquiror_clean_set) then
    StrictHit (Matching.mkCandidate (Matching.assignee row)
                 (Matching.clean_name row) (Matching.clean_name row)
                 Matching.Strict Matching.hundred tier_name)
  else
    match fuzzy_threshold with
    | Some t =>
        match Matching.extractOne token_set_ratio (Matching.clean_name row)
                acquiror_clean_list t with
        | Some (match_name, score, _) =>
            FuzzyHit (Matching.mkCandidate (Matching.assignee row)
                        (Matching.clean_name row) match_name
                        (Matching.Fuzzy t) score tier_name)
        | None => NoMatch
        end
    | None => NoMatch
    end.

Definition example_summary : list Matching.summary_row :=
  [Matching.mkSummary (CStr (lit "ACME CORP")) (lit "ACME") 7 (Qc_of_Z 9);
   Matching.mkSummary (CStr (lit "Gamma LLC")) (lit "GAMMA") 1 (Qc_of_Z 1)].

(** A frame is well formed when every row has one cell per column. *)
Definition wf_frame (df : DataFrame) : Prop :=
  Forall (fun r => length r = length (columns df)) (rows df).

(** The part a left merge appends to a row with key [k]: the other cells of
    the row of [right] with that key, or nulls. *)
Definition right_part (right : DataFrame) (j : nat) (k : cell) : list cell :=
  match List.find (fun r => bool_decide (at_pos j r = k)) (rows right) with
  | Some r => delete j r
  | None => replicate (length (delete j (columns right))) CNull
  end.

(** [.fillna(0).astype(int)] on a numeric or missing cell. *)
Definition fill_total (v : cell) : cell :=
  match v with
  | CNull => CNum (Qc_of_Z 0)
  | CNum q => CNum (Qc_of_Z (Qc_trunc q))
  | CStr s => CStr s
  end.

(** The labels and the row after [df[c] = vals]. *)
Definition assign_cols (cols : list pystr) (c : pystr) : list pystr :=
  match col_pos cols c with
  | Some _ => cols
  | None => cols ++ [c]
  end.
Definition assign_row (cols : list pystr) (c : pystr) (v : cell)
  (r : list cell) : list cell :=
  match col_pos cols c with
  | Some i => <[i:=v]> r
  | None => r ++ [v]
  end.

Definition example_matched : DataFrame :=
  mkDF [lit "Matched_Acquiror"; lit "application_year"; lit "assignee";
        lit "final_inventor_count"]
       [[CStr (lit "ACME CORPORATION"); CNum (Qc_of_Z 1995);
         CStr (lit "ACME CORP"); CNum (Qc_of_Z 2)];
        [CStr (lit "ACME CORPORATION"); CNum (Qc_of_Z 1996);
         CStr (lit "Acme Corporation"); CNum (Qc_of_Z 3)]].

Definition example_main : DataFrame :=
  mkDF [lit "acquiror_name"; lit "patent_1995"]
       [[CStr (lit "ACME CORPORATION"); CNum (Qc_of_Z 9)];
        [CStr (lit "BETA INC"); CNull]].

Definition example_rows : list Step3.matched_row :=
  [Step3.mkMatched (lit "ACME CORPORATION") 1995 (CStr (lit "ACME CORP"))
     (Some (Qc_of_Z 2));
   Step3.mkMatched (lit "ACME CORPORATION") 1996
     (CStr (lit "Acme Corporation")) (Some (Qc_of_Z 3))].

Definition example_patent_cols : list pystr :=
  [lit "assignee"; lit "application_year"; lit "inventors"].
Definition example_dict : gmap pystr pystr :=
  {[lit "ACME CORP" := lit "ACME CORPORATION"]}.

(** ** Vocabulary for the cleaning function *)

(** Letters in upper case and digits: the characters step 4 keeps besides
    white space. *)
Definition az09 (c : ascii) : bool := is_upper c || is_digit c.

(** A character that is neither a lower-case letter nor the underscore; on
    such characters [\w] and [[A-Z0-9]] agree. *)
Definition tamec (c : ascii) : bool :=
  negb (is_lower c) && negb (code c =? 95).

(** The words of a string: its maximal runs of word characters.  [cur] is
    the word being read. *)
Definition flush (cur : pystr) : list pystr :=
  match cur with [] => [] | _ => [cur] end.
Fixpoint words_aux (cur : pystr) (s : pystr) : list pystr :=
  match s with
  | [] => flush cur
  | c :: s' =>
      if is_word c then words_aux (cur ++ [c]) s'
      else flush cur ++ words_aux [] s'
  end.
Definition words (s : pystr) : list pystr := words_aux [] s.

(** The character before position [n] of [s], [prev] being the one before
    [s]. *)
Definition prev_at (prev : option ascii) (s : pystr) (n : nat)
  : option ascii :=
  match n with
  | 0 => prev
  | S k => s !! k
  end.

(** The patterns [\bW\b] and [\bW\.?\b] for a literal word [W]. *)
Definition lits (w : pystr) : regex := map (fun c => One (CChr c)) w.
Definition pat_word (w : pystr) : regex := Bnd :: lits w ++ [Bnd].
Definition pat_word_dot (w : pystr) : regex :=
  Bnd :: lits w ++ [Opt (CChr "."); Bnd].

(** White space occurs only as single blanks. *)
Fixpoint single_spaced (s : pystr) : Prop :=
  match s with
  | [] => True
  | c :: s' =>
      (is_space c = true ->
       c = " "%char /\ match s' with d :: _ => is_space d = false | [] => True end)
      /\ single_spaced s'
  end.

(** The run of word characters a string starts with. *)
Fixpoint word_prefix (s : pystr) : pystr :=
  match s with
  | c :: s' => if is_word c then c :: word_prefix s' else []
  | [] => []
  end.

(** A non-empty string of upper-case letters and digits. *)
Definition wordy (w : pystr) : bool :=
  match w with [] => false | _ => forallb az09 w end.

(** Every match of the pattern starts at the beginning of a word and ends at
    a word boundary. *)
Definition word_bounded (ic : bool) (re : regex) : Prop :=
  forall prev s n,
    match_here ic re prev s = Some n ->
    0 < n /\ word_before prev = false /\ word_after s = true
    /\ xorb (word_before (prev_at prev s n)) (word_after (drop n s)) = true.

(** Every match of the pattern ends with a word character. *)
Definition ends_in_word (ic : bool) (re : regex) : Prop :=
  forall prev s n,
    match_here ic re prev s = Some n ->
    word_before (prev_at prev s n) = true.

(** The pattern matches the word [w] wherever it stands as a whole word. *)
Definition finds (ic : bool) (re : regex) (w : pystr) : Prop :=
  forall prev rest,
    word_before prev = false -> word_after rest = false ->
    is_Some (match_here ic re prev (w ++ rest)).

(** The pattern matches nowhere in [s]. *)
Fixpoint no_match (ic : bool) (re : regex) (prev : option ascii) (s : pystr)
  : Prop :=
  match_here ic re prev s = None
  /\ match s with
     | c :: s' => no_match ic re (Some c) s'
     | [] => True
     end.

(** None of the words [fw] occurs in [s] as a whole word. *)
Definition free_of (fw : list pystr) (s : pystr) : Prop :=
  Forall (fun w => w ∉ words s) fw.

(** The words the abbreviation and suffix tables look for, the one looked
    for last coming first. *)
Definition forbidden : list pystr :=
  [lit "KK"; lit "AG"; lit "SA"; lit "GMBH"; lit "NV"; lit "LLC"; lit "PLC";
   lit "CO"; lit "LTD"; lit "GROUP"; lit "LIMITED"; lit "COMPANY";
   lit "CORPORATION"; lit "INCORPORATED"; lit "SYS"; lit "TECH"; lit "MFG";
   lit "INC"; lit "CORP"; lit "NATL"; lit "INTL"].

(** What step 4 does to one character. *)
Definition blank_punct (c : ascii) : ascii :=
  if az09 c || is_space c then c else " "%char.

(** Length of the white space a string starts with. *)
Fixpoint space_run (s : pystr) : nat :=
  match s with
  | c :: s' => if is_space c then S (space_run s') else 0
  | [] => 0
  end.

(** What step 5 does: a run of white space becomes one blank.  [in_run]
    tells that the character before was white space. *)
Fixpoint squeeze (in_run : bool) (s : pystr) : pystr :=
  match s with
  | c :: s' =>
      if is_space c then
        if in_run then squeeze true s' else " "%char :: squeeze true s'
      else c :: squeeze false s'
  | [] => []
  end.

(** Upper-case letters, digits and the blank. *)
Definition plain (c : ascii) : bool := az09 c || Ascii.eqb c " ".

(** The shape of a cleaned name: plain characters, single blanks between
    words and none around, and none of the words the tables look for. *)
Definition normal (s : pystr) : Prop :=
  Forall (fun c => plain c = true) s
  /\ single_spaced s
  /\ py_strip s = s
  /\ free_of forbidden s.


(** The shape of a result of the cleaning function: upper-case letters,
    digits and blanks; blanks only one at a time and not at either end. *)
Definition well_shaped (y : pystr) : Prop :=
  Forall (fun c => plain c = true) y
  /\ single_spaced y
  /\ head y <> Some " "%char
  /\ last y <> Some " "%char.

(** The rows the strict pass of [perform_matching] leaves over. *)
Definition unmatched (acquiror_clean_set : gset pystr)
  (df_target : list Matching.summary_row) : list Matching.summary_row :=
  List.filter
    (fun row => negb (bool_decide
                        (Matching.clean_name row ∈ acquiror_clean_set)))
    df_target.

(** The candidate of a strict hit. *)
Definition strict_candidate (tier_name : pystr) (row : Matching.summary_row)
  : Matching.MatchCandidate :=
  Matching.mkCandidate (Matching.assignee row) (Matching.clean_name row)
    (Matching.clean_name row) Matching.Strict Matching.hundred tier_name.

(** The pairs a path contributes to the dictionary: the stripped names of
    the valid rows of its workbook, in row order; none when the path is
    skipped (no file, a file that cannot be read, a column missing). *)
Definition contributed (repr_number : Qc -> pystr)
  (fs : gmap pystr Step2.file) (file_path : pystr) : list (pystr * pystr) :=
  match fs !! file_path with
  | Some (Step2.Workbook df) =>
      match col_pos (columns df) (lit "Assignee_Original"),
            col_pos (columns df) (lit "Original_Acquiror_Name") with
      | Some i, Some j =>
          map (fun p => (Step2.stripped repr_number p.1,
                         Step2.stripped repr_number p.2))
              (List.filter (Step2.valid_pair repr_number)
                 (map (fun r => (at_pos i r, at_pos j r)) (rows df)))
      | _, _ => []
      end
  | _ => []
  end.

(** A path that [build_master_dictionary] passes over. *)
Definition skipped (fs : gmap pystr Step2.file) (file_path : pystr) : Prop :=
  match fs !! file_path with
  | None => True
  | Some Step2.Unreadable => True
  | Some (Step2.Workbook df) =>
      col_pos (columns df) (lit "Assignee_Original") = None
      \/ col_pos (columns df) (lit "Original_Acquiror_Name") = None
  end.
(** The sum of a counter over the statistics of the files. *)
Definition total (f : Step2.SourceStat -> nat)
  (stats : list Step2.SourceStat) : nat :=
  sum_list (map f stats).

(** What the row loop keeps: every row lands in one counter; a new mapping
    is a new key; a conflict is a new record that tells the truth about the
    dictionary. *)
Definition loop_inv (file_path : pystr) (st0 st : Step2.loop_state)
  (n : nat) : Prop :=
  Step2.count_new st + Step2.count_duplicate st + Step2.count_conflict st
  = Step2.count_new st0 + Step2.count_duplicate st0
    + Step2.count_conflict st0 + n
  /\ size (Step2.master_dict st) + Step2.count_new st0
     = size (Step2.master_dict st0) + Step2.count_new st
  /\ length (Step2.conflicts st) + Step2.count_conflict st0
     = length (Step2.conflicts st0) + Step2.count_conflict st
  /\ Step2.master_dict st0 ⊆ Step2.master_dict st
  /\ exists added,
      Step2.conflicts st = Step2.conflicts st0 ++ added
      /\ Forall (fun c =>
                   Step2.master_dict st !! Step2.Assignee c
                   = Some (Step2.Existing_Acquiror c)
                   /\ Step2.New_Acquiror c <> Step2.Existing_Acquiror c
                   /\ Step2.Source_File c = file_path) added.


(** The state between two files. *)
Definition build_inv (files : list pystr) (b : Step2.build_state) : Prop :=
  Forall (fun s => Step2.Valid_Rows s
                   = Step2.New_Mappings s + Step2.Duplicates s
                     + Step2.Conflicts s) (Step2.b_stats b)
  /\ size (Step2.b_dict b) = total Step2.New_Mappings (Step2.b_stats b)
  /\ length (Step2.b_conflicts b) = total Step2.Conflicts (Step2.b_stats b)
  /\ Forall (fun c =>
               Step2.b_dict b !! Step2.Assignee c
               = Some (Step2.Existing_Acquiror c)
               /\ Step2.New_Acquiror c <> Step2.Existing_Acquiror c
               /\ Step2.Source_File c ∈ files) (Step2.b_conflicts b).


(** The four assignments of the fill loop for a row whose name has the
    identifiers [i]. *)
Definition fills (cols : list pystr) (i : Step4B.ids) (r : list cell)
  : list cell :=
  Step4B.fill_cell cols (lit "compustat_name") (Step4B.compustat_name i)
    (Step4B.fill_cell cols (lit "cik") (Step4B.cik i)
       (Step4B.fill_cell cols (lit "cusip") (Step4B.cusip i)
          (Step4B.fill_cell cols (lit "gvkey") (Step4B.gvkey i) r))).

(** The row the fill loop leaves, [a] being the position of
    [acquiror_name]. *)
Definition filled (m : gmap cell Step4B.ids) (a : nat) (cols : list pystr)
  (r : list cell) : list cell :=
  match m !! at_pos a r with
  | Some i => fills cols i r
  | None => r
  end.

(** The identifier a record holds for a column label. *)
Definition ids_value (i : Step4B.ids) (c : pystr) : cell :=
  if bool_decide (c = lit "gvkey") then Step4B.gvkey i
  else if bool_decide (c = lit "cusip") then Step4B.cusip i
  else if bool_decide (c = lit "cik") then Step4B.cik i
  else Step4B.compustat_name i.
(** A main table, a verified mapping and the table the fill loop makes of
    them. *)
Definition example_ids_main : DataFrame :=
  mkDF [lit "acquiror_name"; lit "gvkey"]
       [[CStr (lit "A"); CNull]; [CStr (lit "B"); CStr (lit "001")]].
Definition example_ids : gmap cell Step4B.ids :=
  {[CStr (lit "A") :=
      Step4B.mkIds (CStr (lit "007")) CNull CNull (CStr (lit "A CORP"))]}.
Definition example_ids_final : DataFrame :=
  mkDF [lit "acquiror_name"; lit "gvkey"; lit "cusip"; lit "cik";
        lit "compustat_name"]
       [[CStr (lit "A"); CStr (lit "007"); CNull; CNull; CStr (lit "A CORP")];
        [CStr (lit "B"); CStr (lit "001"); CNull; CNull; CNull]].

(** The number a cell of a pivot table stands for; an empty cell counts as
    nothing. *)
Definition cell_num (v : cell) : Qc :=
  match v with CNum q => q | _ => 0%Qc end.

(** The records matched to an entity. *)
Definition records_of (ms : list Step3.matched_row) (acq : pystr)
  : list Step3.matched_row :=
  List.filter (fun m => bool_decide (Step3.m_acquiror m = acq)) ms.
(** A list in increasing order for [le]: every element is below its
    successor. *)
Fixpoint sorted_by {A} (le : A -> A -> bool) (l : list A) : Prop :=
  match l with
  | [] => True
  | x :: l' =>
      match l' with [] => True | y :: _ => le x y = true end
      /\ sorted_by le l'
  end.

(** What a match of step 4A must satisfy. *)
Definition verified (df_ma : list (cell * cell)) (df_comp : list cell)
  (p : Step4AMain.match_row * cell) : Prop :=
  let r := p.1 in
  (exists patent_name,
      (Step4AMain.Acquiror_Original r, patent_name) ∈ df_ma
      /\ notna patent_name = true)
  /\ Step4AMain.Acquiror_Clean r
     = Step4A.clean_company_name (Step4AMain.Acquiror_Original r)
  /\ Step4AMain.Acquiror_Clean r <> []
  /\ head (List.filter
             (fun c => bool_decide
                         (Step4A.clean_company_name c
                          = Step4AMain.Matched_Compustat_Clean r))
             df_comp) = Some p.2
  /\ match Step4AMain.Match_Type r with
     | Step4AMain.Strict =>
         Step4AMain.Matched_Compustat_Clean r = Step4AMain.Acquiror_Clean r
         /\ Step4AMain.Score r = Qc_of_Z 100
     | Step4AMain.Fuzzy =>
         (Step4AMain.Acquiror_Clean r
          ∉ Step4AMain.compustat_clean_set df_comp)
         /\ (Step4AMain.FUZZY_THRESHOLD <= Step4AMain.Score r)%Qc
         /\ (Step4AMain.Score r <= Matching.hundred)%Qc
     end.


(** Every cell of the column [c] of a frame satisfies [P]. *)
Definition column_all (df : DataFrame) (c : pystr) (P : cell -> Prop) : Prop :=
  exists i, col_pos (columns df) c = Some i
            /\ Forall (fun r => P (at_pos i r)) (rows df).

(** A text that the dictionary gives for some raw name. *)
Definition target_of (master_dict : gmap pystr pystr) (v : cell) : Prop :=
  exists k a, master_dict !! k = Some a /\ v = CStr a.

(** A tier of 101 records, none of them in the registry. *)
Definition single_cpu_tier : list Matching.summary_row :=
  map (fun i =>
         let name := lit "A" ++ int_str (Z.of_nat i) in
         Matching.mkSummary (CStr name) name 1 (Qc_of_Z 1))
      (seq 0 101).
(** What [list(set(x))] can return: the distinct values of [x], each once.
    The order is that of the hash table, which for texts changes from one
    run of the interpreter to the next. *)
Definition set_order (set_to_list : list cell -> list cell) : Prop :=
  forall x, set_to_list x ≡ₚ remove_dups x.

(** The labels of the alias columns: they start with [patent_] and are not
    metric columns. *)
Definition alias_col (c : pystr) : bool :=
  Step3.old_col c && negb (Step3.stat_col c).

(** Steps 5 and 6 of [main] of step 3: the aggregation, then the merge onto
    the main table. *)
Definition aggregate_and_merge (set_to_list : list cell -> list cell)
  (df_main df_matched : DataFrame) : option DataFrame :=
  '(df_stats, df_names) ← Step3.aggregate_data set_to_list df_matched;
  Step3.merge_to_final_outcome df_main df_stats df_names.

(** * Properties *)

(** ** The two copies of the cleaning function *)

(** C3. The copy of the cleaning function in step 4A is announced as the
    same as the one of step 1, but its suffix pattern for "S.A." is mistyped
    (a backslash moved): on the name "ACME S.A.R.L" step 1 returns "ACME R L"
    and step 4A returns "ACME S A R L". *)
Theorem clean_company_name_copies_differ :
  Step1.clean_company_name (CStr (lit "ACME S.A.R.L")) = lit "ACME R L"
  /\ Step4A.clean_company_name (CStr (lit "ACME S.A.R.L")) = lit "ACME S A R L".
Proof. split; vm_compute; reflexivity. Qed.

(** ** The master dictionary *)

(** C1. Each accepted pair updates the dictionary by exactly one of three
    cases: a new raw name is inserted and counted as new; a raw name already
    mapped to the same canonical name changes nothing and is counted as a
    duplicate; a raw name mapped to another canonical name keeps its mapping,
    and one conflict record (raw name, kept, rejected, source file) is
    appended.  Feeding (A, X) then (A, Y) gives A -> X with one conflict
    record, and feeding (A, X) twice gives A -> X, no conflict and one
    duplicate; so do two batches processed in the declared order. *)
Theorem build_master_dictionary_cases :
  (forall (file_path : pystr) (st : Step2.loop_state) (raw canon : pystr),
      let st' := Step2.process_pair file_path st raw canon in
      match Step2.master_dict st !! raw with
      | None =>
          Step2.master_dict st' = <[raw := canon]> (Step2.master_dict st)
          /\ Step2.conflicts st' = Step2.conflicts st
          /\ Step2.count_new st' = Step2.count_new st + 1
          /\ Step2.count_duplicate st' = Step2.count_duplicate st
          /\ Step2.count_conflict st' = Step2.count_conflict st
      | Some existing =>
          Step2.master_dict st' = Step2.master_dict st
          /\ Step2.count_new st' = Step2.count_new st
          /\ if bool_decide (existing = canon) then
               Step2.conflicts st' = Step2.conflicts st
               /\ Step2.count_duplicate st' = Step2.count_duplicate st + 1
               /\ Step2.count_conflict st' = Step2.count_conflict st
             else
               Step2.conflicts st' =
                 Step2.conflicts st
                   ++ [Step2.mkConflict raw existing canon file_path]
               /\ Step2.count_duplicate st' = Step2.count_duplicate st
               /\ Step2.count_conflict st' = Step2.count_conflict st + 1
      end)
  /\ (forall (file_path A X Y : pystr),
         let st :=
           Step2.process_pair file_path
             (Step2.process_pair file_path (Step2.mkLoop ∅ [] 0 0 0) A X) A Y in
         Step2.master_dict st = {[A := X]}
         /\ Step2.count_new st = 1
         /\ if bool_decide (X = Y) then
              Step2.conflicts st = []
              /\ Step2.count_duplicate st = 1 /\ Step2.count_conflict st = 0
            else
              Step2.conflicts st = [Step2.mkConflict A X Y file_path]
              /\ Step2.count_duplicate st = 0 /\ Step2.count_conflict st = 1)
  /\ (forall repr_number : Qc -> pystr,
         let fs : gmap pystr Step2.file :=
           <[lit "d/b1.xlsx" := sheet [(lit "A", lit "X")]]>
             (<[lit "d/b2.xlsx" := sheet [(lit " A ", lit "Y")]]>
                (<[lit "d/b3.xlsx" := sheet [(lit "A", lit "X ")]]> ∅)) in
         Step2.build_master_dictionary repr_number fs
           [lit "d/b1.xlsx"; lit "d/b2.xlsx"; lit "d/b3.xlsx"]
         = Step2.mkBuild
             {[lit "A" := lit "X"]}
             [Step2.mkStat (lit "b1.xlsx") 1 1 0 0;
              Step2.mkStat (lit "b2.xlsx") 1 0 0 1;
              Step2.mkStat (lit "b3.xlsx") 1 0 1 0]
             [Step2.mkConflict (lit "A") (lit "X") (lit "Y") (lit "d/b2.xlsx")]).
Proof.
  split; [|split].
  - intros file_path st raw canon st'. subst st'. unfold Step2.process_pair.
    destruct (Step2.master_dict st !! raw) as [existing|] eqn:E.
    + case_bool_decide; simpl; auto.
    + simpl. auto.
  - intros file_path A X Y.
    assert (H1 : Step2.process_pair file_path (Step2.mkLoop ∅ [] 0 0 0) A X
                 = Step2.mkLoop {[A := X]} [] 1 0 0).
    { unfold Step2.process_pair. simpl. rewrite lookup_empty.
      rewrite insert_empty. reflexivity. }
    rewrite H1. unfold Step2.process_pair. simpl.
    rewrite lookup_singleton_eq.
    case_bool_decide; simpl; auto.
  - intros repr_number fs. subst fs.
    unfold Step2.build_master_dictionary. simpl fold_left.
    unfold Step2.process_file at 3.
    rewrite lookup_insert_eq.
    vm_compute. reflexivity.
Qed.

(** C7. With an empty dictionary the save step fails and writes nothing: it
    returns False and the disk is as before; [main] then fails too.  (With a
    non-empty dictionary it succeeds and the pickle file holds the
    dictionary.) *)
Theorem save_dictionary_empty_fatal :
  (forall (source_stats : list Step2.SourceStat)
          (cs : list Step2.ConflictRecord) (disk : gmap pystr Step2.artifact),
      Step2.save_dictionary ∅ source_stats cs disk = (false, disk))
  /\ (forall (repr_number : Qc -> pystr) (fs : gmap pystr Step2.file)
             (files_list : list pystr) (disk : gmap pystr Step2.artifact),
         let b := Step2.build_master_dictionary repr_number fs files_list in
         let out := Step2.main repr_number fs files_list disk in
         if bool_decide (Step2.b_dict b = ∅) then out = (false, disk)
         else out.1 = true
              /\ out.2 !! Step2.OUTPUT_DICT_FILE
                 = Some (Step2.Pickle (Step2.b_dict b))).
Proof.
  split.
  - intros. unfold Step2.save_dictionary. rewrite bool_decide_eq_true_2; done.
  - intros repr_number fs files_list disk b out. subst out.
    unfold Step2.main. fold b. unfold Step2.save_dictionary.
    case_bool_decide as E; [reflexivity|].
    split; [reflexivity|]. simpl.
    destruct (Step2.b_stats b), (Step2.b_conflicts b);
      repeat (rewrite lookup_insert_ne; [|by vm_compute]);
      apply lookup_insert_eq.
Qed.

(** ** The per-record weight *)

Lemma zip_with_map_same {A B C D} (f : B -> C -> D) (g : A -> B) (h : A -> C)
  (l : list A) :
  zip_with f (map g l) (map h l) = map (fun x => f (g x) (h x)) l.
Proof. induction l as [|x l IH]; simpl; [reflexivity|]. by rewrite IH. Qed.

Lemma filter_map_length {A B} (p : B -> bool) (f : A -> B) (l : list A) :
  length (List.filter (fun i => p (f i)) l) = length (List.filter p (map f l)).
Proof.
  induction l as [|x l IH]; simpl; [reflexivity|].
  destruct (p (f x)); simpl; by rewrite IH.
Qed.

(** C5. On a frame that has the count column at position [i] and the ten
    inventor-name columns at positions [ps], the vectorised computation gives
    every record the weight max(count field or 0, number of non-null names);
    a count of 3 with 5 names gives 5, a count of 7 with 2 names gives 7. *)
Theorem inventor_count_is_max
  (parse_number : pystr -> option Qc) (df : DataFrame)
  (i : nat) (ps : list nat)
  (Hi : col_pos (columns df) (lit "inventors") = Some i)
  (Hps : mapM (col_pos (columns df)) Step3.inventor_name_cols = Some ps) :
  length ps = 10
  /\ Step3.calculate_inventor_count_vectorized parse_number df
       Step3.inventor_name_cols
     = Some (map (fun r => record_weight parse_number (at_pos i r)
                             (map (fun p => at_pos p r) ps))
                 (rows df))
  /\ (forall names : list cell,
         length (List.filter notna names) = 5 ->
         record_weight parse_number (CNum (Qc_of_Z 3)) names = Qc_of_Z 5)
  /\ (forall names : list cell,
         length (List.filter notna names) = 2 ->
         record_weight parse_number (CNum (Qc_of_Z 7)) names = Qc_of_Z 7).
Proof.
  split; [|split; [|split]].
  - apply length_mapM in Hps. rewrite <- Hps. reflexivity.
  - unfold Step3.calculate_inventor_count_vectorized, series.
    rewrite Hi. cbn [mbind option_bind]. rewrite Hps.
    cbn [mbind option_bind]. f_equal.
    rewrite map_map, zip_with_map_same.
    apply map_ext. intros r. unfold record_weight. f_equal.
    + unfold Step3.fillna, Step3.to_numeric, count_field_value.
      destruct (at_pos i r) as [ | q | s]; simpl; try reflexivity;
        destruct (parse_number s); reflexivity.
    + f_equal. apply filter_map_length.
  - intros names H. unfold record_weight. rewrite H. simpl.
    apply Qc_is_canon. reflexivity.
  - intros names H. unfold record_weight. rewrite H. simpl.
    apply Qc_is_canon. reflexivity.
Qed.

Lemma inventor_count_is_max_witness :
  length (seq 1 10) = 10
  /\ Step3.calculate_inventor_count_vectorized (fun _ => None) two_patents
       Step3.inventor_name_cols
     = Some (map (fun r => record_weight (fun _ => None) (at_pos 0 r)
                             (map (fun p => at_pos p r) (seq 1 10)))
                 (rows two_patents))
  /\ (forall names : list cell,
         length (List.filter notna names) = 5 ->
         record_weight (fun _ => None) (CNum (Qc_of_Z 3)) names = Qc_of_Z 5)
  /\ (forall names : list cell,
         length (List.filter notna names) = 2 ->
         record_weight (fun _ => None) (CNum (Qc_of_Z 7)) names = Qc_of_Z 7).
Proof.
  apply (inventor_count_is_max (fun _ => None) two_patents 0 (seq 1 10));
    reflexivity.
Defined.

(** ** Data frames: columns and cells *)

Lemma col_pos_Some cols c i :
  col_pos cols c = Some i <->
  cols !! i = Some c /\ forall j y, cols !! j = Some y -> j < i -> y <> c.
Proof.
  unfold col_pos. rewrite fmap_Some. split.
  - intros [[i' x] [H ->]]. apply list_find_Some in H as (H1 & -> & H3).
    simpl. split; [assumption|]. intros j y Hj Hlt. exact (H3 j y Hj Hlt).
  - intros [H1 H2]. exists (i, c). split; [|reflexivity].
    apply list_find_Some. repeat split; [assumption|]. exact H2.
Qed.

Lemma col_pos_None cols c : col_pos cols c = None <-> c ∉ cols.
Proof.
  unfold col_pos. rewrite fmap_None, list_find_None, Forall_forall.
  split.
  - intros H Hin. exact (H c Hin eq_refl).
  - intros H x Hx ->. exact (H Hx).
Qed.

Lemma col_pos_lookup cols c i : col_pos cols c = Some i -> cols !! i = Some c.
Proof. intros H. apply col_pos_Some in H. tauto. Qed.

Lemma col_pos_lt cols c i : col_pos cols c = Some i -> i < length cols.
Proof. intros H. apply col_pos_lookup in H. by apply lookup_lt_Some in H. Qed.

Lemma col_pos_inj cols c c' i :
  col_pos cols c = Some i -> col_pos cols c' = Some i -> c = c'.
Proof.
  intros H H'. apply col_pos_lookup in H, H'. congruence.
Qed.

Lemma col_pos_app_l cols more c i :
  col_pos cols c = Some i -> col_pos (cols ++ more) c = Some i.
Proof.
  unfold col_pos. rewrite !fmap_Some. intros [[i' x] [H ->]].
  exists (i', x). split; [|reflexivity]. by apply list_find_app_l.
Qed.

Lemma col_pos_app_r cols more c :
  c ∉ cols -> col_pos (cols ++ more) c = (fun n => n + length cols) <$> col_pos more c.
Proof.
  intros H. apply col_pos_None in H. unfold col_pos in *.
  apply fmap_None in H. rewrite list_find_app_r by assumption.
  destruct (list_find _ more) as [[n x]|]; reflexivity.
Qed.

Lemma col_pos_is_Some cols c : c ∈ cols -> is_Some (col_pos cols c).
Proof.
  intros H. destruct (col_pos cols c) eqn:E; [eauto|].
  apply col_pos_None in E. contradiction.
Qed.

Lemma at_pos_app_nulls i r n : at_pos i (r ++ replicate n CNull) = at_pos i r.
Proof.
  unfold at_pos. destruct (decide (i < length r)) as [Hlt|Hge].
  - by rewrite lookup_app_l.
  - rewrite lookup_app_r by lia. rewrite (lookup_ge_None_2 r) by lia.
    destruct (replicate n CNull !! (i - length r)) eqn:E; [|reflexivity].
    apply lookup_replicate in E as [-> _]. reflexivity.
Qed.

Lemma at_pos_insert_ne i j v r : i <> j -> at_pos j (<[i:=v]> r) = at_pos j r.
Proof. intros H. unfold at_pos. by rewrite list_lookup_insert_ne. Qed.

(** The loop that adds the missing columns: the labels it appends are the
    listed labels the frame lacks, and every row gets as many nulls. *)
Lemma ensure_cols_shape (cs : list pystr) (df : DataFrame) :
  exists added : list pystr,
    columns (fold_left (fun df c => if has_col df c then df
                                    else add_const_col df c CNull) cs df)
      = columns df ++ added
    /\ rows (fold_left (fun df c => if has_col df c then df
                                    else add_const_col df c CNull) cs df)
       = map (fun r => r ++ replicate (length added) CNull) (rows df)
    /\ (forall c, c ∈ added -> c ∈ cs /\ c ∉ columns df)
    /\ (forall c, c ∈ cs -> c ∈ columns df ++ added).
Proof.
  revert df. induction cs as [|c cs IH]; intros df; simpl.
  - exists []. rewrite app_nil_r. split; [reflexivity|]. split.
    { simpl. rewrite <- (map_id (rows df)) at 1. apply map_ext.
      intros r. by rewrite app_nil_r. }
    split; intros c H; by apply elem_of_nil in H.
  - destruct (has_col df c) eqn:Hc; unfold has_col in Hc;
      [apply bool_decide_eq_true in Hc|apply bool_decide_eq_false in Hc].
    + destruct (IH df) as (added & E1 & E2 & H3 & H4).
      exists added. split; [assumption|]. split; [assumption|]. split.
      * intros c' H. destruct (H3 c' H) as [H5 H6]. split; [|assumption].
        apply elem_of_cons. by right.
      * intros c' [->|H]%elem_of_cons; [|by apply H4].
        apply elem_of_app. by left.
    + destruct (IH (add_const_col df c CNull)) as (added & E1 & E2 & H3 & H4).
      exists (c :: added). simpl in E1, E2, H3, H4. split; [|split; [|split]].
      * rewrite E1. by rewrite <- app_assoc.
      * rewrite E2, map_map. apply map_ext. intros r.
        rewrite <- app_assoc. reflexivity.
      * intros c' [->|H]%elem_of_cons.
        -- split; [apply elem_of_cons; by left|assumption].
        -- destruct (H3 c' H) as [H5 H6]. split.
           ++ apply elem_of_cons. by right.
           ++ intros Hin. apply H6. apply elem_of_app. by left.
      * intros c' Hc'.
        apply elem_of_cons in Hc' as [->|Hc'].
        -- apply elem_of_app. right. apply elem_of_cons. by left.
        -- specialize (H4 c' Hc'). rewrite <- app_assoc in H4. exact H4.
Qed.

(** ** Step 4B fills only empty identifier cells *)

Lemma fill_cell_notna cols c v r i :
  notna (at_pos i r) = true ->
  at_pos i (Step4B.fill_cell cols c v r) = at_pos i r.
Proof.
  intros H. unfold Step4B.fill_cell.
  destruct (col_pos cols c) as [j|]; [|reflexivity].
  destruct (isna (at_pos j r)) eqn:E; [|reflexivity].
  destruct (decide (j = i)) as [->|Hne].
  - unfold notna in H. rewrite E in H. discriminate.
  - by apply at_pos_insert_ne.
Qed.

Lemma fill_cell_other cols c v r i :
  col_pos cols c <> Some i ->
  at_pos i (Step4B.fill_cell cols c v r) = at_pos i r.
Proof.
  intros H. unfold Step4B.fill_cell.
  destruct (col_pos cols c) as [j|]; [|reflexivity].
  destruct (isna (at_pos j r)); [|reflexivity].
  apply at_pos_insert_ne. congruence.
Qed.

Lemma fill_cell_length cols c v r :
  length (Step4B.fill_cell cols c v r) = length r.
Proof.
  unfold Step4B.fill_cell. destruct (col_pos cols c); [|reflexivity].
  destruct (isna _); [|reflexivity]. apply length_insert.
Qed.

Lemma mapM_total {A B} (f : A -> option B) (g : A -> B) (l : list A) :
  (forall x, x ∈ l -> f x = Some (g x)) -> mapM f l = Some (map g l).
Proof.
  intros H. apply mapM_Some. induction l as [|x l IH]; simpl; constructor.
  - apply H. apply elem_of_cons. by left.
  - apply IH. intros y Hy. apply H. apply elem_of_cons. by right.
Qed.

Lemma mapM_map_total {A B C} (f : B -> option C) (h : A -> B) (g : A -> C)
  (l : list A) :
  (forall x, x ∈ l -> f (h x) = Some (g x)) ->
  mapM f (map h l) = Some (map g l).
Proof.
  intros H. apply mapM_Some. induction l as [|x l IH]; simpl; constructor.
  - apply H. apply elem_of_cons. by left.
  - apply IH. intros y Hy. apply H. apply elem_of_cons. by right.
Qed.

(** C10. The fill step of step 4B, on a main table that has the column
    acquiror_name: it returns a table with the same number of rows, whose
    columns are those of the main table followed by the identifier columns
    that were missing; in every row an identifier cell that was non-null
    keeps its value, every cell outside the four identifier columns keeps its
    value, and a row whose acquiror_name is not a key of the verified mapping
    is the input row (followed by one null for each column that had to be
    created). *)
Theorem fill_ids_frame (df_main : DataFrame) (m : gmap cell Step4B.ids)
  (a : nat)
  (Hkey : col_pos (columns df_main) (lit "acquiror_name") = Some a) :
  exists (df_final : DataFrame) (added : list pystr),
    Step4B.fill_ids df_main m = Some df_final
    /\ length (rows df_final) = length (rows df_main)
    /\ columns df_final = columns df_main ++ added
    /\ (forall c, c ∈ added -> c ∈ Step4B.id_cols /\ c ∉ columns df_main)
    /\ forall (k : nat) (r : list cell),
        rows df_main !! k = Some r ->
        exists r' : list cell,
          rows df_final !! k = Some r'
          /\ length r' = length r + length added
          /\ (forall c i, c ∈ Step4B.id_cols ->
                col_pos (columns df_main) c = Some i ->
                notna (at_pos i r) = true ->
                row_get (columns df_final) r' c = Some (at_pos i r))
          /\ (forall c, c ∉ Step4B.id_cols ->
                row_get (columns df_final) r' c
                = row_get (columns df_main) r c)
          /\ (m !! at_pos a r = None ->
                r' = r ++ replicate (length added) CNull).
Proof.
  unfold Step4B.fill_ids, Step4B.ensure_id_cols.
  destruct (ensure_cols_shape Step4B.id_cols df_main)
    as (added & Ecols & Erows & Hadded & Hall).
  set (df0 := fold_left _ Step4B.id_cols df_main) in *.
  set (cols := columns df_main ++ added) in *.
  pose (fills := fun (i : Step4B.ids) (r : list cell) =>
    Step4B.fill_cell cols (lit "compustat_name") (Step4B.compustat_name i)
      (Step4B.fill_cell cols (lit "cik") (Step4B.cik i)
         (Step4B.fill_cell cols (lit "cusip") (Step4B.cusip i)
            (Step4B.fill_cell cols (lit "gvkey") (Step4B.gvkey i) r)))).
  pose (g := fun r : list cell =>
    match m !! at_pos a r with Some i => fills i r | None => r end).
  assert (Hkey' : col_pos cols (lit "acquiror_name") = Some a)
    by (by apply col_pos_app_l).
  assert (Hfill : forall r, Step4B.fill_row m cols r = Some (g r)).
  { intros r. unfold Step4B.fill_row, row_get. rewrite Hkey'. simpl.
    unfold g. destruct (m !! at_pos a r); reflexivity. }
  assert (Hnotna : forall i0 r i, notna (at_pos i r) = true ->
                     at_pos i (fills i0 r) = at_pos i r).
  { intros i0 r i H. unfold fills.
    set (r1 := Step4B.fill_cell cols (lit "gvkey") _ r).
    set (r2 := Step4B.fill_cell cols (lit "cusip") _ r1).
    set (r3 := Step4B.fill_cell cols (lit "cik") _ r2).
    assert (E1 : at_pos i r1 = at_pos i r) by (by apply fill_cell_notna).
    assert (E2 : at_pos i r2 = at_pos i r).
    { unfold r2. rewrite fill_cell_notna; [exact E1|by rewrite E1]. }
    assert (E3 : at_pos i r3 = at_pos i r).
    { unfold r3. rewrite fill_cell_notna; [exact E2|by rewrite E2]. }
    rewrite fill_cell_notna; [exact E3|by rewrite E3]. }
  assert (Hother : forall i0 r i c, col_pos cols c = Some i ->
                     c ∉ Step4B.id_cols ->
                     at_pos i (fills i0 r) = at_pos i r).
  { intros i0 r i c Hc Hnot. unfold fills.
    rewrite !fill_cell_other; try reflexivity;
      intros Hc'; apply Hnot; rewrite (col_pos_inj _ _ _ _ Hc Hc');
      unfold Step4B.id_cols; repeat constructor. }
  exists (mkDF cols (map g (rows df0))), added.
  subst cols.
  split; [|split; [|split; [|split]]].
  - rewrite Ecols. rewrite (mapM_total _ g); [reflexivity|].
    intros; apply Hfill.
  - simpl. rewrite Erows, !length_map. reflexivity.
  - reflexivity.
  - exact Hadded.
  - intros k r Hk. simpl. rewrite Erows, map_map.
    exists (g (r ++ replicate (length added) CNull)).
    split; [by rewrite list_lookup_fmap, Hk|].
    assert (Ha : at_pos a (r ++ replicate (length added) CNull) = at_pos a r)
      by apply at_pos_app_nulls.
    split; [|split; [|split]].
    + unfold g. destruct (m !! _).
      * unfold fills. rewrite !fill_cell_length, length_app, length_replicate.
        reflexivity.
      * by rewrite length_app, length_replicate.
    + intros c i Hc Hi Hv. unfold row_get.
      rewrite (col_pos_app_l _ added _ _ Hi). simpl. f_equal.
      unfold g. destruct (m !! _).
      * rewrite Hnotna; rewrite at_pos_app_nulls; [reflexivity|assumption].
      * apply at_pos_app_nulls.
    + intros c Hc. unfold row_get.
      destruct (col_pos (columns df_main) c) as [i|] eqn:Ei.
      * rewrite (col_pos_app_l _ added _ _ Ei). simpl. f_equal.
        unfold g. destruct (m !! _).
        -- rewrite (Hother _ _ i c); [apply at_pos_app_nulls| |assumption].
           by apply col_pos_app_l.
        -- apply at_pos_app_nulls.
      * assert (Hn : col_pos (columns df_main ++ added) c = None).
        { apply col_pos_None. apply col_pos_None in Ei.
          rewrite elem_of_app. intros [H|H]; [by apply Ei|].
          apply Hadded in H as [H _]. by apply Hc. }
        rewrite Hn. reflexivity.
    + intros Hm. unfold g. rewrite Ha, Hm. reflexivity.
Qed.

Lemma fill_ids_frame_witness :
  exists (df_final : DataFrame) (added : list pystr),
    Step4B.fill_ids
      (mkDF [lit "acquiror_name"; lit "gvkey"]
            [[CStr (lit "A"); CNull]; [CStr (lit "B"); CStr (lit "001")]])
      {[CStr (lit "A") :=
          Step4B.mkIds (CStr (lit "007")) CNull CNull (CStr (lit "A CORP"))]}
    = Some df_final
    /\ length (rows df_final) = 2
    /\ columns df_final = [lit "acquiror_name"; lit "gvkey"] ++ added.
Proof.
  destruct (fill_ids_frame
              (mkDF [lit "acquiror_name"; lit "gvkey"]
                    [[CStr (lit "A"); CNull]; [CStr (lit "B"); CStr (lit "001")]])
              {[CStr (lit "A") :=
                  Step4B.mkIds (CStr (lit "007")) CNull CNull
                               (CStr (lit "A CORP"))]}
              0 eq_refl) as (df_final & added & H1 & H2 & H3 & _).
  exists df_final, added. repeat split; assumption.
Defined.

(** ** Tiered matching *)

Lemma Qc_leb_le (a b : Qc) : Qc_leb a b = true <-> (a <= b)%Qc.
Proof.
  unfold Qc_leb, Qcle, Qccompare. rewrite Qle_alt.
  destruct (this a ?= this b)%Q; split; intros H; congruence.
Qed.

Lemma strict_fold (set : gset pystr) (tier_name : pystr)
  (df : list Matching.summary_row) acc :
  fold_left (Matching.strict_step set tier_name) df acc
  = (acc.1 ++ flat_map (fun row =>
                 if bool_decide (Matching.clean_name row ∈ set)
                 then [Matching.mkCandidate (Matching.assignee row)
                         (Matching.clean_name row) (Matching.clean_name row)
                         Matching.Strict Matching.hundred tier_name]
                 else []) df,
     acc.2 ++ List.filter
                (fun row => negb (bool_decide (Matching.clean_name row ∈ set)))
                df).
Proof.
  revert acc. induction df as [|row df IH]; intros [s u]; simpl.
  - by rewrite !app_nil_r.
  - rewrite IH. unfold Matching.strict_step. simpl.
    case_bool_decide; simpl; by rewrite <- ?app_assoc.
Qed.

Lemma fold_app_flat_map {A B} (f : A -> list B) (l : list A) (acc : list B) :
  fold_left (fun acc x => acc ++ f x) l acc = acc ++ flat_map f l.
Proof.
  revert acc. induction l as [|x l IH]; intros acc; simpl.
  - by rewrite app_nil_r.
  - rewrite IH. by rewrite <- app_assoc.
Qed.

Lemma fold_app_concat {B} (ls : list (list B)) (acc : list B) :
  fold_left (fun acc r => acc ++ r) ls acc = acc ++ concat ls.
Proof.
  revert acc. induction ls as [|x l IH]; intros acc; simpl.
  - by rewrite app_nil_r.
  - rewrite IH. by rewrite <- app_assoc.
Qed.

Lemma chunks_by_concat {A} (sizes : list nat) (l : list A) :
  length l <= sum_list sizes -> concat (Matching.chunks_by sizes l) = l.
Proof.
  revert l. induction sizes as [|k sizes IH]; intros l H; simpl in *.
  - destruct l; [reflexivity|simpl in H; lia].
  - rewrite IH; [apply take_drop|]. rewrite length_drop. lia.
Qed.

Lemma sum_list_app_split (a b : list nat) :
  sum_list (a ++ b) = sum_list a + sum_list b.
Proof. induction a as [|x a IH]; simpl; [reflexivity|]. rewrite IH. lia. Qed.

Lemma array_split_concat {A} (l : list A) (n : nat) :
  0 < n ->
  exists chunks, Matching.array_split l n = Some chunks /\ concat chunks = l.
Proof.
  intros Hn. unfold Matching.array_split.
  destruct (n =? 0) eqn:E; [apply Nat.eqb_eq in E; lia|].
  eexists. split; [reflexivity|]. apply chunks_by_concat.
  rewrite sum_list_app_split, !sum_list_replicate.
  pose proof (Nat.div_mod_eq (length l) n) as Hdm.
  pose proof (Nat.mod_upper_bound (length l) n ltac:(lia)) as Hlt.
  nia.
Qed.

Section ExtractOne.

Variable token_set_ratio : pystr -> pystr -> Qc.
Hypothesis ratio_le_100 :
  forall q c, (token_set_ratio q c <= Matching.hundred)%Qc.

Lemma scorer_le_100 cutoff q c :
  (Matching.scorer token_set_ratio cutoff q c <= Matching.hundred)%Qc.
Proof.
  unfold Matching.scorer. destruct (Qc_leb _ _); [apply ratio_le_100|].
  apply Qc_leb_le. reflexivity.
Qed.

(** The result of the search is a listed choice whose score lies between the
    cutoff and 100. *)
Lemma extractOne_from_ok (q : pystr) (L : list pystr) (t : Qc) :
  forall choices key cutoff result,
    (forall c, c ∈ choices -> c ∈ L) ->
    (t <= cutoff)%Qc ->
    (forall m s i, result = Some (m, s, i) ->
       m ∈ L /\ (t <= s)%Qc /\ (s <= Matching.hundred)%Qc) ->
    forall m s i,
      Matching.extractOne_from token_set_ratio q choices key cutoff result
      = Some (m, s, i) ->
      m ∈ L /\ (t <= s)%Qc /\ (s <= Matching.hundred)%Qc.
Proof.
  induction choices as [|choice rest IH]; intros key cutoff result HL Ht Hres;
    simpl.
  - exact Hres.
  - set (score := Matching.scorer token_set_ratio cutoff q choice).
    assert (Hrest : forall c, c ∈ rest -> c ∈ L).
    { intros c Hc. apply HL. apply elem_of_cons. by right. }
    destruct (Qc_leb cutoff score) eqn:Ecut; simpl.
    + assert (Hnew : forall m s i, Some (choice, score, key) = Some (m, s, i) ->
                m ∈ L /\ (t <= s)%Qc /\ (s <= Matching.hundred)%Qc).
      { intros m s i [= <- <- <-]. split; [|split].
        - apply HL. apply elem_of_cons. by left.
        - apply Qc_leb_le in Ecut. by apply Qcle_trans with cutoff.
        - apply scorer_le_100. }
      assert (Ht' : (t <= score)%Qc).
      { apply Qc_leb_le in Ecut. by apply Qcle_trans with cutoff. }
      destruct result as [[[m0 best] i0]|]; simpl.
      * destruct (Qc_leb score best); simpl.
        -- apply IH; assumption.
        -- case_bool_decide; [exact Hnew|]. apply IH; assumption.
      * case_bool_decide; [exact Hnew|]. apply IH; assumption.
    + apply IH; assumption.
Qed.

Lemma extractOne_ok (q : pystr) (L : list pystr) (t : Qc) m s i :
  Matching.extractOne token_set_ratio q L t = Some (m, s, i) ->
  m ∈ L /\ (t <= s)%Qc /\ (s <= Matching.hundred)%Qc.
Proof.
  unfold Matching.extractOne. apply extractOne_from_ok.
  - auto.
  - apply Qcle_refl.
  - intros ? ? ? [=].
Qed.

End ExtractOne.

Lemma outcomes_strict
  (token_set_ratio : pystr -> pystr -> Qc)
  (acquiror_clean_set : gset pystr) (acquiror_clean_list : list pystr)
  (tier_name : pystr) (fuzzy_threshold : option Qc)
  (df_target : list Matching.summary_row) :
  flat_map strict_of
    (map (outcome_of token_set_ratio acquiror_clean_set acquiror_clean_list
            tier_name fuzzy_threshold) df_target)
  = flat_map (fun row =>
       if bool_decide (Matching.clean_name row ∈ acquiror_clean_set)
       then [Matching.mkCandidate (Matching.assignee row)
               (Matching.clean_name row) (Matching.clean_name row)
               Matching.Strict Matching.hundred tier_name]
       else []) df_target.
Proof.
  induction df_target as [|row df IH]; simpl; [reflexivity|].
  rewrite IH. f_equal. unfold outcome_of.
  case_bool_decide; [reflexivity|].
  destruct fuzzy_threshold as [t|]; [|reflexivity].
  destruct (Matching.extractOne _ _ _ _) as [[[? ?] ?]|]; reflexivity.
Qed.

Lemma outcomes_fuzzy
  (token_set_ratio : pystr -> pystr -> Qc)
  (acquiror_clean_set : gset pystr) (acquiror_clean_list : list pystr)
  (tier_name : pystr) (fuzzy_threshold : option Qc)
  (df_target : list Matching.summary_row) :
  flat_map fuzzy_of
    (map (outcome_of token_set_ratio acquiror_clean_set acquiror_clean_list
            tier_name fuzzy_threshold) df_target)
  = match fuzzy_threshold with
    | Some t =>
        flat_map (Matching.fuzzy_candidate token_set_ratio
                    acquiror_clean_list t tier_name)
          (List.filter
             (fun row => negb (bool_decide
                (Matching.clean_name row ∈ acquiror_clean_set)))
             df_target)
    | None => []
    end.
Proof.
  induction df_target as [|row df IH]; simpl.
  - destruct fuzzy_threshold; reflexivity.
  - rewrite IH. unfold outcome_of at 1.
    case_bool_decide; simpl.
    + destruct fuzzy_threshold; reflexivity.
    + destruct fuzzy_threshold as [t|]; [|reflexivity]. simpl.
      unfold Matching.fuzzy_candidate at 2.
      destruct (Matching.extractOne _ _ _ _) as [[[? ?] ?]|]; reflexivity.
Qed.

(** X24.  A tier run of [perform_matching], on a host with at least two CPUs
    (so that the worker pool of the parallel branch is not empty) and with a
    scorer that never exceeds 100, returns, and gives every input record
    exactly one outcome: there is one outcome per record, in order; the
    strict and fuzzy results are exactly the candidates of the strict and
    fuzzy outcomes, so a record emits at most one candidate.  A record whose
    cleaned name is in the registry's set is a strict hit whose matched name
    is its own cleaned name, with score 100 (in particular a record whose
    cleaned name is normalize(C) for a registry name C); a fuzzy hit has a
    listed name and a score between the tier's threshold and 100; otherwise
    there is no match. *)
Theorem perform_matching_outcomes
  (token_set_ratio : pystr -> pystr -> Qc) (cpu_count : nat)
  (acquiror_clean_set : gset pystr) (acquiror_clean_list : list pystr)
  (Hratio : forall q c, (token_set_ratio q c <= Matching.hundred)%Qc)
  (Hcpu : 2 <= cpu_count)
  (df_target : list Matching.summary_row) (tier_name : pystr)
  (fuzzy_threshold : option Qc) (use_parallel : bool) :
  exists outcomes : list outcome,
    Matching.perform_matching token_set_ratio cpu_count acquiror_clean_set
      acquiror_clean_list df_target tier_name fuzzy_threshold use_parallel
    = Some (flat_map strict_of outcomes, flat_map fuzzy_of outcomes)
    /\ Forall2 (outcome_ok acquiror_clean_set acquiror_clean_list tier_name
                           fuzzy_threshold)
               df_target outcomes
    /\ (forall (C : cell) (row : Matching.summary_row),
          row ∈ df_target ->
          Matching.clean_name row = Step1.clean_company_name C ->
          Step1.clean_company_name C ∈ acquiror_clean_set ->
          Matching.mkCandidate (Matching.assignee row)
            (Step1.clean_company_name C) (Step1.clean_company_name C)
            Matching.Strict Matching.hundred tier_name
          ∈ flat_map strict_of outcomes).
Proof.
  set (cls := outcome_of token_set_ratio acquiror_clean_set
                acquiror_clean_list tier_name fuzzy_threshold).
  exists (map cls df_target).
  pose proof (outcomes_strict token_set_ratio acquiror_clean_set
                acquiror_clean_list tier_name fuzzy_threshold df_target)
    as Hstrict.
  pose proof (outcomes_fuzzy token_set_ratio acquiror_clean_set
                acquiror_clean_list tier_name fuzzy_threshold df_target)
    as Hfuzzy.
  fold cls in Hstrict, Hfuzzy.
  split; [|split].
  - rewrite Hstrict, Hfuzzy. unfold Matching.perform_matching.
    rewrite strict_fold. simpl fst. simpl snd. simpl app.
    set (U := List.filter _ df_target).
    destruct fuzzy_threshold as [t|]; [|reflexivity].
    destruct U as [|u U'] eqn:EU; [reflexivity|]. rewrite <- EU.
    destruct (use_parallel && (100 <? length U)).
    + destruct (array_split_concat U (Nat.min (cpu_count - 1) 4))
        as (chunks & Hsplit & Hconcat); [lia|].
      rewrite Hsplit. simpl. f_equal. f_equal.
      rewrite fold_app_concat. simpl. rewrite <- Hconcat.
      clear Hsplit Hconcat EU.
      induction chunks as [|ch chunks IH]; simpl; [reflexivity|].
      rewrite flat_map_app, IH. f_equal.
      unfold Matching.fuzzy_match_batch. by rewrite fold_app_flat_map.
    + f_equal. f_equal. by rewrite fold_app_flat_map.
  - clear Hstrict Hfuzzy.
    induction df_target as [|row df IH]; simpl; constructor; [|exact IH].
    unfold cls, outcome_of, outcome_ok.
    case_bool_decide as Hin; [split; [assumption|reflexivity]|].
    destruct fuzzy_threshold as [t|]; [|assumption].
    destruct (Matching.extractOne _ _ _ _) as [[[m s] i]|] eqn:E;
      [|assumption].
    apply (extractOne_ok token_set_ratio Hratio) in E as (Hm & Hts & Hs).
    split; [assumption|]. exists t. simpl. repeat split; assumption.
  - intros C row Hrow Hclean Hin. rewrite Hstrict.
    apply list_elem_of_In, in_flat_map. exists row.
    split; [by apply list_elem_of_In|].
    rewrite Hclean. rewrite bool_decide_eq_true_2 by assumption.
    simpl. by left.
Qed.

Lemma exact_ratio_le_100 (q c : pystr) :
  (exact_ratio q c <= Matching.hundred)%Qc.
Proof.
  unfold exact_ratio. case_bool_decide; apply Qc_leb_le; reflexivity.
Qed.

Lemma perform_matching_outcomes_witness :
  exists outcomes : list outcome,
    Matching.perform_matching exact_ratio 2 {[lit "ACME"]} [lit "ACME"]
      example_summary (lit "Tier 1") (Some (Qc_of_Z 90)) true
    = Some (flat_map strict_of outcomes, flat_map fuzzy_of outcomes)
    /\ Forall2 (outcome_ok {[lit "ACME"]} [lit "ACME"] (lit "Tier 1")
                           (Some (Qc_of_Z 90)))
               example_summary outcomes.
Proof.
  destruct (perform_matching_outcomes exact_ratio 2 {[lit "ACME"]}
              [lit "ACME"] exact_ratio_le_100 (le_n 2) example_summary
              (lit "Tier 1") (Some (Qc_of_Z 90)) true)
    as (outcomes & H1 & H2 & _).
  exists outcomes. split; assumption.
Defined.

(** ** Dropping columns and merging *)

Lemma select_app {A} (m1 m2 : list bool) (l1 l2 : list A) :
  length m1 = length l1 ->
  select (m1 ++ m2) (l1 ++ l2) = select m1 l1 ++ select m2 l2.
Proof.
  revert l1. induction m1 as [|b m1 IH]; intros [|x l1] H; simpl in *;
    try discriminate; [reflexivity|].
  injection H as H. rewrite (IH l1 H). by destruct b.
Qed.

Lemma select_map_keep {A B} (p : A -> bool) (cols : list A) (l : list B) :
  Forall (fun c => p c = false) cols -> length l = length cols ->
  select (map (fun c => negb (p c)) cols) l = l.
Proof.
  intros H. revert l. induction H as [|c cols Hc H IH]; intros [|x l] Hl;
    simpl in *; try discriminate; [reflexivity|].
  rewrite Hc. simpl. f_equal. apply IH. by injection Hl.
Qed.

Lemma select_map_drop {A B} (p : A -> bool) (cols : list A) (l : list B) :
  Forall (fun c => p c = true) cols ->
  select (map (fun c => negb (p c)) cols) l = [].
Proof.
  intros H. revert l. induction H as [|c cols Hc H IH]; intros [|x l];
    simpl in *; try reflexivity.
  rewrite Hc. simpl. apply IH.
Qed.

Lemma select_labels (p : pystr -> bool) (cols : list pystr) :
  Forall (fun c => p c = false)
         (select (map (fun c => negb (p c)) cols) cols).
Proof.
  induction cols as [|c cols IH]; simpl; [constructor|].
  destruct (p c) eqn:E; simpl; [assumption|]. by constructor.
Qed.

Lemma select_length {A B} (p : A -> bool) (cols : list A) (l : list B) :
  length l = length cols ->
  length (select (map (fun c => negb (p c)) cols) l)
  = length (select (map (fun c => negb (p c)) cols) cols).
Proof.
  revert l. induction cols as [|c cols IH]; intros [|x l] H; simpl in *;
    try discriminate; [reflexivity|].
  injection H as H. destruct (p c); simpl; rewrite (IH l H); reflexivity.
Qed.

Lemma select_elem (p : pystr -> bool) (cols : list pystr) (c : pystr) :
  c ∈ cols -> p c = false -> c ∈ select (map (fun c => negb (p c)) cols) cols.
Proof.
  induction cols as [|d cols IH]; intros Hin Hp; simpl.
  - by apply elem_of_nil in Hin.
  - apply elem_of_cons in Hin as [->|Hin].
    + rewrite Hp. simpl. apply elem_of_cons. by left.
    + destruct (p d); simpl; [by apply IH|].
      apply elem_of_cons. right. by apply IH.
Qed.

Lemma drop_cols_wf (p : pystr -> bool) (df : DataFrame) :
  wf_frame df -> wf_frame (drop_cols p df).
Proof.
  unfold wf_frame, drop_cols. simpl. intros H.
  apply Forall_forall. intros r Hr.
  apply list_elem_of_In, in_map_iff in Hr as (r0 & <- & Hr0).
  apply select_length. rewrite Forall_forall in H. apply H.
  by apply list_elem_of_In.
Qed.

(** Dropping the columns selected by [p] from a frame whose columns are
    unselected ones followed by selected ones gives back the first part. *)
Lemma drop_cols_extended (p : pystr -> bool) (cm cx : list pystr)
  (rs : list (list cell)) (g : list cell -> list cell) :
  Forall (fun c => p c = false) cm ->
  Forall (fun c => p c = true) cx ->
  Forall (fun r => length r = length cm) rs ->
  drop_cols p (mkDF (cm ++ cx) (map (fun l => l ++ g l) rs)) = mkDF cm rs.
Proof.
  intros Hm Hx Hrs. unfold drop_cols. simpl. rewrite map_app.
  f_equal.
  - rewrite select_app by (by rewrite length_map).
    rewrite select_map_keep by done. rewrite select_map_drop by done.
    apply app_nil_r.
  - rewrite map_map. rewrite <- (map_id rs) at 2.
    apply Forall_fmap_ext_1. eapply Forall_impl; [exact Hrs|].
    intros l Hl. simpl.
    rewrite select_app by (by rewrite length_map).
    rewrite select_map_keep by done. rewrite select_map_drop by done.
    apply app_nil_r.
Qed.

Lemma filter_find_unique {A} (f : A -> cell) (k : cell) (l : list A) :
  NoDup (map f l) ->
  List.filter (fun r => bool_decide (f r = k)) l
  = match List.find (fun r => bool_decide (f r = k)) l with
    | Some r => [r]
    | None => []
    end.
Proof.
  induction l as [|x l IH]; intros Hnd; simpl; [reflexivity|].
  apply NoDup_cons in Hnd as [Hx Hnd].
  case_bool_decide as E.
  - f_equal. clear IH. induction l as [|y l IHl]; simpl; [reflexivity|].
    rewrite bool_decide_eq_false_2.
    + apply IHl.
      * intros H. apply Hx. simpl. apply elem_of_cons. by right.
      * by apply NoDup_cons in Hnd as [_ ?].
    + intros Hy. apply Hx. simpl. apply elem_of_cons. left. congruence.
  - by apply IH.
Qed.

(** A left merge with a right frame whose keys are distinct and whose labels
    do not clash with the left ones: every left row is extended by its
    right part, and no label is renamed. *)
Lemma merge_left_unique (left right : DataFrame) (key : pystr) (i j : nat) :
  col_pos (columns left) key = Some i ->
  col_pos (columns right) key = Some j ->
  (forall c, c ∈ columns left -> c ∉ delete j (columns right)) ->
  NoDup (map (at_pos j) (rows right)) ->
  merge_left left right key
  = Some (mkDF (columns left ++ delete j (columns right))
               (map (fun l => l ++ right_part right j (at_pos i l))
                    (rows left))).
Proof.
  intros Hi Hj Hdisj Hnd. unfold merge_left. rewrite Hi, Hj. simpl.
  f_equal. f_equal.
  - f_equal.
    + rewrite <- (map_id (columns left)) at 2.
      apply Forall_fmap_ext_1, Forall_forall. intros c Hc.
      rewrite (bool_decide_eq_false_2 (c ∈ _)) by (by apply Hdisj).
      by rewrite andb_false_r.
    + rewrite <- (map_id (delete j (columns right))) at 2.
      apply Forall_fmap_ext_1, Forall_forall. intros c Hc.
      rewrite bool_decide_eq_false_2; [reflexivity|].
      intros Hl. by apply (Hdisj c Hl).
  - induction (rows left) as [|l ls IH]; simpl; [reflexivity|].
    rewrite IH. f_equal.
    rewrite (filter_find_unique (at_pos j) (at_pos i l)) by assumption.
    unfold right_part.
    destruct (List.find _ (rows right)); reflexivity.
Qed.

(** ** The labels of the aggregation *)

Lemma uint_digits (d : Decimal.uint) :
  Forall (fun c => is_digit c = true) (lit (NilEmpty.string_of_uint d)).
Proof.
  unfold lit. induction d; simpl; constructor; try assumption; reflexivity.
Qed.

Lemma int_str_chars (z : Z) :
  Forall (fun c => is_digit c = true \/ c = "-"%char) (int_str z).
Proof.
  assert (Hu : forall d, Forall (fun c => is_digit c = true \/ c = "-"%char)
                           (lit (NilZero.string_of_uint d))).
  { intros d. unfold NilZero.string_of_uint.
    destruct d; try (eapply Forall_impl; [apply uint_digits|];
                     intros c Hc; by left).
    constructor; [by left|constructor]. }
  unfold int_str. destruct (Z.to_int z) as [d|d]; simpl.
  - apply Hu.
  - constructor; [by right|]. apply Hu.
Qed.

Lemma py_contains_cons (needle : pystr) (c : ascii) (s : pystr) :
  py_contains needle (c :: s)
  = py_startswith needle (c :: s) || py_contains needle s.
Proof. reflexivity. Qed.

Lemma py_contains_name_digits (s : pystr) :
  Forall (fun c => is_digit c = true \/ c = "-"%char) s ->
  py_contains (lit "name") s = false.
Proof.
  induction 1 as [|c s Hc H IH]; [reflexivity|].
  rewrite py_contains_cons, IH, orb_false_r.
  unfold lit. cbn [list_ascii_of_string py_startswith].
  destruct (Ascii.eqb_spec "n" c) as [<-|Hne]; [|reflexivity].
  destruct Hc as [Hc|Hc]; discriminate.
Qed.

Lemma stat_col_patent (y : Z) : Step3.stat_col (Step3.patent_col y) = true.
Proof.
  unfold Step3.stat_col, Step3.old_col, Step3.patent_col.
  pose proof (py_contains_name_digits _ (int_str_chars y)) as H.
  simpl. simpl in H. rewrite H. reflexivity.
Qed.

Lemma stat_col_patent_inventor (y : Z) :
  Step3.stat_col (Step3.patent_inventor_col y) = true.
Proof.
  unfold Step3.stat_col, Step3.old_col, Step3.patent_inventor_col.
  pose proof (py_contains_name_digits _ (int_str_chars y)) as H.
  simpl. simpl in H. rewrite H.
  destruct (int_str y) as [|c1 [|c2 [|c3 [|c4 s]]]]; reflexivity.
Qed.

Lemma stat_col_old (c : pystr) : Step3.stat_col c = true -> Step3.old_col c = true.
Proof. unfold Step3.stat_col. by intros [? _]%andb_true_iff. Qed.

Lemma name_col_first :
  Step3.old_col (lit "patent_name") = true
  /\ Step3.stat_col (lit "patent_name") = false.
Proof. split; reflexivity. Qed.

Lemma name_col_next (s : pystr) :
  Step3.old_col (lit "patent_name_" ++ s) = true
  /\ Step3.stat_col (lit "patent_name_" ++ s) = false.
Proof.
  split.
  - reflexivity.
  - unfold Step3.stat_col. apply andb_false_iff. right.
    apply negb_false_iff. reflexivity.
Qed.

(** ** The statistics and alias tables *)

Lemma insert_by_perm {A} (le : A -> A -> bool) (x : A) (l : list A) :
  insert_by le x l ≡ₚ x :: l.
Proof.
  induction l as [|y l IH]; simpl; [reflexivity|].
  destruct (le x y); [reflexivity|]. rewrite IH. apply Permutation_swap.
Qed.

Lemma sort_by_perm {A} (le : A -> A -> bool) (l : list A) : sort_by le l ≡ₚ l.
Proof.
  induction l as [|x l IH]; simpl; [reflexivity|].
  unfold sort_by in *. simpl. rewrite insert_by_perm. by rewrite IH.
Qed.

Lemma sorted_unique_NoDup {A} `{EqDecision A} (le : A -> A -> bool)
  (l : list A) : NoDup (sorted_unique le l).
Proof.
  unfold sorted_unique. rewrite sort_by_perm. apply NoDup_remove_dups.
Qed.

Lemma sorted_unique_elem {A} `{EqDecision A} (le : A -> A -> bool)
  (l : list A) (x : A) : x ∈ sorted_unique le l <-> x ∈ l.
Proof.
  unfold sorted_unique. rewrite sort_by_perm. apply elem_of_remove_dups.
Qed.

Lemma find_map_key {A} (f : A -> list cell) (key : A -> cell) (k : cell)
  (l : list A) :
  (forall x, at_pos 0 (f x) = key x) ->
  List.find (fun r => bool_decide (at_pos 0 r = k)) (map f l)
  = f <$> List.find (fun x => bool_decide (key x = k)) l.
Proof.
  intros Hkey. induction l as [|x l IH]; simpl; [reflexivity|].
  rewrite Hkey. case_bool_decide; [reflexivity|]. apply IH.
Qed.

Lemma find_none_not_elem {A} (key : A -> cell) (k : cell) (l : list A) :
  k ∉ map key l ->
  List.find (fun x => bool_decide (key x = k)) l = None.
Proof.
  induction l as [|x l IH]; intros H; simpl; [reflexivity|].
  rewrite bool_decide_eq_false_2.
  - apply IH. intros Hin. apply H. simpl. apply elem_of_cons. by right.
  - intros E. apply H. simpl. apply elem_of_cons. by left.
Qed.

Lemma foldr_max_ge (l : list nat) (n : nat) : n ∈ l -> n <= foldr Nat.max 0 l.
Proof.
  induction l as [|x l IH]; intros H; simpl.
  - by apply elem_of_nil in H.
  - apply elem_of_cons in H as [->|H]; [lia|]. specialize (IH H). lia.
Qed.

(** The cut of the alias table by [iloc] removes nothing: the table has as
    many alias columns as the longest list has entries, and every row keeps
    its list, padded to that width. *)
Lemma names_of_uncut (set_to_list : list cell -> list cell)
  (ms : list Step3.matched_row) :
  Step3.names_of set_to_list ms
  = let max_len :=
      foldr Nat.max 0
        (map length (map (Step3.aliases set_to_list ms) (Step3.entities ms))) in
    mkDF (lit "acquiror_name"
            :: take max_len
                 (lit "patent_name"
                    :: map (fun i => lit "patent_name_" ++ int_str (Z.of_nat i))
                           (seq 1 (max_len - 1))))
         (map (fun acq =>
                 CStr acq :: Step3.pad max_len (Step3.aliases set_to_list ms acq))
              (Step3.entities ms)).
Proof.
  unfold Step3.names_of. cbv zeta.
  set (max_len := foldr Nat.max 0 _).
  set (name_cols := lit "patent_name" :: _).
  assert (Hlen : max_len <= length name_cols).
  { unfold name_cols. cbn [length]. rewrite length_map, length_seq. lia. }
  f_equal.
  - by rewrite Nat.min_l.
  - apply map_ext_in. intros acq Hacq. f_equal.
    apply take_ge. unfold Step3.pad. rewrite length_app, length_replicate.
    assert (length (Step3.aliases set_to_list ms acq) <= max_len); [|lia].
    apply foldr_max_ge. apply list_elem_of_In, in_map_iff.
    exists (Step3.aliases set_to_list ms acq). split; [reflexivity|].
    apply in_map_iff. by exists acq.
Qed.

Section Tables.

Variable set_to_list : list cell -> list cell.
Variable ms : list Step3.matched_row.

Let S := Step3.stats_of ms.
Let N := Step3.names_of set_to_list ms.

Lemma stats_key : col_pos (columns S) (lit "acquiror_name") = Some 0.
Proof. reflexivity. Qed.

Lemma names_key : col_pos (columns N) (lit "acquiror_name") = Some 0.
Proof. reflexivity. Qed.

Lemma stats_keys : map (at_pos 0) (rows S) = map CStr (Step3.entities ms).
Proof. unfold S, Step3.stats_of. simpl. rewrite map_map. reflexivity. Qed.

Lemma names_keys : map (at_pos 0) (rows N) = map CStr (Step3.entities ms).
Proof.
  unfold N. rewrite names_of_uncut. simpl. rewrite map_map. reflexivity.
Qed.

Lemma entity_keys_NoDup : NoDup (map CStr (Step3.entities ms)).
Proof.
  assert (Inj eq eq CStr) by (by intros ? ? [=]).
  apply (NoDup_fmap_2 CStr). apply sorted_unique_NoDup.
Qed.

Lemma stats_labels :
  Forall (fun c => Step3.stat_col c = true) (delete 0 (columns S)).
Proof.
  unfold S, Step3.stats_of. simpl. apply Forall_app. split.
  - apply Forall_forall. intros c Hc.
    apply list_elem_of_In, in_map_iff in Hc as (y & <- & _).
    apply stat_col_patent.
  - apply Forall_forall. intros c Hc.
    apply list_elem_of_In, in_map_iff in Hc as (y & <- & _).
    apply stat_col_patent_inventor.
Qed.

Lemma names_labels :
  Forall (fun c => Step3.old_col c = true /\ Step3.stat_col c = false)
         (delete 0 (columns N)).
Proof.
  unfold N. rewrite names_of_uncut. simpl.
  apply Forall_take. constructor; [apply name_col_first|].
  apply Forall_forall. intros c Hc.
  apply list_elem_of_In, in_map_iff in Hc as (y & <- & _).
  apply name_col_next.
Qed.

Lemma right_part_stats (k : cell) :
  right_part S 0 k
  = match List.find (fun acq => bool_decide (CStr acq = k))
                    (Step3.entities ms) with
    | Some acq =>
        map (Step3.pivot_patent ms acq) (Step3.years ms)
          ++ map (Step3.pivot_inventor ms acq) (Step3.years ms)
    | None => replicate (length (delete 0 (columns S))) CNull
    end.
Proof.
  unfold right_part. unfold S at 1, Step3.stats_of. cbn [rows].
  rewrite (find_map_key _ CStr) by reflexivity.
  destruct (List.find _ _) as [acq|]; reflexivity.
Qed.

(** The cells a row takes from the statistics table: one per metric column,
    numbers or nulls, and all null for a name without matched records. *)
Lemma stats_right_part (k : cell) :
  length (right_part S 0 k) = length (delete 0 (columns S))
  /\ Forall (fun v => is_str v = false) (right_part S 0 k)
  /\ (k ∉ map CStr (Step3.entities ms) ->
      right_part S 0 k = replicate (length (delete 0 (columns S))) CNull).
Proof.
  rewrite right_part_stats.
  split; [|split].
  - destruct (List.find _ _) as [acq|]; simpl.
    + by rewrite !length_app, !length_map.
    + by rewrite length_replicate.
  - destruct (List.find _ _) as [acq|]; simpl.
    + apply Forall_app. split; apply Forall_forall; intros v Hv;
        apply list_elem_of_In, in_map_iff in Hv as (y & <- & _).
      * unfold Step3.pivot_patent. by destruct (Step3.group_of _ _ _).
      * unfold Step3.pivot_inventor. by destruct (Step3.group_of _ _ _).
    + apply Forall_forall. intros v Hv.
      apply elem_of_replicate in Hv as [-> _]. reflexivity.
  - intros Hk. by rewrite find_none_not_elem.
Qed.

Lemma names_right_part (k : cell) :
  length (right_part N 0 k) = length (delete 0 (columns N)).
Proof.
  unfold N. rewrite names_of_uncut. cbv zeta.
  unfold right_part. cbn [rows columns].
  rewrite (find_map_key _ CStr) by reflexivity.
  destruct (List.find _ _) as [acq|] eqn:E; cbn [fmap option_fmap option_map];
    [|by rewrite length_replicate].
  apply find_some in E as [Hin _].
  set (max_len := foldr Nat.max 0 _).
  simpl. rewrite length_take. simpl. rewrite length_map, length_seq.
  unfold Step3.pad. rewrite length_app, length_replicate.
  assert (length (Step3.aliases set_to_list ms acq) <= max_len).
  { apply foldr_max_ge. apply list_elem_of_In, in_map_iff.
    exists (Step3.aliases set_to_list ms acq). split; [reflexivity|].
    apply in_map_iff. exists acq. split; [reflexivity|assumption]. }
  lia.
Qed.

End Tables.

(** ** The merge into the main table *)

Lemma fill_keep (cols : list pystr) (l : list cell) :
  Forall (fun c => Step3.stat_col c = false) cols ->
  length l = length cols ->
  Forall2 (fun (cv : pystr * cell) y =>
             (if Step3.stat_col cv.1 then Step3.fill_int cv.2 else Some cv.2)
             = Some y)
          (zip cols l) l.
Proof.
  intros H. revert l. induction H as [|c cols Hc H IH]; intros [|v l] Hl;
    simpl in *; try discriminate; constructor.
  - simpl. by rewrite Hc.
  - apply IH. by injection Hl.
Qed.

Lemma fill_stats (cols : list pystr) (s : list cell) :
  Forall (fun c => Step3.stat_col c = true) cols ->
  length s = length cols ->
  Forall (fun v => is_str v = false) s ->
  Forall2 (fun (cv : pystr * cell) y =>
             (if Step3.stat_col cv.1 then Step3.fill_int cv.2 else Some cv.2)
             = Some y)
          (zip cols s) (map fill_total s).
Proof.
  intros H. revert s. induction H as [|c cols Hc H IH]; intros [|v s] Hl Hs;
    simpl in *; try discriminate; constructor.
  - simpl. rewrite Hc. apply Forall_cons in Hs as [Hv _].
    by destruct v.
  - apply IH; [by injection Hl|]. by apply Forall_cons in Hs as [_ ?].
Qed.

Lemma fill_row_shape (cm cs cn : list pystr) (l s n : list cell) :
  Forall (fun c => Step3.stat_col c = false) cm ->
  Forall (fun c => Step3.stat_col c = true) cs ->
  Forall (fun c => Step3.stat_col c = false) cn ->
  length l = length cm -> length s = length cs -> length n = length cn ->
  Forall (fun v => is_str v = false) s ->
  Step3.fill_row (cm ++ (cs ++ cn)) (l ++ (s ++ n))
  = Some (l ++ (map fill_total s ++ n)).
Proof.
  intros Hm Hs Hn Ll Ls Ln Hstr. unfold Step3.fill_row.
  apply mapM_Some.
  rewrite zip_with_app by (by symmetry).
  rewrite zip_with_app by (by symmetry).
  apply Forall2_app; [by apply fill_keep|].
  apply Forall2_app; [by apply fill_stats|by apply fill_keep].
Qed.

Lemma at_pos_app_l (i : nat) (l x : list cell) :
  i < length l -> at_pos i (l ++ x) = at_pos i l.
Proof. intros H. unfold at_pos. by rewrite lookup_app_l. Qed.

(** The frame [merge_to_final_outcome] returns for tables made by
    [aggregate_data]: the main table without its old statistics columns,
    each row followed by its zero-filled statistics and by its aliases. *)
Lemma merge_shape (set_to_list : list cell -> list cell)
  (ms : list Step3.matched_row) (df_main : DataFrame) (a : nat) :
  wf_frame df_main ->
  col_pos (columns df_main) (lit "acquiror_name") = Some a ->
  exists a' : nat,
    col_pos (columns (drop_cols Step3.old_col df_main)) (lit "acquiror_name")
    = Some a'
    /\ Step3.merge_to_final_outcome df_main (Step3.stats_of ms)
         (Step3.names_of set_to_list ms)
       = Some (mkDF
                 (columns (drop_cols Step3.old_col df_main)
                    ++ (delete 0 (columns (Step3.stats_of ms))
                          ++ delete 0 (columns (Step3.names_of set_to_list ms))))
                 (map (fun l =>
                         l ++ (map fill_total
                                   (right_part (Step3.stats_of ms) 0 (at_pos a' l))
                                 ++ right_part (Step3.names_of set_to_list ms) 0
                                      (at_pos a' l)))
                      (rows (drop_cols Step3.old_col df_main)))).
Proof.
  intros Hwf Ha.
  set (S := Step3.stats_of ms). set (N := Step3.names_of set_to_list ms).
  set (main' := drop_cols Step3.old_col df_main).
  assert (Hcm : Forall (fun c => Step3.old_col c = false) (columns main'))
    by apply select_labels.
  assert (Hwf' : wf_frame main') by (by apply drop_cols_wf).
  destruct (col_pos (columns main') (lit "acquiror_name")) as [a'|] eqn:Ea'.
  2:{ apply col_pos_None in Ea'. exfalso. apply Ea'.
      apply select_elem; [|reflexivity].
      apply col_pos_lookup in Ha. by apply list_elem_of_lookup_2 in Ha. }
  exists a'. split; [reflexivity|].
  pose proof (stats_labels ms) as HS. fold S in HS.
  pose proof (names_labels set_to_list ms) as HN. fold N in HN.
  unfold Step3.merge_to_final_outcome. fold main' S N.
  rewrite (merge_left_unique main' S _ a' 0); [|assumption|reflexivity| |].
  2:{ intros c Hc Hc'. rewrite Forall_forall in Hcm, HS.
      specialize (Hcm c Hc). specialize (HS c Hc').
      apply stat_col_old in HS. congruence. }
  2:{ unfold S. rewrite stats_keys. apply entity_keys_NoDup. }
  cbn [mbind option_bind].
  rewrite (merge_left_unique _ N _ a' 0); [| |reflexivity| |].
  2:{ simpl. by apply col_pos_app_l. }
  2:{ simpl. intros c Hc Hc'. rewrite Forall_forall in Hcm, HS, HN.
      destruct (HN c Hc') as [Ho Hs].
      apply elem_of_app in Hc as [Hc|Hc].
      - specialize (Hcm c Hc). congruence.
      - specialize (HS c Hc). congruence. }
  2:{ unfold N. rewrite names_keys. apply entity_keys_NoDup. }
  cbn [mbind option_bind columns rows].
  rewrite map_map.
  assert (Hrows : forall l, l ∈ rows main' ->
            Step3.fill_row ((columns main' ++ delete 0 (columns S))
                              ++ delete 0 (columns N))
              ((l ++ right_part S 0 (at_pos a' l))
                 ++ right_part N 0 (at_pos a' (l ++ right_part S 0 (at_pos a' l))))
            = Some (l ++ (map fill_total (right_part S 0 (at_pos a' l))
                            ++ right_part N 0 (at_pos a' l)))).
  { intros l Hl. unfold wf_frame in Hwf'. rewrite Forall_forall in Hwf'.
    specialize (Hwf' l Hl).
    rewrite at_pos_app_l
      by (rewrite Hwf'; by apply col_pos_lt with (lit "acquiror_name")).
    rewrite <- !app_assoc.
    destruct (stats_right_part ms (at_pos a' l)) as (HlenS & HstrS & _).
    apply fill_row_shape; try assumption.
    - eapply Forall_impl; [exact Hcm|]. intros c Hc. simpl in Hc.
      destruct (Step3.stat_col c) eqn:E; [|reflexivity].
      apply stat_col_old in E. congruence.
    - eapply Forall_impl; [exact HN|]. by intros c [_ ?].
    - apply names_right_part. }
  rewrite (mapM_map_total _ _
             (fun l => l ++ (map fill_total (right_part S 0 (at_pos a' l))
                               ++ right_part N 0 (at_pos a' l))))
    by exact Hrows.
  cbn [mbind option_bind]. rewrite <- app_assoc. reflexivity.
Qed.

(** ** Re-running the merge *)

Lemma lit_inj (s t : string) : lit s = lit t -> s = t.
Proof.
  unfold lit. intros H.
  rewrite <- (string_of_list_ascii_of_string s),
          <- (string_of_list_ascii_of_string t).
  by rewrite H.
Qed.

Lemma int_str_inj (y y' : Z) : int_str y = int_str y' -> y = y'.
Proof.
  assert (Hnn : forall z, Z.to_int z <> Decimal.Pos Decimal.Nil
                          /\ Z.to_int z <> Decimal.Neg Decimal.Nil).
  { intros [|p|p]; simpl; split; try discriminate;
      intros [= H]; by apply (DecimalPos.Unsigned.to_uint_nonnil p). }
  intros H. apply lit_inj in H. apply DecimalZ.to_int_inj.
  destruct (Hnn y) as [H1 H2]. destruct (Hnn y') as [H1' H2'].
  pose proof (NilZero.isi _ H1 H2) as E.
  pose proof (NilZero.isi _ H1' H2') as E'.
  rewrite H in E. congruence.
Qed.

Lemma metric_labels_NoDup (ms : list Step3.matched_row) :
  NoDup (delete 0 (columns (Step3.stats_of ms))).
Proof.
  unfold Step3.stats_of. simpl.
  assert (Hy : NoDup (Step3.years ms)) by apply sorted_unique_NoDup.
  apply NoDup_app. split; [|split].
  - apply NoDup_fmap_2; [|assumption].
    intros y y' H. unfold Step3.patent_col in H.
    apply app_inv_head in H. by apply int_str_inj.
  - intros c Hc Hc'.
    apply list_elem_of_In, in_map_iff in Hc as (y & <- & _).
    apply list_elem_of_In, in_map_iff in Hc' as (y' & H & _).
    unfold Step3.patent_col, Step3.patent_inventor_col in H.
    change (lit "patent_inventor_") with (lit "patent_" ++ lit "inventor_") in H.
    rewrite <- app_assoc in H. apply app_inv_head in H.
    pose proof (int_str_chars y) as Hch. rewrite <- H in Hch.
    apply Forall_cons in Hch as [[Hd|Hd] _]; discriminate.
  - apply NoDup_fmap_2; [|assumption].
    intros y y' H. unfold Step3.patent_inventor_col in H.
    apply app_inv_head in H. by apply int_str_inj.
Qed.

Lemma filter_all {A} (p : A -> bool) (l : list A) :
  Forall (fun x => p x = true) l -> List.filter p l = l.
Proof.
  induction 1 as [|x l Hx H IH]; simpl; [reflexivity|].
  rewrite Hx. by rewrite IH.
Qed.

Lemma filter_none {A} (p : A -> bool) (l : list A) :
  Forall (fun x => p x = false) l -> List.filter p l = [].
Proof.
  induction 1 as [|x l Hx H IH]; simpl; [reflexivity|]. by rewrite Hx.
Qed.

Lemma not_old_not_stat (cols : list pystr) :
  Forall (fun c => Step3.old_col c = false) cols ->
  Forall (fun c => Step3.stat_col c = false) cols.
Proof.
  intros H. eapply Forall_impl; [exact H|]. intros c Hc. simpl in Hc.
  destruct (Step3.stat_col c) eqn:E; [|reflexivity].
  apply stat_col_old in E. congruence.
Qed.

Lemma example_aggregate :
  Step3.aggregate_data (fun l => l) example_matched
  = Some (Step3.stats_of example_rows, Step3.names_of (fun l => l) example_rows).
Proof. vm_compute. reflexivity. Qed.


(** ** Records without a dictionary entry *)

Lemma assign_map1 {A} (cols : list pystr) (c : pystr)
  (h : A -> list cell) (g : A -> cell) (l : list A) :
  assign (mkDF cols (map h l)) c (map g l)
  = mkDF (assign_cols cols c)
         (map (fun x => assign_row cols c (g x) (h x)) l).
Proof.
  unfold assign, assign_cols, assign_row. cbn [columns rows].
  destruct (col_pos cols c); by rewrite zip_with_map_same.
Qed.

Lemma col_pos_here (c : pystr) (l : list pystr) : col_pos (c :: l) c = Some 0.
Proof.
  apply col_pos_Some. split; [reflexivity|]. intros j y _ Hlt. lia.
Qed.

Lemma assign_cols_pos (cols : list pystr) (c : pystr) :
  exists j, col_pos (assign_cols cols c) c = Some j.
Proof.
  unfold assign_cols. destruct (col_pos cols c) as [j|] eqn:E; [eauto|].
  apply col_pos_None in E. rewrite (col_pos_app_r _ _ _ E).
  exists (0 + length cols). by rewrite col_pos_here.
Qed.

Lemma assign_cols_keep (cols : list pystr) (c c' : pystr) (k : nat) :
  col_pos cols c' = Some k -> col_pos (assign_cols cols c) c' = Some k.
Proof.
  intros H. unfold assign_cols. destruct (col_pos cols c); [assumption|].
  by apply col_pos_app_l.
Qed.

Lemma assign_row_length_le (cols : list pystr) (c : pystr) (v : cell)
  (r : list cell) :
  length r <= length cols ->
  length (assign_row cols c v r) <= length (assign_cols cols c).
Proof.
  intros H. unfold assign_row, assign_cols.
  destruct (col_pos cols c).
  - by rewrite length_insert.
  - rewrite !length_app. simpl. lia.
Qed.

Lemma assign_row_null (cols : list pystr) (c : pystr) (r : list cell)
  (j : nat) :
  col_pos (assign_cols cols c) c = Some j ->
  length r <= length cols ->
  at_pos j (assign_row cols c CNull r) = CNull.
Proof.
  unfold assign_cols, assign_row. intros Hj Hlen.
  destruct (col_pos cols c) as [j0|] eqn:E.
  - assert (j0 = j) by congruence. subst j0. unfold at_pos.
    destruct (decide (j < length r)) as [Hlt|Hge].
    + by rewrite list_lookup_insert_eq.
    + rewrite list_insert_ge by lia. by rewrite lookup_ge_None_2 by lia.
  - apply col_pos_None in E. rewrite (col_pos_app_r _ _ _ E) in Hj.
    rewrite col_pos_here in Hj.
    assert (j = length cols) by (cbn in Hj; congruence). subst j.
    unfold at_pos.
    destruct (decide (length r = length cols)) as [Heq|Hne].
    + rewrite lookup_app_r by lia. rewrite Heq, Nat.sub_diag. reflexivity.
    + rewrite lookup_ge_None_2; [reflexivity|].
      rewrite length_app. simpl. lia.
Qed.

Lemma filter_map_comm {A B} (p : B -> bool) (h : A -> B) (l : list A) :
  List.filter p (map h l) = map h (List.filter (fun x => p (h x)) l).
Proof.
  induction l as [|x l IH]; simpl; [reflexivity|].
  destruct (p (h x)); simpl; by rewrite IH.
Qed.

(** The first part of [process_patent_data], up to the rows kept by
    [dropna(subset=['Matched_Acquiror'])], row by row. *)
Lemma process_unfold (repr_number : Qc -> pystr)
  (parse_number : pystr -> option Qc) (cols : list pystr)
  (master_dict : gmap pystr pystr) (i : nat) :
  col_pos cols (lit "assignee") = Some i ->
  exists rest : DataFrame -> option DataFrame,
  forall rs : list (list cell),
    Step3.process_patent_data repr_number parse_number (mkDF cols rs)
      master_dict
    = dropna
        (mkDF (assign_cols (assign_cols cols (lit "assignee_stripped"))
                           (lit "Matched_Acquiror"))
              (map (fun r =>
                      assign_row (assign_cols cols (lit "assignee_stripped"))
                        (lit "Matched_Acquiror")
                        (Step3.map_dict master_dict
                           (CStr (py_strip (py_str repr_number (at_pos i r)))))
                        (assign_row cols (lit "assignee_stripped")
                           (CStr (py_strip (py_str repr_number (at_pos i r))))
                           r))
                   rs))
        [lit "Matched_Acquiror"]
      ≫= rest.
Proof.
  intros Hi. eexists. intros rs.
  unfold Step3.process_patent_data, series. cbn [columns rows].
  rewrite Hi. cbn [mbind option_bind].
  rewrite !map_map.
  rewrite <- (map_id rs) at 1.
  rewrite (assign_map1 cols _ (fun r => r)
             (fun r => CStr (py_strip (py_str repr_number (at_pos i r))))).
  rewrite (assign_map1 _ _ _
             (fun r => Step3.map_dict master_dict
                         (CStr (py_strip (py_str repr_number (at_pos i r)))))).
  reflexivity.
Qed.

Lemma assign_columns (df : DataFrame) (c : pystr) (vals : list cell) :
  columns (assign df c vals) = assign_cols (columns df) c.
Proof. unfold assign, assign_cols. by destruct (col_pos (columns df) c). Qed.

Lemma assign_keeps_col (df : DataFrame) (c c' : pystr) (vals : list cell)
  (k : nat) :
  col_pos (columns df) c' = Some k ->
  col_pos (columns (assign df c vals)) c' = Some k.
Proof. intros H. rewrite assign_columns. by apply assign_cols_keep. Qed.

Lemma assign_has_col (df : DataFrame) (c : pystr) (vals : list cell) :
  exists j, col_pos (columns (assign df c vals)) c = Some j.
Proof. rewrite assign_columns. apply assign_cols_pos. Qed.

Lemma series_Some (df : DataFrame) (c : pystr) (i : nat) :
  col_pos (columns df) c = Some i ->
  series df c = Some (map (at_pos i) (rows df)).
Proof. intros H. unfold series. by rewrite H. Qed.

Lemma dropna_one (df : DataFrame) (c : pystr) (j : nat) :
  col_pos (columns df) c = Some j ->
  dropna df [c]
  = Some (mkDF (columns df)
               (List.filter (fun r => forallb (fun i => notna (at_pos i r)) [j])
                            (rows df))).
Proof. intros H. unfold dropna. cbn. rewrite H. reflexivity. Qed.

Lemma is_Some_bind {A B} (x : option A) (K : A -> option B) (a : A) :
  x = Some a -> is_Some (K a) -> is_Some (x ≫= K).
Proof. intros -> H. exact H. Qed.

Lemma calculate_after_ensure (parse_number : pystr -> option Qc)
  (df : DataFrame) (n : nat) :
  col_pos (columns df) (lit "inventors") = Some n ->
  is_Some (Step3.calculate_inventor_count_vectorized parse_number
             (Step3.ensure_cols Step3.inventor_name_cols df)
             Step3.inventor_name_cols).
Proof.
  intros Hn.
  destruct (ensure_cols_shape Step3.inventor_name_cols df)
    as (added & Ecols & Erows & Hadded & Hall).
  unfold Step3.ensure_cols.
  generalize dependent (fold_left
    (fun df c => if has_col df c then df else add_const_col df c CNull)
    Step3.inventor_name_cols df).
  intros df7 Ecols Erows.
  unfold Step3.calculate_inventor_count_vectorized.
  rewrite (series_Some df7 _ n)
    by (rewrite Ecols; by apply col_pos_app_l).
  cbn [mbind option_bind].
  assert (Hps : is_Some (mapM (col_pos (columns df7))
                              Step3.inventor_name_cols)).
  { apply mapM_is_Some. apply Forall_forall. intros c Hc.
    change (is_Some (col_pos (columns df7) c)).
    apply col_pos_is_Some. rewrite Ecols. by apply Hall. }
  destruct Hps as [ps Hps]. rewrite Hps. cbn [mbind option_bind].
  eexists. reflexivity.
Qed.

(** With the columns assignee, application_year and inventors present,
    [process_patent_data] returns a frame. *)
Lemma process_returns (repr_number : Qc -> pystr)
  (parse_number : pystr -> option Qc) (df : DataFrame)
  (master_dict : gmap pystr pystr) (i y n : nat) :
  col_pos (columns df) (lit "assignee") = Some i ->
  col_pos (columns df) (lit "application_year") = Some y ->
  col_pos (columns df) (lit "inventors") = Some n ->
  is_Some (Step3.process_patent_data repr_number parse_number df master_dict).
Proof.
  intros Hi Hy Hn. unfold Step3.process_patent_data.
  eapply is_Some_bind; [by apply series_Some|]. cbv beta.
  set (df1 := assign df (lit "assignee_stripped") _).
  assert (Hy1 : col_pos (columns df1) (lit "application_year") = Some y)
    by (by apply assign_keeps_col).
  assert (Hn1 : col_pos (columns df1) (lit "inventors") = Some n)
    by (by apply assign_keeps_col).
  clearbody df1.
  set (df2 := assign df1 (lit "Matched_Acquiror") _).
  destruct (assign_has_col df1 (lit "Matched_Acquiror")
              (map (Step3.map_dict master_dict)
                   (map (fun v => CStr (py_strip (py_str repr_number v)))
                        (map (at_pos i) (rows df))))) as [j Hj].
  assert (Hy2 : col_pos (columns df2) (lit "application_year") = Some y)
    by (by apply assign_keeps_col).
  assert (Hn2 : col_pos (columns df2) (lit "inventors") = Some n)
    by (by apply assign_keeps_col).
  fold df2 in Hj. clearbody df2.
  eapply is_Some_bind; [by apply dropna_one|]. cbv beta.
  set (df3 := mkDF (columns df2) _).
  assert (Hy3 : col_pos (columns df3) (lit "application_year") = Some y)
    by exact Hy2.
  assert (Hn3 : col_pos (columns df3) (lit "inventors") = Some n)
    by exact Hn2.
  clearbody df3.
  eapply is_Some_bind; [by apply series_Some|]. cbv beta.
  set (df4 := assign df3 (lit "application_year") _).
  assert (Hy4 : col_pos (columns df4) (lit "application_year") = Some y)
    by (by apply assign_keeps_col).
  assert (Hn4 : col_pos (columns df4) (lit "inventors") = Some n)
    by (by apply assign_keeps_col).
  clearbody df4.
  eapply is_Some_bind; [by apply dropna_one|]. cbv beta.
  set (df5 := mkDF (columns df4) _).
  assert (Hy5 : col_pos (columns df5) (lit "application_year") = Some y)
    by exact Hy4.
  assert (Hn5 : col_pos (columns df5) (lit "inventors") = Some n)
    by exact Hn4.
  clearbody df5.
  eapply is_Some_bind; [by apply series_Some|]. cbv beta.
  set (df6 := assign df5 (lit "application_year") _).
  assert (Hn6 : col_pos (columns df6) (lit "inventors") = Some n)
    by (by apply assign_keeps_col).
  clearbody df6.
  destruct (calculate_after_ensure parse_number df6 n Hn6) as [counts Hc].
  eapply is_Some_bind; [exact Hc|]. cbv beta.
  eexists. reflexivity.
Qed.

Lemma fill_total_num (v : cell) :
  is_str v = false ->
  exists q, fill_total v = CNum q /\ (v = CNull -> q = Qc_of_Z 0).
Proof.
  destruct v as [|q|s]; intros H; try discriminate.
  - eexists. split; [reflexivity|]. reflexivity.
  - eexists. split; [reflexivity|]. discriminate.
Qed.

(** Every metric cell of the merged table is a number, and it is 0 in the
    rows whose name has no matched record. *)
Lemma metrics_zero_filled (set_to_list : list cell -> list cell)
  (ms : list Step3.matched_row) (df_main : DataFrame) (a : nat) :
  wf_frame df_main ->
  col_pos (columns df_main) (lit "acquiror_name") = Some a ->
  exists df_final : DataFrame,
    Step3.merge_to_final_outcome df_main (Step3.stats_of ms)
      (Step3.names_of set_to_list ms) = Some df_final
    /\ forall (row : list cell) (p : nat) (label : pystr),
        row ∈ rows df_final ->
        columns df_final !! p = Some label ->
        Step3.stat_col label = true ->
        exists q : Qc,
          row !! p = Some (CNum q)
          /\ forall k : cell,
              row_get (columns df_final) row (lit "acquiror_name") = Some k ->
              k ∉ map CStr (Step3.entities ms) ->
              q = Qc_of_Z 0.
Proof.
  intros Hwf Ha.
  destruct (merge_shape set_to_list ms df_main a Hwf Ha) as (a' & Ha' & HM).
  set (S := Step3.stats_of ms) in *.
  set (N := Step3.names_of set_to_list ms) in *.
  set (main' := drop_cols Step3.old_col df_main) in *.
  eexists. split; [exact HM|]. cbn [columns rows].
  intros row p label Hrow Hp Hstat.
  apply list_elem_of_In, in_map_iff in Hrow as (l & <- & Hl).
  apply list_elem_of_In in Hl.
  assert (Hcm : Forall (fun c => Step3.stat_col c = false) (columns main'))
    by (apply not_old_not_stat, select_labels).
  pose proof (names_labels set_to_list ms) as HN. fold N in HN.
  assert (Hwf' : wf_frame main') by (by apply drop_cols_wf).
  unfold wf_frame in Hwf'. rewrite Forall_forall in Hwf'.
  specialize (Hwf' l Hl).
  destruct (stats_right_part ms (at_pos a' l)) as (HlenS & HstrS & HnullS).
  fold S in HlenS, HstrS, HnullS.
  apply lookup_app_Some in Hp as [Hp|[Hge Hp]].
  { rewrite Forall_forall in Hcm. apply list_elem_of_lookup_2 in Hp.
    specialize (Hcm _ Hp). congruence. }
  apply lookup_app_Some in Hp as [Hp|[Hge2 Hp]].
  2:{ rewrite Forall_forall in HN. apply list_elem_of_lookup_2 in Hp.
      destruct (HN _ Hp) as [_ ?]. congruence. }
  apply lookup_lt_Some in Hp.
  rewrite lookup_app_r by lia. rewrite Hwf'.
  rewrite lookup_app_l by (rewrite length_map; lia).
  rewrite list_lookup_fmap.
  destruct (right_part S 0 (at_pos a' l) !! (p - length (columns main')))
    as [v|] eqn:Ev.
  2:{ apply lookup_ge_None in Ev. lia. }
  assert (Hv : is_str v = false).
  { rewrite Forall_forall in HstrS. apply HstrS.
    by apply list_elem_of_lookup_2 in Ev. }
  destruct (fill_total_num v Hv) as (q & Eq & Hq0).
  exists q. cbn [fmap option_fmap option_map]. rewrite Eq.
  split; [reflexivity|].
  intros k Hk Hnot. apply Hq0.
  unfold row_get in Hk. rewrite (col_pos_app_l _ _ _ _ Ha') in Hk.
  cbn [mbind option_bind] in Hk. injection Hk as <-.
  rewrite at_pos_app_l in Hnot
    by (rewrite Hwf'; by apply col_pos_lt with (lit "acquiror_name")).
  rewrite (HnullS Hnot) in Ev.
  apply lookup_replicate in Ev as [-> _]. reflexivity.
Qed.

Lemma read_matched_names (df : DataFrame) (ms : list Step3.matched_row)
  (a : nat) :
  col_pos (columns df) (lit "Matched_Acquiror") = Some a ->
  Step3.read_matched df = Some ms ->
  map (at_pos a) (rows df) = map (fun m => CStr (Step3.m_acquiror m)) ms.
Proof.
  intros Ha H. unfold Step3.read_matched in H. rewrite Ha in H.
  cbn [mbind option_bind] in H.
  destruct (col_pos (columns df) (lit "application_year")) as [y|];
    [|discriminate].
  destruct (col_pos (columns df) (lit "assignee")) as [n|]; [|discriminate].
  destruct (col_pos (columns df) (lit "final_inventor_count")) as [w|];
    [|discriminate].
  cbn [mbind option_bind] in H. apply mapM_Some in H.
  induction H as [|r m rs ms' Hr H IH]; [reflexivity|].
  cbn [map]. rewrite IH. f_equal.
  destruct (at_pos a r) as [|q|acq]; try discriminate.
  destruct (at_pos y r) as [|yr|]; try discriminate.
  destruct (at_pos w r) as [|wt|]; try discriminate;
    injection Hr as <-; reflexivity.
Qed.


(** ** The regular-expression engine *)

Lemma match_here_le (ic : bool) (re : regex) :
  forall prev s n, match_here ic re prev s = Some n -> n <= length s.
Proof.
  induction re as [|a re IH]; intros prev s n H; simpl in H.
  - injection H as <-. lia.
  - destruct a as [cs|cs|cs|].
    + destruct s as [|c s]; [discriminate|].
      destruct (cset_match ic cs c); [|discriminate].
      destruct (match_here ic re (Some c) s) as [m|] eqn:E; [|discriminate].
      injection H as <-. apply IH in E. simpl. lia.
    + destruct s as [|c s]; [by apply IH in H|].
      destruct (cset_match ic cs c); [|by apply IH in H].
      destruct (match_here ic re (Some c) s) as [m|] eqn:E.
      * injection H as <-. apply IH in E. simpl. lia.
      * by apply IH in H.
    + revert prev n H. induction s as [|c s IHs]; intros prev n H;
        [discriminate|].
      destruct (cset_match ic cs c); [|discriminate].
      match type of H with
      | match ?X with _ => _ end = _ => destruct X as [m|] eqn:E
      end.
      * injection H as <-. apply IHs in E. simpl. lia.
      * destruct (match_here ic re (Some c) s) as [m|] eqn:E';
          [|discriminate].
        injection H as <-. apply IH in E'. simpl. lia.
    + destruct (xorb _ _); [|discriminate]. by apply IH in H.
Qed.

(** A pattern that ends with [\b] ends its match at a word boundary. *)
Lemma match_end_bnd (ic : bool) (re : regex) :
  forall prev s n,
    match_here ic (re ++ [Bnd]) prev s = Some n ->
    xorb (word_before (prev_at prev s n)) (word_after (drop n s)) = true.
Proof.
  induction re as [|a re IH]; intros prev s n H; simpl in H.
  - destruct (xorb _ _) eqn:E; [|discriminate]. injection H as <-. exact E.
  - destruct a as [cs|cs|cs|].
    + destruct s as [|c s]; [discriminate|].
      destruct (cset_match ic cs c); [|discriminate].
      destruct (match_here ic (re ++ [Bnd]) (Some c) s) as [m|] eqn:E;
        [|discriminate].
      injection H as <-. apply IH in E. destruct m; exact E.
    + destruct s as [|c s]; [by apply IH in H|].
      destruct (cset_match ic cs c); [|by apply IH in H].
      destruct (match_here ic (re ++ [Bnd]) (Some c) s) as [m|] eqn:E.
      * injection H as <-. apply IH in E. destruct m; exact E.
      * by apply IH in H.
    + revert prev n H. induction s as [|c s IHs]; intros prev n H;
        [discriminate|].
      destruct (cset_match ic cs c); [|discriminate].
      match type of H with
      | match ?X with _ => _ end = _ => destruct X as [m|] eqn:E
      end.
      * injection H as <-. apply IHs in E. destruct m; exact E.
      * destruct (match_here ic (re ++ [Bnd]) (Some c) s) as [m|] eqn:E';
          [|discriminate].
        injection H as <-. apply IH in E'. destruct m; exact E'.
    + destruct (xorb _ _); [|discriminate]. by apply IH in H.
Qed.

Lemma sub_from_skip (ic : bool) (re : regex) (repl : pystr) :
  forall s prev k,
    k <= length s ->
    sub_from ic re repl prev k s
    = sub_from ic re repl (prev_at prev s k) 0 (drop k s).
Proof.
  induction s as [|c s IH]; intros prev k Hk.
  - simpl in Hk. assert (k = 0) by lia. subst k. reflexivity.
  - destruct k as [|k]; [reflexivity|].
    simpl in Hk. cbn [sub_from drop]. rewrite IH by lia.
    destruct k; reflexivity.
Qed.

Lemma sub_from_Forall (P : ascii -> Prop) (ic : bool) (re : regex)
  (repl : pystr) :
  Forall P repl ->
  forall s prev k, Forall P s -> Forall P (sub_from ic re repl prev k s).
Proof.
  intros Hr. induction s as [|c s IH]; intros prev k Hs; simpl.
  - destruct k; [|constructor].
    destruct (match_here ic re prev []); [assumption|constructor].
  - apply Forall_cons in Hs as [Hc Hs].
    destruct k as [|k]; [|by apply IH].
    destruct (match_here ic re prev (c :: s)) as [[|n]|].
    + apply Forall_app. split; [assumption|]. constructor; [assumption|].
      by apply IH.
    + apply Forall_app. split; [assumption|]. by apply IH.
    + constructor; [assumption|]. by apply IH.
Qed.

(** ** Characters *)

Ltac all_chars c := destruct c as [[] [] [] [] [] [] [] []].

Lemma lower_word (c : ascii) : is_word (lower_char c) = is_word c.
Proof. all_chars c; reflexivity. Qed.

Lemma upper_lower (c : ascii) : tamec c = true -> upper_char (lower_char c) = c.
Proof. all_chars c; intros H; try reflexivity; discriminate. Qed.

Lemma tamec_word (c : ascii) : tamec c = true -> is_word c = az09 c.
Proof. all_chars c; intros H; try reflexivity; discriminate. Qed.

Lemma az09_tamec (c : ascii) : az09 c = true -> tamec c = true.
Proof. all_chars c; intros H; try reflexivity; discriminate. Qed.

Lemma az09_word (c : ascii) : az09 c = true -> is_word c = true.
Proof. all_chars c; intros H; try reflexivity; discriminate. Qed.

Lemma space_not_word (c : ascii) : is_space c = true -> is_word c = false.
Proof. all_chars c; intros H; try reflexivity; discriminate. Qed.

Lemma upper_char_tamec (c : ascii) :
  code c <> 95 -> tamec (upper_char c) = true.
Proof.
  all_chars c; intros H; try reflexivity; exfalso; apply H; reflexivity.
Qed.

Lemma chr_match_eq (ic : bool) (c d : ascii) :
  cset_match ic (CChr c) d = true ->
  ic = false \/ (tamec c = true /\ tamec d = true) ->
  d = c.
Proof.
  simpl. intros H Hc. apply orb_true_iff in H as [H|H].
  - apply Ascii.eqb_eq in H. congruence.
  - apply andb_true_iff in H as [Hic H]. apply Ascii.eqb_eq in H.
    destruct Hc as [->|[Hc Hd]]; [discriminate|].
    rewrite <- (upper_lower c Hc), <- (upper_lower d Hd). by rewrite H.
Qed.

Lemma chr_match_word (ic : bool) (c d : ascii) :
  cset_match ic (CChr c) d = true -> is_word d = is_word c.
Proof.
  simpl. intros H. apply orb_true_iff in H as [H|H].
  - apply Ascii.eqb_eq in H. congruence.
  - apply andb_true_iff in H as [_ H]. apply Ascii.eqb_eq in H.
    rewrite <- (lower_word d), <- (lower_word c). by rewrite H.
Qed.

Lemma chr_match_refl (ic : bool) (c : ascii) : cset_match ic (CChr c) c = true.
Proof. simpl. by rewrite Ascii.eqb_refl. Qed.

Lemma wordy_spec (w : pystr) :
  wordy w = true -> w <> [] /\ Forall (fun c => az09 c = true) w.
Proof.
  destruct w as [|c w]; [discriminate|]. intros H. split; [discriminate|].
  unfold wordy in H. rewrite forallb_forall in H.
  apply Forall_forall. intros x Hx. apply H. by apply list_elem_of_In.
Qed.

(** ** Words *)

Lemma words_aux_nonword (cur : pystr) (s : pystr) :
  word_after s = false -> words_aux cur s = flush cur ++ words_aux [] s.
Proof.
  destruct s as [|c s]; simpl; intros H.
  - by rewrite app_nil_r.
  - rewrite H. reflexivity.
Qed.

(** The words of a concatenation whose junction does not lie inside a
    word. *)
Lemma words_aux_app (m s2 : pystr) :
  forall cur,
    word_after s2 = false
    \/ match last m with
       | Some c => is_word c = false
       | None => cur = []
       end ->
    words_aux cur (m ++ s2) = words_aux cur m ++ words_aux [] s2.
Proof.
  induction m as [|c m IH]; intros cur H.
  - simpl. destruct H as [H| ->]; [by apply words_aux_nonword|reflexivity].
  - cbn [app words_aux]. destruct (is_word c) eqn:Ec.
    + apply IH. destruct H as [H|H]; [by left|]. right.
      destruct m as [|d m]; [cbn in H; congruence|].
      change (last (c :: d :: m)) with (last (d :: m)) in H.
      destruct (last (d :: m)) eqn:El; [exact H|by apply last_None in El].
    + rewrite <- app_assoc. f_equal. apply IH.
      destruct H as [H|H]; [by left|]. right.
      destruct m as [|d m]; [reflexivity|].
      change (last (c :: d :: m)) with (last (d :: m)) in H.
      destruct (last (d :: m)) eqn:El; [exact H|by apply last_None in El].
Qed.

Lemma words_aux_word (w : pystr) :
  forall cur, Forall (fun c => is_word c = true) w ->
              words_aux cur w = flush (cur ++ w).
Proof.
  induction w as [|c w IH]; intros cur H; simpl.
  - by rewrite app_nil_r.
  - apply Forall_cons in H as [Hc H]. rewrite Hc, IH by assumption.
    by rewrite <- app_assoc.
Qed.

Lemma word_prefix_split (s : pystr) :
  exists rest, s = word_prefix s ++ rest /\ word_after rest = false.
Proof.
  induction s as [|c s (rest & E & H)]; simpl.
  - exists []. split; reflexivity.
  - destruct (is_word c) eqn:Ec.
    + exists rest. split; [cbn [app]; f_equal; exact E|assumption].
    + exists (c :: s). split; [reflexivity|]. simpl. exact Ec.
Qed.

Lemma word_prefix_app (w rest : pystr) :
  Forall (fun c => is_word c = true) w -> word_after rest = false ->
  word_prefix (w ++ rest) = w.
Proof.
  induction 1 as [|c w Hc H IH]; intros Hr; simpl.
  - destruct rest; [reflexivity|]. simpl in *. by rewrite Hr.
  - rewrite Hc. f_equal. by apply IH.
Qed.

(** The word a string starts with is one of its words. *)
Lemma word_prefix_in_words (s : pystr) (cur : pystr) :
  cur ++ word_prefix s <> [] -> cur ++ word_prefix s ∈ words_aux cur s.
Proof.
  revert cur. induction s as [|c s IH]; intros cur H; simpl in *.
  - rewrite app_nil_r in *. destruct cur; [congruence|]. simpl.
    apply elem_of_cons. by left.
  - destruct (is_word c).
    + replace (cur ++ c :: word_prefix s) with ((cur ++ [c]) ++ word_prefix s)
        in * by (by rewrite <- app_assoc).
      by apply IH.
    + rewrite app_nil_r in *. apply elem_of_app. left.
      destruct cur; [congruence|]. simpl. apply elem_of_cons. by left.
Qed.

Lemma prev_at_cons (prev : option ascii) (c : ascii) (s : pystr) (k : nat) :
  prev_at prev (c :: s) (S k) = prev_at (Some c) s k.
Proof. destruct k; reflexivity. Qed.

Lemma last_take_prev_at (c : ascii) (s : pystr) (k : nat) :
  k <= length s -> last (c :: take k s) = prev_at (Some c) s k.
Proof.
  revert c k. induction s as [|d s IH]; intros c k Hk.
  - simpl in Hk. assert (k = 0) by lia. subst. reflexivity.
  - destruct k as [|k]; [reflexivity|]. simpl in Hk.
    change (last (c :: take (S k) (d :: s))) with (last (d :: take k s)).
    rewrite IH by lia. destruct k; reflexivity.
Qed.

(** ** Substitution and words *)

Lemma sub_head_nonword (ic : bool) (re : regex) (repl : pystr)
  (prev : option ascii) (s : pystr) :
  word_bounded ic re -> word_after s = false ->
  word_after (sub_from ic re repl prev 0 s) = false.
Proof.
  intros Hwb H. destruct s as [|c s]; simpl.
  - destruct (match_here ic re prev []) eqn:E; [|reflexivity].
    apply Hwb in E as (_ & _ & E & _). discriminate.
  - destruct (match_here ic re prev (c :: s)) eqn:E.
    + apply Hwb in E as (_ & _ & E & _). congruence.
    + exact H.
Qed.

(** After a match that starts the string, what follows. *)
Lemma sub_from_match (ic : bool) (re : regex) (repl : pystr)
  (prev : option ascii) (c : ascii) (s : pystr) (k : nat) :
  match_here ic re prev (c :: s) = Some (S k) ->
  sub_from ic re repl prev 0 (c :: s)
  = repl ++ sub_from ic re repl (prev_at (Some c) s k) 0 (drop k s)
  /\ k <= length s.
Proof.
  intros E. pose proof (match_here_le _ _ _ _ _ E) as Hle. simpl in Hle.
  split; [|lia]. cbn [sub_from]. rewrite E. f_equal.
  apply sub_from_skip. lia.
Qed.

Lemma boundary_cases (p : option ascii) (s : pystr) :
  xorb (word_before p) (word_after s) = true ->
  word_after s = false
  \/ match p with Some x => is_word x = false | None => @nil ascii = [] end.
Proof.
  destruct (word_after s); [|by left]. intros H. right.
  destruct p as [x|]; [|reflexivity]. simpl in H.
  by destruct (is_word x).
Qed.

(** Substituting a word (or nothing) for the matches of a word-bounded
    pattern creates no word besides the substituted one. *)
Lemma sub_words_incl (ic : bool) (re : regex) (repl : pystr) :
  word_bounded ic re ->
  Forall (fun c => is_word c = true) repl ->
  repl = [] \/ ends_in_word ic re ->
  forall n s, length s <= n ->
  forall cur prev,
    (word_before prev = false -> cur = []) ->
    (cur = [] -> word_before prev = true -> word_after s = false) ->
    forall w, w ∈ words_aux cur (sub_from ic re repl prev 0 s) ->
              w ∈ words_aux cur s \/ w = repl.
Proof.
  intros Hwb Hrepl Hend. induction n as [|n IH]; intros s Hlen cur prev I1 I2 w.
  - destruct s; [|simpl in Hlen; lia]. simpl.
    destruct (match_here ic re prev []) eqn:E; [|by left].
    apply Hwb in E as (_ & _ & E & _). discriminate.
  - destruct s as [|c s]; simpl in Hlen.
    { simpl. destruct (match_here ic re prev []) eqn:E; [|by left].
      apply Hwb in E as (_ & _ & E & _). discriminate. }
    destruct (match_here ic re prev (c :: s)) as [[|k]|] eqn:E.
    + apply Hwb in E as (E & _). lia.
    + destruct (sub_from_match ic re repl prev c s k E) as [-> Hk].
      pose proof E as (_ & Hp & _ & Hb)%Hwb.
      rewrite prev_at_cons in Hb. cbn [drop] in Hb.
      set (p2 := prev_at (Some c) s k) in *. set (s2 := drop k s) in *.
      rewrite (I1 Hp).
      assert (Hlen2 : length s2 <= n).
      { unfold s2. rewrite length_drop. lia. }
      rewrite words_aux_app.
      2:{ destruct Hend as [->|Hend]; [by right|]. left.
          apply sub_head_nonword; [assumption|].
          apply Hend in E. rewrite prev_at_cons in E. fold p2 in E.
          rewrite E in Hb. by destruct (word_after s2). }
      rewrite words_aux_word by assumption. cbn [app].
      intros [Hw|Hw]%elem_of_app.
      * right. destruct repl; [by apply elem_of_nil in Hw|].
        by apply list_elem_of_singleton in Hw.
      * apply (IH s2 Hlen2 [] p2) in Hw.
        -- destruct Hw as [Hw|Hw]; [|by right]. left.
           rewrite <- (take_drop k s). fold s2.
           change (c :: take k s ++ s2) with ((c :: take k s) ++ s2).
           rewrite words_aux_app; [apply elem_of_app; by right|].
           rewrite last_take_prev_at by assumption. fold p2.
           by apply boundary_cases.
        -- reflexivity.
        -- intros _ Hp2. rewrite Hp2 in Hb. by destruct (word_after s2).
    + cbn [sub_from]. rewrite E. cbn [words_aux].
      destruct (is_word c) eqn:Ec.
      * apply IH; [lia| |].
        -- simpl. congruence.
        -- intros Hcur. by destruct cur.
      * intros [Hw|Hw]%elem_of_app.
        -- left. apply elem_of_app. by left.
        -- apply (IH s ltac:(lia) [] (Some c)) in Hw.
           ++ destruct Hw as [Hw|Hw]; [|by right]. left.
              apply elem_of_app. by right.
           ++ reflexivity.
           ++ simpl. congruence.
Qed.

(** Substituting for the matches of a pattern that finds the word [w]
    leaves no occurrence of [w]. *)
Lemma sub_words_free (ic : bool) (re : regex) (repl w : pystr) :
  word_bounded ic re ->
  finds ic re w ->
  Forall (fun c => is_word c = true) repl ->
  repl = [] \/ ends_in_word ic re ->
  w <> repl ->
  forall n s, length s <= n ->
  forall cur prev,
    (word_before prev = false -> cur = []) ->
    (cur = [] -> word_before prev = true -> word_after s = false) ->
    (cur <> [] -> cur ++ word_prefix s <> w) ->
    w ∉ words_aux cur (sub_from ic re repl prev 0 s).
Proof.
  intros Hwb Hfind Hrepl Hend Hne.
  assert (Hflush : forall cur, (cur <> [] -> cur <> w) -> w ∉ flush cur).
  { intros [|x cur] H; [apply not_elem_of_nil|].
    intros ->%list_elem_of_singleton. by apply H. }
  induction n as [|n IH]; intros s Hlen cur prev I1 I2 I3.
  - destruct s; [|simpl in Hlen; lia]. simpl.
    destruct (match_here ic re prev []) eqn:E.
    { apply Hwb in E as (_ & _ & E & _). discriminate. }
    simpl. apply Hflush. intros Hc. specialize (I3 Hc).
    simpl in I3. by rewrite app_nil_r in I3.
  - destruct s as [|c s]; simpl in Hlen.
    { simpl. destruct (match_here ic re prev []) eqn:E.
      { apply Hwb in E as (_ & _ & E & _). discriminate. }
      simpl. apply Hflush. intros Hc. specialize (I3 Hc).
      simpl in I3. by rewrite app_nil_r in I3. }
    destruct (match_here ic re prev (c :: s)) as [[|k]|] eqn:E.
    + apply Hwb in E as (E & _). lia.
    + destruct (sub_from_match ic re repl prev c s k E) as [-> Hk].
      pose proof E as (_ & Hp & _ & Hb)%Hwb.
      rewrite prev_at_cons in Hb. cbn [drop] in Hb.
      set (p2 := prev_at (Some c) s k) in *. set (s2 := drop k s) in *.
      rewrite (I1 Hp).
      assert (Hlen2 : length s2 <= n).
      { unfold s2. rewrite length_drop. lia. }
      rewrite words_aux_app.
      2:{ destruct Hend as [->|Hend]; [by right|]. left.
          apply sub_head_nonword; [assumption|].
          apply Hend in E. rewrite prev_at_cons in E. fold p2 in E.
          rewrite E in Hb. by destruct (word_after s2). }
      rewrite words_aux_word by assumption. cbn [app].
      intros [Hw|Hw]%elem_of_app.
      * destruct repl; [by apply elem_of_nil in Hw|].
        by apply list_elem_of_singleton in Hw.
      * revert Hw. apply (IH s2 Hlen2 [] p2); [reflexivity| |done].
        intros _ Hp2. rewrite Hp2 in Hb. by destruct (word_after s2).
    + cbn [sub_from]. rewrite E. cbn [words_aux].
      destruct (is_word c) eqn:Ec.
      * apply IH; [lia| | |].
        -- simpl. congruence.
        -- intros Hcur. by destruct cur.
        -- intros _. rewrite <- app_assoc. cbn [app].
           destruct cur as [|x cur].
           ++ (* the word starts here: it is not [w], or the pattern
                 would have matched *)
              cbn [app]. intros Hw.
              destruct (word_before prev) eqn:Hp.
              { specialize (I2 eq_refl eq_refl). simpl in I2. congruence. }
              destruct (word_prefix_split (c :: s)) as (rest & Es & Hr).
              simpl in Es. rewrite Ec in Es. rewrite Hw in Es.
              destruct (Hfind prev rest Hp Hr) as [m Hm].
              rewrite <- Es in Hm. congruence.
           ++ assert (Hc : x :: cur <> []) by discriminate.
              specialize (I3 Hc). simpl in I3. rewrite Ec in I3. exact I3.
      * intros [Hw|Hw]%elem_of_app.
        -- revert Hw. apply Hflush. intros Hc. specialize (I3 Hc).
           simpl in I3. rewrite Ec in I3. by rewrite app_nil_r in I3.
        -- revert Hw. apply (IH s ltac:(lia) [] (Some c)); [reflexivity| |done].
           simpl. congruence.
Qed.

(** ** The patterns for a literal word *)

Lemma lits_match (ic : bool) (tail : regex) (rest : pystr) :
  forall w prev,
    match_here ic (lits w ++ tail) prev (w ++ rest)
    = (fun n => length w + n) <$> match_here ic tail (prev_at prev w (length w)) rest.
Proof.
  induction w as [|c w IH]; intros prev.
  - simpl. by destruct (match_here ic tail prev rest).
  - cbn [lits map app match_here]. rewrite chr_match_refl.
    fold (lits w). rewrite IH. cbn [length]. rewrite prev_at_cons.
    by destruct (match_here ic tail _ rest).
Qed.

Lemma lits_match_inv (ic : bool) (tail : regex) :
  forall w prev s n,
    match_here ic (lits w ++ tail) prev s = Some n ->
    ic = false
    \/ (Forall (fun c => tamec c = true) w /\ Forall (fun c => tamec c = true) s) ->
    exists rest m,
      s = w ++ rest
      /\ match_here ic tail (prev_at prev w (length w)) rest = Some m
      /\ n = length w + m.
Proof.
  induction w as [|c w IH]; intros prev s n H Hc.
  - exists s, n. repeat split. exact H.
  - cbn [lits map app match_here] in H. fold (lits w) in H.
    destruct s as [|d s]; [discriminate|].
    destruct (cset_match ic (CChr c) d) eqn:Ed; [|discriminate].
    destruct (match_here ic (lits w ++ tail) (Some d) s) as [m|] eqn:E;
      [|discriminate].
    injection H as <-.
    assert (d = c).
    { apply (chr_match_eq ic); [assumption|].
      destruct Hc as [Hc|[Hw Hs]]; [by left|right].
      apply Forall_cons in Hw as [? _]. apply Forall_cons in Hs as [? _].
      by split. }
    subst d.
    apply IH in E as (rest & m' & -> & Hm & ->).
    + exists rest, m'. cbn [length]. rewrite prev_at_cons. by repeat split.
    + destruct Hc as [Hc|[Hw Hs]]; [by left|right].
      apply Forall_cons in Hw as [_ ?]. apply Forall_cons in Hs as [_ ?].
      by split.
Qed.

Lemma word_bounded_shape (ic : bool) (c0 : ascii) (mid : regex) :
  is_word c0 = true ->
  word_bounded ic (Bnd :: One (CChr c0) :: mid ++ [Bnd]).
Proof.
  intros Hc0 prev s n H.
  pose proof (match_end_bnd ic (Bnd :: One (CChr c0) :: mid) prev s n H) as Hb.
  cbn [match_here] in H.
  destruct (xorb (word_before prev) (word_after s)) eqn:Ex; [|discriminate].
  destruct s as [|d s]; [discriminate|].
  destruct (cset_match ic (CChr c0) d) eqn:Ed; [|discriminate].
  destruct (match_here ic (mid ++ [Bnd]) (Some d) s) as [m|]; [|discriminate].
  injection H as <-.
  assert (Hd : word_after (d :: s) = true).
  { simpl. rewrite (chr_match_word _ _ _ Ed). exact Hc0. }
  rewrite Hd in Ex. repeat split; [lia| |assumption|assumption].
  by destruct (word_before prev).
Qed.

Lemma wordy_head (w : pystr) :
  wordy w = true ->
  exists c0 w', w = c0 :: w' /\ is_word c0 = true
                /\ Forall (fun c => is_word c = true) w
                /\ Forall (fun c => tamec c = true) w.
Proof.
  intros H. apply wordy_spec in H as [Hne H].
  destruct w as [|c0 w']; [congruence|]. exists c0, w'.
  split; [reflexivity|]. split.
  - apply Forall_cons in H as [H _]. by apply az09_word.
  - split; (eapply Forall_impl; [exact H|]); intros c Hc.
    + by apply az09_word.
    + by apply az09_tamec.
Qed.

Lemma pat_word_bounded (ic : bool) (w : pystr) :
  wordy w = true -> word_bounded ic (pat_word w).
Proof.
  intros (c0 & w' & -> & Hc0 & _)%wordy_head.
  apply (word_bounded_shape ic c0 (lits w')). exact Hc0.
Qed.

Lemma pat_word_dot_bounded (ic : bool) (w : pystr) :
  wordy w = true -> word_bounded ic (pat_word_dot w).
Proof.
  intros (c0 & w' & -> & Hc0 & _)%wordy_head.
  replace (pat_word_dot (c0 :: w'))
    with (Bnd :: One (CChr c0) :: (lits w' ++ [Opt (CChr ".")]) ++ [Bnd]).
  - apply (word_bounded_shape ic c0). exact Hc0.
  - unfold pat_word_dot. simpl. by rewrite <- app_assoc.
Qed.

Lemma prev_at_word (prev : option ascii) (w : pystr) :
  w <> [] -> Forall (fun c => is_word c = true) w ->
  word_before (prev_at prev w (length w)) = true.
Proof.
  intros Hne Hw. destruct w as [|c w] using rev_ind; [congruence|].
  rewrite length_app. simpl. rewrite Nat.add_1_r. cbn [prev_at].
  rewrite lookup_app_r by lia. rewrite Nat.sub_diag. simpl.
  apply Forall_app in Hw as [_ Hw]. by apply Forall_cons in Hw as [? _].
Qed.

Lemma pat_word_finds (ic : bool) (w : pystr) :
  wordy w = true -> finds ic (pat_word w) w.
Proof.
  intros Hw prev rest Hp Hr.
  pose proof Hw as (c0 & w' & E & Hc0 & Hall & _)%wordy_head.
  unfold pat_word. cbn [match_here].
  assert (Hwa : word_after (w ++ rest) = true) by (subst w; exact Hc0).
  rewrite Hp, Hwa. cbn [xorb]. rewrite lits_match. cbn [match_here].
  rewrite prev_at_word, Hr by (by subst w). cbn. eauto.
Qed.

Lemma pat_word_dot_finds (ic : bool) (w : pystr) :
  wordy w = true -> finds ic (pat_word_dot w) w.
Proof.
  intros Hw prev rest Hp Hr.
  pose proof Hw as (c0 & w' & E & Hc0 & Hall & _)%wordy_head.
  unfold pat_word_dot. cbn [match_here].
  assert (Hwa : word_after (w ++ rest) = true) by (subst w; exact Hc0).
  rewrite Hp, Hwa. cbn [xorb]. rewrite lits_match.
  assert (Hb : match_here ic [Bnd] (prev_at prev w (length w)) rest = Some 0).
  { cbn [match_here]. rewrite prev_at_word, Hr by (by subst w). reflexivity. }
  cbn [match_here] in *.
  destruct rest as [|d rest]; [rewrite Hb; cbn; eauto|].
  destruct (cset_match ic (CChr ".") d); [|rewrite Hb; cbn; eauto].
  destruct (xorb (word_before (Some d)) (word_after rest));
    [cbn; eauto|rewrite Hb; cbn; eauto].
Qed.

(** ** Substitutions that find nothing *)

Lemma no_match_sub_id (ic : bool) (re : regex) (repl : pystr) :
  forall s prev, no_match ic re prev s -> sub_from ic re repl prev 0 s = s.
Proof.
  induction s as [|c s IH]; intros prev [H1 H2]; cbn [sub_from].
  - by rewrite H1.
  - rewrite H1. f_equal. by apply IH.
Qed.

Lemma re_sub_id (ic : bool) (pat : string) (repl : pystr) (re : regex)
  (s : pystr) :
  re_compile pat = Some re -> no_match ic re None s ->
  re_sub_flags ic pat repl s = s.
Proof.
  intros E H. unfold re_sub_flags. rewrite E. by apply no_match_sub_id.
Qed.

Lemma tail_nonword (ic : bool) (tail : regex) (prev : option ascii)
  (rest : pystr) (m : nat) :
  tail = [Bnd] \/ tail = [Opt (CChr "."); Bnd] ->
  word_before prev = true ->
  match_here ic tail prev rest = Some m ->
  word_after rest = false.
Proof.
  intros Ht Hp Hm.
  assert (Hb : forall k, match_here ic [Bnd] prev rest = Some k ->
                         word_after rest = false).
  { intros k Hk. cbn [match_here] in Hk. rewrite Hp in Hk.
    by destruct (word_after rest). }
  destruct Ht as [-> | ->]; [by eapply Hb|].
  destruct rest as [|d rest]; [reflexivity|].
  destruct (cset_match ic (CChr ".") d) eqn:Ed.
  - simpl. by rewrite (chr_match_word _ _ _ Ed).
  - apply (Hb m). cbn [match_here] in Hm. rewrite Ed in Hm. exact Hm.
Qed.

Lemma word_no_match (ic : bool) (w : pystr) (tail : regex) :
  wordy w = true ->
  tail = [Bnd] \/ tail = [Opt (CChr "."); Bnd] ->
  forall s cur prev,
    Forall (fun c => tamec c = true) s ->
    (word_before prev = false -> cur = []) ->
    w ∉ words_aux cur s ->
    no_match ic (Bnd :: lits w ++ tail) prev s.
Proof.
  intros Hw Ht.
  pose proof Hw as (c0 & w' & E & Hc0 & Hall & Htame)%wordy_head.
  assert (Hne : w <> []) by (subst w; discriminate).
  assert (Hhere : forall s cur prev,
             Forall (fun c => tamec c = true) s ->
             (word_before prev = false -> cur = []) ->
             w ∉ words_aux cur s ->
             match_here ic (Bnd :: lits w ++ tail) prev s = None).
  { intros s cur prev Hs Hcur Hnot.
    destruct (match_here ic (Bnd :: lits w ++ tail) prev s) as [n|] eqn:Em;
      [exfalso|reflexivity].
    cbn [match_here] in Em.
    destruct (xorb (word_before prev) (word_after s)) eqn:Ex; [|discriminate].
    apply lits_match_inv in Em as (rest & m & -> & Hm & _); [|right; by split].
    assert (Hwa : word_after (w ++ rest) = true) by (subst w; exact Hc0).
    rewrite Hwa in Ex.
    assert (Hp : word_before prev = false) by (by destruct (word_before prev)).
    apply tail_nonword in Hm; [|assumption|by apply prev_at_word].
    rewrite (Hcur Hp) in Hnot. apply Hnot.
    pose proof (word_prefix_in_words (w ++ rest) []) as Hin.
    rewrite word_prefix_app in Hin by assumption.
    apply Hin. exact Hne. }
  induction s as [|c s IH]; intros cur prev Hs Hcur Hnot;
    (split; [by eapply Hhere|]); [exact I|].
  apply Forall_cons in Hs as [_ Hs]. cbn [words_aux] in Hnot.
  destruct (is_word c) eqn:Ec.
  - apply (IH (cur ++ [c])); [assumption| |assumption].
    simpl. rewrite Ec. discriminate.
  - apply (IH []); [assumption|done|].
    intros Hin. apply Hnot. apply elem_of_app. by right.
Qed.

Lemma lits_no_match_absent (ic : bool) (w : pystr) (tail : regex) (c : ascii) :
  c ∈ w -> Forall (fun c => tamec c = true) w ->
  forall s prev,
    Forall (fun c => tamec c = true) s -> c ∉ s ->
    no_match ic (Bnd :: lits w ++ tail) prev s.
Proof.
  intros Hc Hw.
  assert (Hhere : forall s prev,
             Forall (fun c => tamec c = true) s -> c ∉ s ->
             match_here ic (Bnd :: lits w ++ tail) prev s = None).
  { intros s prev Hs Hnot.
    destruct (match_here ic (Bnd :: lits w ++ tail) prev s) as [n|] eqn:Em;
      [exfalso|reflexivity].
    cbn [match_here] in Em.
    destruct (xorb (word_before prev) (word_after s)); [|discriminate].
    apply lits_match_inv in Em as (rest & m & -> & _); [|right; by split].
    apply Hnot. apply elem_of_app. by left. }
  induction s as [|d s IH]; intros prev Hs Hnot;
    (split; [by apply Hhere|]); [exact I|].
  apply Forall_cons in Hs as [_ Hs].
  apply IH; [assumption|]. intros Hin. apply Hnot. by right.
Qed.

Lemma re_sub_word_id (ic : bool) (pat : string) (repl w : pystr)
  (tail : regex) (s : pystr) :
  re_compile pat = Some (Bnd :: lits w ++ tail) ->
  wordy w = true ->
  tail = [Bnd] \/ tail = [Opt (CChr "."); Bnd] ->
  Forall (fun c => tamec c = true) s ->
  w ∉ words s ->
  re_sub_flags ic pat repl s = s.
Proof.
  intros E Hw Ht Hs Hnot. apply (re_sub_id _ _ _ _ _ E).
  by apply (word_no_match ic w tail Hw Ht s []).
Qed.

Lemma re_sub_absent_id (ic : bool) (pat : string) (repl w : pystr)
  (tail : regex) (c : ascii) (s : pystr) :
  re_compile pat = Some (Bnd :: lits w ++ tail) ->
  c ∈ w -> Forall (fun c => tamec c = true) w ->
  Forall (fun c => tamec c = true) s -> c ∉ s ->
  re_sub_flags ic pat repl s = s.
Proof.
  intros E Hc Hw Hs Hnot. apply (re_sub_id _ _ _ _ _ E).
  by apply (lits_no_match_absent ic w tail c).
Qed.

(** ** Words the substitutions leave behind *)

Lemma prev_at_app (prev : option ascii) (w rest : pystr) :
  prev_at prev (w ++ rest) (length w) = prev_at prev w (length w).
Proof.
  destruct w as [|c w] using rev_ind; [reflexivity|].
  rewrite length_app. simpl. rewrite Nat.add_1_r. cbn [prev_at].
  rewrite <- app_assoc.
  rewrite (lookup_app_r w ([c] ++ rest)), (lookup_app_r w [c]) by lia.
  by rewrite Nat.sub_diag.
Qed.

Lemma pat_word_ends (w : pystr) :
  wordy w = true -> ends_in_word false (pat_word w).
Proof.
  intros (c0 & w' & E & Hc0 & Hall & _)%wordy_head prev s n H.
  unfold pat_word in H. cbn [match_here] in H.
  destruct (xorb (word_before prev) (word_after s)); [|discriminate].
  apply lits_match_inv in H as (rest & m & -> & Hm & ->); [|by left].
  cbn [match_here] in Hm.
  destruct (xorb _ (word_after rest)); [|discriminate].
  injection Hm as <-. rewrite Nat.add_0_r, prev_at_app.
  apply prev_at_word; [subst w; discriminate|assumption].
Qed.

Lemma sub_free_keep (ic : bool) (pat : string) (repl : pystr) (re : regex)
  (fw : list pystr) (s : pystr) :
  re_compile pat = Some re ->
  word_bounded ic re ->
  Forall (fun c => is_word c = true) repl ->
  repl = [] \/ ends_in_word ic re ->
  repl ∉ fw ->
  free_of fw s ->
  free_of fw (re_sub_flags ic pat repl s).
Proof.
  intros E Hb Hr He Hnot Hfree. unfold re_sub_flags. rewrite E.
  unfold free_of in *. rewrite Forall_forall in *.
  intros w Hw Hin.
  apply (sub_words_incl ic re repl Hb Hr He (length s) s (le_n _) [] None)
    in Hin as [Hin| ->]; [by apply (Hfree w)| |done|done].
  by apply Hnot.
Qed.

Lemma sub_free_kill (ic : bool) (pat : string) (repl : pystr) (re : regex)
  (w : pystr) (fw : list pystr) (s : pystr) :
  re_compile pat = Some re ->
  word_bounded ic re ->
  finds ic re w ->
  Forall (fun c => is_word c = true) repl ->
  repl = [] \/ ends_in_word ic re ->
  w <> repl ->
  repl ∉ fw ->
  free_of fw s ->
  free_of (w :: fw) (re_sub_flags ic pat repl s).
Proof.
  intros E Hb Hf Hr He Hne Hnot Hfree. apply Forall_cons. split.
  - unfold re_sub_flags. rewrite E.
    by apply (sub_words_free ic re repl w Hb Hf Hr He Hne (length s) s).
  - by apply (sub_free_keep ic pat repl re).
Qed.

Lemma word_chars (r : pystr) :
  forallb is_word r = true -> Forall (fun c => is_word c = true) r.
Proof.
  induction r as [|c r IH]; intros H; [constructor|].
  apply andb_prop in H as [H1 H2]. constructor; auto.
Qed.

Lemma tame_chars (r : pystr) :
  forallb tamec r = true -> Forall (fun c => tamec c = true) r.
Proof.
  induction r as [|c r IH]; intros H; [constructor|].
  apply andb_prop in H as [H1 H2]. constructor; auto.
Qed.

Ltac not_among := apply (bool_decide_unpack _); vm_compute; exact I.

(** A table entry [\bW\b -> R]. *)
Ltac expands W :=
  eapply (sub_free_kill false _ _ (pat_word (lit W)) (lit W));
  [ reflexivity
  | apply pat_word_bounded; reflexivity
  | apply pat_word_finds; reflexivity
  | apply word_chars; reflexivity
  | right; apply pat_word_ends; reflexivity
  | intros [=]
  | not_among
  | ].

(** A suffix [\bW\b] or [\bW\.?\b] whose word the list meets for the first
    time. *)
Ltac removes re W :=
  eapply (sub_free_kill true _ [] (re (lit W)) (lit W));
  [ reflexivity
  | first [ apply pat_word_bounded | apply pat_word_dot_bounded ]; reflexivity
  | first [ apply pat_word_finds | apply pat_word_dot_finds ]; reflexivity
  | constructor
  | by left
  | intros [=]
  | not_among
  | ].

(** Any other suffix; it starts with the letter [c0]. *)
Ltac passes re c0 mid :=
  eapply (sub_free_keep true _ [] re);
  [ reflexivity
  | apply (word_bounded_shape true c0 mid); reflexivity
  | constructor
  | by left
  | not_among
  | ].

Lemma tables_free (s : pystr) :
  free_of forbidden
    (Step1.remove_suffixes Step1.suffixes_priority
       (Step1.expand_abbreviations s)).
Proof.
  unfold Step1.remove_suffixes, Step1.suffixes_priority,
    Step1.expand_abbreviations, Step1.abbreviations, forbidden.
  cbn [fold_left]. unfold re_sub_i, re_sub.
  removes pat_word "KK". removes pat_word "AG". removes pat_word "SA".
  removes pat_word "GMBH". removes pat_word "NV".
  passes (pat_word (lit "S.A.")) "S"%char (lits (lit ".A.")).
  removes pat_word "LLC". removes pat_word_dot "PLC".
  passes (pat_word_dot (lit "L.L.C")) "L"%char
    (lits (lit ".L.C") ++ [Opt (CChr ".")]).
  removes pat_word_dot "CO". removes pat_word_dot "LTD".
  passes (pat_word_dot (lit "INC")) "I"%char
    (lits (lit "NC") ++ [Opt (CChr ".")]).
  passes (pat_word_dot (lit "CORP")) "C"%char
    (lits (lit "ORP") ++ [Opt (CChr ".")]).
  removes pat_word "GROUP". removes pat_word "LIMITED".
  removes pat_word "COMPANY". removes pat_word "CORPORATION".
  removes pat_word "INCORPORATED".
  expands "SYS". expands "TECH". expands "MFG". expands "INC".
  expands "CORP". expands "NATL". expands "INTL".
  constructor.
Qed.

(** ** Steps 4 and 5 of the cleaning function *)

Lemma class_match (c : ascii) :
  cset_match false (CClass true [IRange "A" "Z"; IRange "0" "9"; ISpace]) c
  = negb (az09 c || is_space c).
Proof. all_chars c; reflexivity. Qed.

Lemma punct_sub :
  forall s prev,
    sub_from false [One (CClass true [IRange "A" "Z"; IRange "0" "9"; ISpace])]
      (lit " ") prev 0 s
    = map blank_punct s.
Proof.
  induction s as [|c s IH]; intros prev; [reflexivity|].
  cbn [sub_from match_here map]. rewrite class_match. unfold blank_punct.
  destruct (az09 c || is_space c); cbn; by rewrite IH.
Qed.

Lemma step4_map (s : pystr) :
  re_sub "[^A-Z0-9\s]" (lit " ") s = map blank_punct s.
Proof. apply punct_sub. Qed.

Lemma blank_word_id (c : ascii) :
  tamec c = true -> is_word c = true -> blank_punct c = c.
Proof. all_chars c; intros H1 H2; (reflexivity || discriminate). Qed.

Lemma blank_nonword (c : ascii) :
  is_word c = false -> is_word (blank_punct c) = false.
Proof. all_chars c; intros H; (reflexivity || discriminate). Qed.

Lemma blank_kept (c : ascii) :
  az09 (blank_punct c) || is_space (blank_punct c) = true.
Proof. all_chars c; reflexivity. Qed.

Lemma words_blank :
  forall s cur,
    Forall (fun c => tamec c = true) s ->
    words_aux cur (map blank_punct s) = words_aux cur s.
Proof.
  induction s as [|c s IH]; intros cur Hs; [reflexivity|].
  apply Forall_cons in Hs as [Hc Hs]. cbn [map words_aux].
  destruct (is_word c) eqn:Ec.
  - rewrite (blank_word_id c Hc Ec), Ec. by apply IH.
  - rewrite (blank_nonword c Ec). f_equal. by apply IH.
Qed.

Lemma plus_space_match (ic : bool) :
  forall s prev,
    match_here ic [Plus CSpace] prev s
    = match s with
      | c :: s' => if is_space c then Some (S (space_run s')) else None
      | [] => None
      end.
Proof.
  induction s as [|c s IH]; intros prev; [reflexivity|].
  cbn [match_here] in *. cbn [cset_match].
  destruct (is_space c); [|reflexivity].
  rewrite IH. destruct s as [|d s]; [reflexivity|].
  cbn [space_run]. by destruct (is_space d).
Qed.

Lemma space_sub :
  forall s prev,
    sub_from false [Plus CSpace] (lit " ") prev 0 s = squeeze false s
    /\ sub_from false [Plus CSpace] (lit " ") prev (space_run s) s
       = squeeze true s.
Proof.
  induction s as [|c s IH]; intros prev; [by split|].
  destruct (IH (Some c)) as [IH0 IH1].
  assert (H0 : sub_from false [Plus CSpace] (lit " ") prev 0 (c :: s)
               = squeeze false (c :: s)).
  { cbn [sub_from]. rewrite plus_space_match. cbn [squeeze].
    destruct (is_space c); [by rewrite IH1|by rewrite IH0]. }
  split; [exact H0|].
  cbn [space_run]. destruct (is_space c) eqn:Ec.
  - cbn [sub_from squeeze]. by rewrite Ec.
  - rewrite H0. cbn [squeeze]. by rewrite Ec.
Qed.

Lemma step5_squeeze (s : pystr) :
  re_sub "\s+" (lit " ") s = squeeze false s.
Proof. apply (space_sub s None). Qed.

Lemma squeeze_true_head (s : pystr) :
  match squeeze true s with
  | d :: _ => is_space d = false
  | [] => True
  end.
Proof.
  induction s as [|c s IH]; [exact I|]. cbn [squeeze].
  by destruct (is_space c) eqn:Ec.
Qed.

Lemma squeeze_single :
  forall s b, single_spaced (squeeze b s).
Proof.
  induction s as [|c s IH]; intros b; [exact I|]. cbn [squeeze].
  destruct (is_space c) eqn:Ec.
  - destruct b; [apply IH|]. split; [|apply IH].
    intros _. split; [reflexivity|apply squeeze_true_head].
  - split; [|apply IH]. intros H. congruence.
Qed.

Lemma squeeze_plain :
  forall s b,
    Forall (fun c => az09 c || is_space c = true) s ->
    Forall (fun c => plain c = true) (squeeze b s).
Proof.
  induction s as [|c s IH]; intros b Hs; [constructor|].
  apply Forall_cons in Hs as [Hc Hs]. cbn [squeeze].
  destruct (is_space c) eqn:Ec.
  - destruct b; [by apply IH|]. constructor; [reflexivity|by apply IH].
  - constructor; [|by apply IH]. unfold plain.
    rewrite orb_false_r in Hc. by rewrite Hc.
Qed.

Lemma words_squeeze :
  forall s b cur,
    (b = true -> cur = []) ->
    words_aux cur (squeeze b s) = words_aux cur s.
Proof.
  induction s as [|c s IH]; intros b cur Hb; [reflexivity|].
  cbn [squeeze words_aux]. destruct (is_space c) eqn:Ec.
  - rewrite (space_not_word c Ec). destruct b.
    + rewrite (Hb eq_refl). by apply IH.
    + cbn [words_aux]. change (is_word " ") with false. cbv iota.
      f_equal. by apply IH.
  - cbn [words_aux]. destruct (is_word c); [by apply IH|].
    f_equal. by apply IH.
Qed.

Lemma squeeze_id :
  forall s b,
    single_spaced s ->
    (b = true -> match s with d :: _ => is_space d = false | [] => True end) ->
    squeeze b s = s.
Proof.
  induction s as [|c s IH]; intros b Hss Hb; [reflexivity|].
  destruct Hss as [Hc Hs]. cbn [squeeze]. destruct (is_space c) eqn:Ec.
  - destruct (Hc eq_refl) as [-> Hnext]. destruct b.
    + specialize (Hb eq_refl). cbn in Hb. congruence.
    + f_equal. by apply IH.
  - f_equal. apply IH; [assumption|discriminate].
Qed.

(** ** [strip] *)

Lemma lstrip_split (s : pystr) :
  exists sp, s = sp ++ lstrip s /\ Forall (fun c => is_space c = true) sp.
Proof.
  induction s as [|c s (sp & E & Hsp)]; [by exists []|].
  cbn [lstrip]. destruct (is_space c) eqn:Ec.
  - exists (c :: sp). split; [by rewrite E at 1|by constructor].
  - by exists [].
Qed.

Lemma rstrip_split (s : pystr) :
  exists sp, s = rstrip s ++ sp /\ Forall (fun c => is_space c = true) sp.
Proof.
  destruct (lstrip_split (rev s)) as (sp & E & Hsp).
  exists (rev sp). split.
  - unfold rstrip. rewrite <- rev_app_distr, <- E. by rewrite rev_involutive.
  - apply Forall_forall. intros c Hc.
    rewrite Forall_forall in Hsp. apply Hsp.
    apply list_elem_of_In. apply in_rev. by apply list_elem_of_In.
Qed.

Lemma lstrip_head (s : pystr) :
  match lstrip s with d :: _ => is_space d = false | [] => True end.
Proof.
  induction s as [|c s IH]; [exact I|]. cbn [lstrip].
  by destruct (is_space c) eqn:Ec.
Qed.

Lemma lstrip_fixed (s : pystr) :
  match s with d :: _ => is_space d = false | [] => True end ->
  lstrip s = s.
Proof. destruct s as [|c s]; [done|]. cbn [lstrip]. by intros ->. Qed.

Lemma lstrip_idem (s : pystr) : lstrip (lstrip s) = lstrip s.
Proof. apply lstrip_fixed, lstrip_head. Qed.

Lemma rstrip_idem (s : pystr) : rstrip (rstrip s) = rstrip s.
Proof. unfold rstrip. by rewrite rev_involutive, lstrip_idem. Qed.

Lemma strip_idem (s : pystr) : py_strip (py_strip s) = py_strip s.
Proof.
  unfold py_strip.
  assert (H : lstrip (rstrip (lstrip s)) = rstrip (lstrip s)).
  { apply lstrip_fixed. pose proof (lstrip_head s) as Hh.
    destruct (rstrip_split (lstrip s)) as (sp & E & _).
    destruct (rstrip (lstrip s)) as [|d r]; [exact I|].
    rewrite E in Hh. exact Hh. }
  by rewrite H, rstrip_idem.
Qed.

Lemma strip_Forall (P : ascii -> Prop) (s : pystr) :
  Forall P s -> Forall P (py_strip s).
Proof.
  intros H. unfold py_strip.
  destruct (lstrip_split s) as (sp & E & _). rewrite E in H.
  apply Forall_app in H as [_ H].
  destruct (rstrip_split (lstrip s)) as (sp' & E' & _). rewrite E' in H.
  by apply Forall_app in H as [H _].
Qed.

Lemma single_spaced_suffix (a b : pystr) :
  single_spaced (a ++ b) -> single_spaced b.
Proof.
  induction a as [|c a IH]; [done|]. intros [_ H]. by apply IH.
Qed.

Lemma single_spaced_prefix (a b : pystr) :
  single_spaced (a ++ b) -> single_spaced a.
Proof.
  induction a as [|c a IH]; [done|]. intros [Hc H].
  split; [|by apply IH]. intros Ec. destruct (Hc Ec) as [-> Hn].
  split; [reflexivity|]. by destruct a.
Qed.

Lemma strip_single (s : pystr) :
  single_spaced s -> single_spaced (py_strip s).
Proof.
  intros H. unfold py_strip.
  destruct (lstrip_split s) as (sp & E & _). rewrite E in H.
  apply single_spaced_suffix in H.
  destruct (rstrip_split (lstrip s)) as (sp' & E' & _). rewrite E' in H.
  by apply single_spaced_prefix in H.
Qed.

Lemma words_spaces_before (sp r : pystr) :
  Forall (fun c => is_space c = true) sp ->
  words_aux [] (sp ++ r) = words_aux [] r.
Proof.
  induction sp as [|c sp IH]; intros H; [reflexivity|].
  apply Forall_cons in H as [Hc H]. cbn [app words_aux].
  rewrite (space_not_word c Hc). by apply IH.
Qed.

Lemma words_spaces_after (a sp : pystr) (cur : pystr) :
  Forall (fun c => is_space c = true) sp ->
  words_aux cur (a ++ sp) = words_aux cur a.
Proof.
  intros H. rewrite words_aux_app.
  - pose proof (words_spaces_before sp [] H) as E.
    rewrite app_nil_r in E. rewrite E. cbn [words_aux flush].
    by rewrite app_nil_r.
  - left. destruct sp as [|c sp]; [reflexivity|].
    apply Forall_cons in H as [Hc _]. by apply space_not_word.
Qed.

Lemma words_strip (s : pystr) : words (py_strip s) = words s.
Proof.
  unfold words, py_strip.
  destruct (lstrip_split s) as (sp & E & Hsp).
  destruct (rstrip_split (lstrip s)) as (sp' & E' & Hsp').
  rewrite E at 2. rewrite words_spaces_before by assumption.
  rewrite E' at 2. by rewrite words_spaces_after.
Qed.

(** ** Steps that leave a cleaned name alone *)

Lemma plain_tame (c : ascii) : plain c = true -> tamec c = true.
Proof. all_chars c; intros H; (reflexivity || discriminate). Qed.

Lemma plain_upper (c : ascii) : plain c = true -> upper_char c = c.
Proof. all_chars c; intros H; (reflexivity || discriminate). Qed.

Lemma plain_kept (c : ascii) :
  plain c = true -> az09 c || is_space c = true.
Proof. all_chars c; intros H; (reflexivity || discriminate). Qed.

Lemma plain_absent (c : ascii) (s : pystr) :
  plain c = false -> Forall (fun c => plain c = true) s -> c ∉ s.
Proof.
  intros Hc Hs Hin. rewrite Forall_forall in Hs.
  apply Hs in Hin. congruence.
Qed.

Lemma py_replace_id (old : ascii) (new s : pystr) :
  old ∉ s -> py_replace old new s = s.
Proof.
  induction s as [|c s IH]; intros H; [reflexivity|].
  cbn [py_replace].
  destruct (Ascii.eqb c old) eqn:E.
  - apply Ascii.eqb_eq in E. subst c. exfalso. apply H. by left.
  - cbn [app]. f_equal. apply IH. intros Hin. apply H. by right.
Qed.

Lemma py_upper_id (s : pystr) :
  Forall (fun c => plain c = true) s -> py_upper s = s.
Proof.
  induction 1 as [|c s Hc Hs IH]; [reflexivity|].
  unfold py_upper in *. cbn [map]. by rewrite IH, plain_upper.
Qed.

Lemma blank_id (s : pystr) :
  Forall (fun c => plain c = true) s -> map blank_punct s = s.
Proof.
  induction 1 as [|c s Hc Hs IH]; [reflexivity|].
  cbn [map]. rewrite IH. unfold blank_punct. by rewrite (plain_kept c Hc).
Qed.

(** ** Characters of the intermediate strings *)

Lemma py_replace_Forall (P : ascii -> Prop) (old : ascii) (new s : pystr) :
  Forall P new -> Forall P s -> Forall P (py_replace old new s).
Proof.
  intros Hn. induction 1 as [|c s Hc Hs IH]; [constructor|].
  cbn [py_replace]. apply Forall_app. split; [|assumption].
  destruct (Ascii.eqb c old); [assumption|by constructor].
Qed.

Lemma re_sub_Forall (P : ascii -> Prop) (ic : bool) (pat : string)
  (repl s : pystr) :
  Forall P repl -> Forall P s -> Forall P (re_sub_flags ic pat repl s).
Proof.
  intros Hr Hs. unfold re_sub_flags.
  destruct (re_compile pat); [by apply sub_from_Forall|assumption].
Qed.

Lemma remove_suffixes_Forall (P : ascii -> Prop) :
  forall sfx s, Forall P s -> Forall P (Step1.remove_suffixes sfx s).
Proof.
  unfold Step1.remove_suffixes.
  induction sfx as [|p sfx IH]; intros s Hs; [assumption|].
  cbn [fold_left]. apply IH. apply re_sub_Forall; [constructor|assumption].
Qed.

Lemma expand_abbreviations_tame (s : pystr) :
  Forall (fun c => tamec c = true) s ->
  Forall (fun c => tamec c = true) (Step1.expand_abbreviations s).
Proof.
  intros Hs. unfold Step1.expand_abbreviations, Step1.abbreviations.
  cbn [fold_left].
  repeat (apply re_sub_Forall; [apply tame_chars; reflexivity|]).
  exact Hs.
Qed.

Lemma py_upper_tame (s : pystr) :
  "_"%char ∉ s -> Forall (fun c => tamec c = true) (py_upper s).
Proof.
  intros H. unfold py_upper. apply Forall_forall. intros d Hd.
  apply list_elem_of_fmap in Hd as (c & -> & Hc).
  apply upper_char_tamec. intros E. apply H.
  replace "_"%char with c; [assumption|].
  rewrite <- (ascii_nat_embedding c). unfold code in E. by rewrite E.
Qed.

(** ** The cleaning function on its own results *)

Lemma map_blank_kept (s : pystr) :
  Forall (fun c => az09 c || is_space c = true) (map blank_punct s).
Proof.
  induction s as [|c s IH]; constructor; [apply blank_kept|exact IH].
Qed.

(** What the function returns is a cleaned name. *)
Lemma clean_str_normal (x : pystr) :
  "_"%char ∉ x -> normal (Step1.clean_str Step1.suffixes_priority x).
Proof.
  intros Hx. unfold Step1.clean_str. cbv zeta.
  set (s3 := py_replace "'" [] _).
  assert (H3 : Forall (fun c => tamec c = true) s3).
  { subst s3.
    repeat (apply py_replace_Forall; [apply tame_chars; reflexivity|]).
    apply strip_Forall. by apply py_upper_tame. }
  pose proof (tables_free s3) as Hfree.
  assert (H5 : Forall (fun c => tamec c = true)
                 (Step1.remove_suffixes Step1.suffixes_priority
                    (Step1.expand_abbreviations s3))).
  { by apply remove_suffixes_Forall, expand_abbreviations_tame. }
  clearbody s3.
  set (s5 := Step1.remove_suffixes _ _) in *. clearbody s5.
  rewrite step4_map, step5_squeeze.
  repeat split.
  - apply strip_Forall, squeeze_plain, map_blank_kept.
  - apply strip_single, squeeze_single.
  - apply strip_idem.
  - unfold free_of. rewrite words_strip. unfold words.
    rewrite words_squeeze by done. rewrite words_blank by assumption.
    exact Hfree.
Qed.

Ltac unchanged W tail y :=
  rewrite (re_sub_word_id _ _ _ (lit W) tail y);
  [ | reflexivity | reflexivity | ((by left) || (by right))
    | assumption | assumption ].

Ltac undotted W tail y :=
  rewrite (re_sub_absent_id _ _ _ (lit W) tail "."%char y);
  [ | reflexivity | apply list_elem_of_In; right; left; reflexivity
    | apply tame_chars; reflexivity | assumption | assumption ].

(** On a cleaned name every step of the function finds nothing to do. *)
Lemma clean_str_fixed (y : pystr) :
  normal y -> Step1.clean_str Step1.suffixes_priority y = y.
Proof.
  intros (Hp & Hs & Hst & Hf).
  assert (Ht : Forall (fun c => tamec c = true) y).
  { eapply Forall_impl; [exact Hp|]. apply plain_tame. }
  assert (Hdot : "."%char ∉ y) by (by apply plain_absent).
  unfold Step1.clean_str. cbv zeta.
  rewrite (py_upper_id y Hp), Hst.
  rewrite (py_replace_id "&" _ y) by (by apply plain_absent).
  rewrite (py_replace_id "-" _ y) by (by apply plain_absent).
  rewrite (py_replace_id "'" _ y) by (by apply plain_absent).
  unfold free_of, forbidden in Hf.
  repeat match type of Hf with
         | Forall _ (_ :: _) =>
             let H := fresh "Hw" in apply Forall_cons in Hf as [H Hf]
         end.
  clear Hf.
  assert (E2 : Step1.expand_abbreviations y = y).
  { unfold Step1.expand_abbreviations, Step1.abbreviations.
    cbn [fold_left]. unfold re_sub.
    unchanged "INTL" [Bnd] y. unchanged "NATL" [Bnd] y.
    unchanged "CORP" [Bnd] y. unchanged "INC" [Bnd] y.
    unchanged "MFG" [Bnd] y. unchanged "TECH" [Bnd] y.
    unchanged "SYS" [Bnd] y. reflexivity. }
  assert (E3 : Step1.remove_suffixes Step1.suffixes_priority y = y).
  { unfold Step1.remove_suffixes, Step1.suffixes_priority.
    cbn [fold_left]. unfold re_sub_i.
    unchanged "INCORPORATED" [Bnd] y. unchanged "CORPORATION" [Bnd] y.
    unchanged "COMPANY" [Bnd] y. unchanged "LIMITED" [Bnd] y.
    unchanged "GROUP" [Bnd] y.
    unchanged "CORP" [Opt (CChr "."); Bnd] y.
    unchanged "INC" [Opt (CChr "."); Bnd] y.
    unchanged "LTD" [Opt (CChr "."); Bnd] y.
    unchanged "CO" [Opt (CChr "."); Bnd] y.
    undotted "L.L.C" [Opt (CChr "."); Bnd] y.
    unchanged "PLC" [Opt (CChr "."); Bnd] y.
    unchanged "LLC" [Bnd] y.
    undotted "S.A." [Bnd] y.
    unchanged "NV" [Bnd] y. unchanged "GMBH" [Bnd] y.
    unchanged "SA" [Bnd] y. unchanged "AG" [Bnd] y.
    unchanged "KK" [Bnd] y. reflexivity. }
  rewrite E2, E3, step4_map, (blank_id y Hp), step5_squeeze.
  rewrite squeeze_id by done. exact Hst.
Qed.

(** C2, as stated, fails.  The underscore is a word character for [\b] but is
    turned into a blank by step 4: in ['_INC'] the suffix is not at a word
    boundary and survives the first cleaning, which returns ['INC']; the
    second cleaning removes it and returns the empty string. *)
Lemma clean_company_name_not_idempotent :
  Step1.clean_company_name (CStr (lit "_INC")) = lit "INC"
  /\ Step1.clean_company_name (CStr (lit "INC")) = []
  /\ Step1.clean_company_name
       (CStr (Step1.clean_company_name (CStr (lit "_INC"))))
     <> Step1.clean_company_name (CStr (lit "_INC")).
Proof. vm_compute. repeat split; discriminate. Qed.

(** C2, amended.  For every ASCII string [x] without an underscore,
    [clean_company_name(clean_company_name(x)) == clean_company_name(x)]:
    the first cleaning returns upper-case letters and digits in words
    separated by single blanks, none of them a word of the abbreviation or
    suffix tables, and on such a string every step of the function is the
    identity.  (The embedding covers the ASCII range, hence [ascii_only].) *)
Theorem clean_company_name_idempotent (x : pystr) :
  ascii_only x -> "_"%char ∉ x ->
  Step1.clean_company_name (CStr (Step1.clean_company_name (CStr x)))
  = Step1.clean_company_name (CStr x).
Proof.
  intros _ Hx. cbn [Step1.clean_company_name isna is_str negb orb].
  apply clean_str_fixed, clean_str_normal, Hx.
Qed.

Lemma clean_company_name_idempotent_witness :
  Step1.clean_company_name
    (CStr (Step1.clean_company_name (CStr (lit "Acme Intl Corp. & Co"))))
  = Step1.clean_company_name (CStr (lit "Acme Intl Corp. & Co")).
Proof.
  apply (clean_company_name_idempotent (lit "Acme Intl Corp. & Co")).
  - reflexivity.
  - apply (bool_decide_unpack _). vm_compute. exact I.
Defined.

(** * Further properties of the code *)

(** ** The cleaning function: what its results look like *)

Lemma strip_margins (y : pystr) :
  py_strip y = y ->
  match head y with Some c => is_space c = false | None => True end
  /\ match last y with Some c => is_space c = false | None => True end.
Proof.
  intros E. split.
  - pose proof (lstrip_head y) as Hh.
    destruct (rstrip_split (lstrip y)) as (sp & E' & _).
    unfold py_strip in E. rewrite E in E'. rewrite E' in Hh.
    by destruct y.
  - unfold py_strip, rstrip in E.
    pose proof (lstrip_head (rev (lstrip y))) as Hh.
    assert (Hl : forall l : pystr, last (rev l) = head l).
    { intros [|a l]; [done|]. simpl. by rewrite last_snoc. }
    replace (last y) with (head (lstrip (rev (lstrip y))))
      by (rewrite <- Hl; by rewrite E).
    by destruct (lstrip (rev (lstrip y))).
Qed.

Lemma clean_str_shape (sfx : list string) (x : pystr) :
  let y := Step1.clean_str sfx x in
  Forall (fun c => plain c = true) y /\ single_spaced y /\ py_strip y = y.
Proof.
  unfold Step1.clean_str. cbv zeta.
  rewrite step4_map, step5_squeeze. repeat split.
  - apply strip_Forall, squeeze_plain, map_blank_kept.
  - apply strip_single, squeeze_single.
  - apply strip_idem.
Qed.

Lemma clean_str_well_shaped (sfx : list string) (x : pystr) :
  well_shaped (Step1.clean_str sfx x).
Proof.
  destruct (clean_str_shape sfx x) as (H1 & H2 & H3).
  destruct (strip_margins _ H3) as [Hh Hl].
  repeat split; [assumption|assumption| |].
  - intros E. rewrite E in Hh. discriminate.
  - intros E. rewrite E in Hl. discriminate.
Qed.

(** X1.  Whatever text is cleaned, by the function of step 1 or by its copy
    in step 4A, the result holds only upper-case letters, digits and blanks,
    never two blanks in a row and no blank at either end. *)
Theorem clean_company_name_well_shaped (x : pystr) :
  ascii_only x ->
  well_shaped (Step1.clean_company_name (CStr x))
  /\ well_shaped (Step4A.clean_company_name (CStr x)).
Proof.
  intros _. split; apply clean_str_well_shaped.
Qed.

Lemma clean_company_name_well_shaped_witness :
  well_shaped (Step1.clean_company_name (CStr (lit "  acme_co.,  ltd ")))
  /\ well_shaped (Step4A.clean_company_name (CStr (lit "  acme_co.,  ltd "))).
Proof.
  apply (clean_company_name_well_shaped (lit "  acme_co.,  ltd ")).
  reflexivity.
Defined.

(** X2.  Cleaning an ASCII text without underscore leaves none of the words
    of the abbreviation and suffix tables (INC, CORP, LTD, COMPANY, ...) as a
    word of the result. *)
Theorem clean_company_name_drops_table_words (x : pystr) :
  ascii_only x -> "_"%char ∉ x ->
  Forall (fun w => w ∉ words (Step1.clean_company_name (CStr x))) forbidden.
Proof.
  intros _ Hx. by destruct (clean_str_normal x Hx) as (_ & _ & _ & H).
Qed.

Lemma clean_company_name_drops_table_words_witness :
  Forall (fun w =>
            w ∉ words (Step1.clean_company_name
                         (CStr (lit "Acme Intl Holding Co., Inc."))))
         forbidden.
Proof.
  apply (clean_company_name_drops_table_words
           (lit "Acme Intl Holding Co., Inc.")).
  - reflexivity.
  - apply (bool_decide_unpack _). vm_compute. exact I.
Defined.
(** ** The cleaning function: what it does not look at *)

Lemma upper_upper (c : ascii) : upper_char (upper_char c) = upper_char c.
Proof. all_chars c; reflexivity. Qed.

Lemma upper_of_lower (c : ascii) : upper_char (lower_char c) = upper_char c.
Proof. all_chars c; reflexivity. Qed.

Lemma space_upper (c : ascii) : is_space (upper_char c) = is_space c.
Proof. all_chars c; reflexivity. Qed.

Lemma lstrip_map (f : ascii -> ascii) (s : pystr) :
  (forall c, is_space (f c) = is_space c) ->
  lstrip (map f s) = map f (lstrip s).
Proof.
  intros Hf. induction s as [|c s IH]; [reflexivity|].
  cbn [map lstrip]. rewrite Hf. by destruct (is_space c).
Qed.

Lemma strip_map (f : ascii -> ascii) (s : pystr) :
  (forall c, is_space (f c) = is_space c) ->
  py_strip (map f s) = map f (py_strip s).
Proof.
  intros Hf. unfold py_strip, rstrip.
  by rewrite (lstrip_map f s Hf), <- List.map_rev, (lstrip_map f _ Hf),
    List.map_rev.
Qed.

Lemma clean_str_ext (sfx : list string) (a b : pystr) :
  py_strip (py_upper a) = py_strip (py_upper b) ->
  Step1.clean_str sfx a = Step1.clean_str sfx b.
Proof. intros E. unfold Step1.clean_str. cbv zeta. by rewrite E. Qed.

(** X3.  The cleaning function does not look at letter case nor at white
    space around the text: a name, the name in upper case, in lower case and
    with the surrounding white space removed all clean to the same string. *)
Theorem clean_company_name_ignores_case_and_margins (x : pystr) :
  ascii_only x ->
  Step1.clean_company_name (CStr (py_upper x))
  = Step1.clean_company_name (CStr x)
  /\ Step1.clean_company_name (CStr (map lower_char x))
     = Step1.clean_company_name (CStr x)
  /\ Step1.clean_company_name (CStr (py_strip x))
     = Step1.clean_company_name (CStr x).
Proof.
  intros _. repeat split; apply clean_str_ext; unfold py_upper.
  - rewrite map_map. f_equal. apply map_ext. intros c. apply upper_upper.
  - rewrite map_map. f_equal. apply map_ext. intros c. apply upper_of_lower.
  - rewrite <- (strip_map upper_char x space_upper). apply strip_idem.
Qed.

Lemma clean_company_name_ignores_case_and_margins_witness :
  Step1.clean_company_name (CStr (py_upper (lit " Acme Tech ")))
  = Step1.clean_company_name (CStr (lit " Acme Tech "))
  /\ Step1.clean_company_name (CStr (map lower_char (lit " Acme Tech ")))
     = Step1.clean_company_name (CStr (lit " Acme Tech "))
  /\ Step1.clean_company_name (CStr (py_strip (lit " Acme Tech ")))
     = Step1.clean_company_name (CStr (lit " Acme Tech ")).
Proof.
  apply (clean_company_name_ignores_case_and_margins (lit " Acme Tech ")).
  reflexivity.
Defined.

(** ** The two copies of the cleaning function on names without a full stop *)

Lemma dot_match (ic : bool) (d : ascii) :
  cset_match ic (CChr ".") d = true -> d = "."%char.
Proof. destruct ic; all_chars d; intros H; (reflexivity || discriminate). Qed.

Lemma dot_second_no_match (ic : bool) (a : cset) (re : regex) :
  forall s prev,
    "."%char ∉ s ->
    no_match ic (Bnd :: One a :: One (CChr ".") :: re) prev s.
Proof.
  assert (Hhere : forall s prev,
             "."%char ∉ s ->
             match_here ic (Bnd :: One a :: One (CChr ".") :: re) prev s
             = None).
  { intros s prev Hs. cbn [match_here].
    destruct (xorb (word_before prev) (word_after s)); [|reflexivity].
    destruct s as [|d1 [|d2 s]]; [reflexivity| |].
    - by destruct (cset_match ic a d1).
    - destruct (cset_match ic a d1); [|reflexivity].
      destruct (cset_match ic (CChr ".") d2) eqn:E; [|reflexivity].
      apply dot_match in E. subst d2. exfalso. apply Hs. right. left. }
  induction s as [|c s IH]; intros prev Hs;
    (split; [by apply Hhere|]); [exact I|].
  apply IH. intros Hin. apply Hs. by right.
Qed.

Lemma upper_not_dot (c : ascii) : c <> "."%char -> upper_char c <> "."%char.
Proof. all_chars c; intros H; (discriminate || done). Qed.

Lemma expand_abbreviations_Forall (P : ascii -> Prop) (s : pystr) :
  (forall c, is_upper c = true -> P c) ->
  Forall P s -> Forall P (Step1.expand_abbreviations s).
Proof.
  intros HP Hs. unfold Step1.expand_abbreviations, Step1.abbreviations.
  cbn [fold_left].
  repeat (apply re_sub_Forall;
          [repeat (constructor; [by apply HP|]); constructor|]).
  exact Hs.
Qed.

(** X4.  The copy of the cleaning function in step 4A returns what the
    function of step 1 returns on every name that holds no full stop. *)
Theorem clean_company_name_copies_agree_without_dot (x : pystr) :
  ascii_only x -> "."%char ∉ x ->
  Step4A.clean_company_name (CStr x) = Step1.clean_company_name (CStr x).
Proof.
  intros _ Hx.
  cbn [Step4A.clean_company_name Step1.clean_company_name isna is_str negb orb].
  unfold Step1.clean_str. cbv zeta.
  set (s4 := Step1.expand_abbreviations _).
  assert (H4 : Forall (fun c => c <> "."%char) s4).
  { subst s4. apply expand_abbreviations_Forall.
    { intros c Hc ->. discriminate. }
    repeat (apply py_replace_Forall;
            [repeat (constructor; [discriminate|]); constructor|]).
    apply strip_Forall. unfold py_upper. apply Forall_forall. intros d Hd.
    apply list_elem_of_fmap in Hd as (c & -> & Hc).
    apply upper_not_dot. intros ->. by apply Hx. }
  clearbody s4.
  change Step4A.suffixes_priority
    with (take 12 Step1.suffixes_priority
            ++ ["\bS\.A\\.b"%string] ++ drop 13 Step1.suffixes_priority).
  rewrite <- (take_drop 12 Step1.suffixes_priority) at 3.
  change (drop 12 Step1.suffixes_priority)
    with (["\bS\.A\.\b"%string] ++ drop 13 Step1.suffixes_priority).
  unfold Step1.remove_suffixes. rewrite !fold_left_app.
  fold (Step1.remove_suffixes (take 12 Step1.suffixes_priority) s4).
  set (t := Step1.remove_suffixes _ s4).
  assert (Ht : "."%char ∉ t).
  { assert (H : Forall (fun c => c <> "."%char) t)
      by (by apply remove_suffixes_Forall).
    rewrite Forall_forall in H. intros Hin. by apply (H _ Hin). }
  clearbody t. f_equal. cbn [fold_left]. unfold re_sub_i.
  rewrite (re_sub_id true "\bS\.A\\.b" [] _ t eq_refl)
    by (by apply dot_second_no_match).
  rewrite (re_sub_id true "\bS\.A\.\b" [] _ t eq_refl)
    by (by apply dot_second_no_match).
  reflexivity.
Qed.

Lemma clean_company_name_copies_agree_without_dot_witness :
  Step4A.clean_company_name (CStr (lit "Acme SA & Co"))
  = Step1.clean_company_name (CStr (lit "Acme SA & Co")).
Proof.
  apply (clean_company_name_copies_agree_without_dot (lit "Acme SA & Co")).
  - reflexivity.
  - apply (bool_decide_unpack _). vm_compute. exact I.
Defined.

(** ** Tiered matching: when it fails, and what the worker pool changes *)

Section PerformMatching.

Variable token_set_ratio : pystr -> pystr -> Qc.
Variable cpu_count : nat.
Variable acquiror_clean_set : gset pystr.
Variable acquiror_clean_list : list pystr.

Let perform := Matching.perform_matching token_set_ratio cpu_count
                 acquiror_clean_set acquiror_clean_list.

Lemma batches_concat (t : Qc) (tier_name : pystr)
  (chunks : list (list Matching.summary_row)) :
  concat (map (fun chunk =>
                 Matching.fuzzy_match_batch token_set_ratio
                   acquiror_clean_list chunk t tier_name) chunks)
  = flat_map (Matching.fuzzy_candidate token_set_ratio acquiror_clean_list
                t tier_name) (concat chunks).
Proof.
  induction chunks as [|ch chunks IH]; simpl; [reflexivity|].
  rewrite flat_map_app, IH. f_equal.
  unfold Matching.fuzzy_match_batch. by rewrite fold_app_flat_map.
Qed.

Lemma perform_matching_spec (df_target : list Matching.summary_row)
  (tier_name : pystr) (fuzzy_threshold : option Qc) (use_parallel : bool) :
  perform df_target tier_name fuzzy_threshold use_parallel
  = let U := unmatched acquiror_clean_set df_target in
    let strict_res :=
      map (strict_candidate tier_name)
          (List.filter
             (fun row => bool_decide
                           (Matching.clean_name row ∈ acquiror_clean_set))
             df_target) in
    match fuzzy_threshold with
    | Some t =>
        if use_parallel && (100 <? length U) && (cpu_count <=? 1) then None
        else Some (strict_res,
                   flat_map (Matching.fuzzy_candidate token_set_ratio
                               acquiror_clean_list t tier_name) U)
    | None => Some (strict_res, [])
    end.
Proof.
  unfold perform, Matching.perform_matching. rewrite strict_fold.
  cbn [fst snd app]. cbv zeta. fold (unmatched acquiror_clean_set df_target).
  set (U := unmatched acquiror_clean_set df_target).
  assert (Es : flat_map
                 (fun row =>
                    if bool_decide (Matching.clean_name row ∈ acquiror_clean_set)
                    then [Matching.mkCandidate (Matching.assignee row)
                            (Matching.clean_name row) (Matching.clean_name row)
                            Matching.Strict Matching.hundred tier_name]
                    else []) df_target
               = map (strict_candidate tier_name)
                   (List.filter
                      (fun row => bool_decide
                         (Matching.clean_name row ∈ acquiror_clean_set))
                      df_target)).
  { induction df_target as [|row df IH]; [reflexivity|]. simpl.
    rewrite IH. by destruct (bool_decide _). }
  rewrite Es. clear Es.
  destruct fuzzy_threshold as [t|]; [|reflexivity].
  destruct U as [|u U'] eqn:EU; [by rewrite andb_false_r|]. rewrite <- EU.
  destruct (use_parallel && (100 <? length U)) eqn:Epar; cbn [andb].
  - destruct (cpu_count <=? 1) eqn:Ecpu.
    + apply Nat.leb_le in Ecpu.
      replace (Nat.min (cpu_count - 1) 4) with 0 by lia. reflexivity.
    + apply Nat.leb_gt in Ecpu.
      destruct (array_split_concat U (Nat.min (cpu_count - 1) 4))
        as (chunks & Hsplit & Hconcat); [lia|].
      rewrite Hsplit. cbn [mbind option_bind]. do 2 f_equal.
      rewrite fold_app_concat. cbn [app].
      by rewrite batches_concat, Hconcat.
  - do 2 f_equal. by rewrite fold_app_flat_map.
Qed.

(** X5.  [perform_matching] fails in one situation only: the parallel
    branch is taken (parallel mode asked for, a fuzzy threshold given, more
    than 100 rows left over by the strict pass) on a host with a single CPU,
    where the worker pool would have no worker.  In every other situation
    it returns its two lists. *)
Theorem perform_matching_fails_iff (df_target : list Matching.summary_row)
  (tier_name : pystr) (fuzzy_threshold : option Qc) (use_parallel : bool) :
  perform df_target tier_name fuzzy_threshold use_parallel = None
  <-> use_parallel = true
      /\ is_Some fuzzy_threshold
      /\ 100 < length (unmatched acquiror_clean_set df_target)
      /\ cpu_count <= 1.
Proof.
  rewrite perform_matching_spec. cbv zeta.
  destruct fuzzy_threshold as [t|].
  - destruct use_parallel; cbn [andb].
    + destruct (100 <? length _) eqn:E1; cbn [andb].
      * apply Nat.ltb_lt in E1. destruct (cpu_count <=? 1) eqn:E2.
        -- apply Nat.leb_le in E2. split; [|done]. intros _. eauto.
        -- apply Nat.leb_gt in E2. split; [done|]. intros (_ & _ & _ & ?). lia.
      * apply Nat.ltb_ge in E1. split; [done|]. intros (_ & _ & ? & _). lia.
    + split; [done|]. by intros [? _].
  - split; [done|]. intros (_ & [? ?] & _). discriminate.
Qed.

(** X6.  With at least two CPUs the worker pool changes nothing: the
    parallel and the serial mode of [perform_matching] return the same strict
    and the same fuzzy matches, in the same order. *)
Theorem perform_matching_parallel_serial
  (df_target : list Matching.summary_row) (tier_name : pystr)
  (fuzzy_threshold : option Qc) :
  2 <= cpu_count ->
  perform df_target tier_name fuzzy_threshold true
  = perform df_target tier_name fuzzy_threshold false.
Proof.
  intros Hcpu. rewrite !perform_matching_spec. cbv zeta.
  destruct fuzzy_threshold as [t|]; [|reflexivity].
  replace (cpu_count <=? 1) with false
    by (symmetry; apply Nat.leb_gt; lia).
  by rewrite !andb_false_r.
Qed.

End PerformMatching.
(** ** The three tiers *)

Lemma filter_split_perm {A} (p q : A -> bool) (l : list A) :
  (forall x, q x = negb (p x)) ->
  List.filter p l ++ List.filter q l ≡ₚ l.
Proof.
  intros Hq. induction l as [|x l IH]; [reflexivity|].
  simpl. rewrite Hq. destruct (p x); simpl.
  - by rewrite IH.
  - rewrite <- Permutation_middle. by rewrite IH.
Qed.

Lemma tiers_perm (df_summary : list Matching.summary_row) :
  let '(df_tier1, df_tier2, df_tier3) := Matching.tiers df_summary in
  df_tier1 ++ df_tier2 ++ df_tier3 ≡ₚ df_summary.
Proof.
  unfold Matching.tiers. cbv zeta. rewrite filter_split_perm.
  - by rewrite take_drop.
  - intros x. apply Nat.leb_antisym.
Qed.

(** X7.  The three tiers split the summary: tier 1 is its first
    [len // 20] rows (none when there are fewer than 20), tiers 2 and 3 share
    the rest by patent count (more than 5, at most 5), and together the tiers
    hold every row once. *)
Theorem tiers_partition (df_summary : list Matching.summary_row) :
  let '(df_tier1, df_tier2, df_tier3) := Matching.tiers df_summary in
  df_tier1 = take (length df_summary / 20) df_summary
  /\ df_tier1 ++ df_tier2 ++ df_tier3 ≡ₚ df_summary
  /\ Forall (fun r => 5 < Matching.patent_count r) df_tier2
  /\ Forall (fun r => Matching.patent_count r <= 5) df_tier3
  /\ (length df_summary < 20 -> df_tier1 = []).
Proof.
  pose proof (tiers_perm df_summary) as Hperm.
  unfold Matching.tiers in *. cbv zeta in *. repeat split.
  - exact Hperm.
  - apply Forall_forall. intros r Hr.
    apply list_elem_of_In, filter_In in Hr as [_ Hr]. by apply Nat.ltb_lt.
  - apply Forall_forall. intros r Hr.
    apply list_elem_of_In, filter_In in Hr as [_ Hr]. by apply Nat.leb_le.
  - intros Hlt. by rewrite Nat.div_small.
Qed.

(** ** Where the matches of the three tiers go *)

Section Routing.

Variable token_set_ratio : pystr -> pystr -> Qc.
Variable cpu_count : nat.
Variable acquiror_clean_set : gset pystr.
Variable acquiror_clean_list : list pystr.
Hypothesis ratio_le_100 :
  forall q c, (token_set_ratio q c <= Matching.hundred)%Qc.

Lemma fuzzy_candidate_ok (t : Qc) (tier_name : pystr)
  (row : Matching.summary_row) (c : Matching.MatchCandidate) :
  c ∈ Matching.fuzzy_candidate token_set_ratio acquiror_clean_list t
        tier_name row ->
  Matching.Assignee_Original c = Matching.assignee row
  /\ Matching.Assignee_Clean c = Matching.clean_name row
  /\ Matching.Matched_Acquiror_Clean c ∈ acquiror_clean_list
  /\ Matching.Match_Type c = Matching.Fuzzy t
  /\ Matching.Tier c = tier_name
  /\ (t <= Matching.Similarity c)%Qc
  /\ (Matching.Similarity c <= Matching.hundred)%Qc.
Proof.
  unfold Matching.fuzzy_candidate.
  destruct (Matching.extractOne _ _ _ _) as [[[m s] i]|] eqn:E.
  - intros ->%list_elem_of_singleton.
    apply (extractOne_ok token_set_ratio ratio_le_100) in E as (? & ? & ?).
    by repeat split.
  - by intros ?%elem_of_nil.
Qed.

Lemma fuzzy_candidate_length (t : Qc) (tier_name : pystr)
  (U : list Matching.summary_row) :
  length (flat_map (Matching.fuzzy_candidate token_set_ratio
                      acquiror_clean_list t tier_name) U) <= length U.
Proof.
  induction U as [|row U IH]; [done|]. simpl. rewrite length_app.
  unfold Matching.fuzzy_candidate at 1.
  destruct (Matching.extractOne _ _ _ _) as [[[m s] i]|]; simpl; lia.
Qed.

Lemma hits_unmatched_length (df : list Matching.summary_row) :
  length (List.filter
            (fun row => bool_decide
                          (Matching.clean_name row ∈ acquiror_clean_set)) df)
  + length (unmatched acquiror_clean_set df) = length df.
Proof.
  rewrite <- length_app. apply Permutation_length.
  by apply filter_split_perm.
Qed.

Lemma strict_candidate_ok (tier_name : pystr)
  (df : list Matching.summary_row) (c : Matching.MatchCandidate) :
  c ∈ map (strict_candidate tier_name)
        (List.filter
           (fun row => bool_decide
                         (Matching.clean_name row ∈ acquiror_clean_set)) df) ->
  Matching.Match_Type c = Matching.Strict
  /\ Matching.Similarity c = Matching.hundred
  /\ Matching.Matched_Acquiror_Clean c = Matching.Assignee_Clean c
  /\ Matching.Assignee_Clean c ∈ acquiror_clean_set
  /\ Matching.Tier c = tier_name.
Proof.
  intros (row & -> & Hrow)%list_elem_of_fmap.
  apply list_elem_of_In, filter_In in Hrow as [_ Hrow].
  apply bool_decide_eq_true in Hrow. by repeat split.
Qed.

(** X8.  What [main] accepts without review is a strict hit of tier 2 or
    3: its matched name is its own cleaned name, is in the registry's set,
    and its similarity is 100.  Every other match goes to review: all of
    tier 1, and the fuzzy matches of tier 2, which have similarity 100
    exactly.  Tier 3 gives no fuzzy match, and no row gives two matches. *)
Theorem run_tiers_routing (df_summary : list Matching.summary_row)
  (review auto : list Matching.MatchCandidate) :
  Matching.run_tiers token_set_ratio cpu_count acquiror_clean_set
    acquiror_clean_list df_summary = Some (review, auto) ->
  Forall (fun c =>
            Matching.Match_Type c = Matching.Strict
            /\ Matching.Similarity c = Matching.hundred
            /\ Matching.Matched_Acquiror_Clean c = Matching.Assignee_Clean c
            /\ Matching.Assignee_Clean c ∈ acquiror_clean_set
            /\ (Matching.Tier c = lit "Tier 2"
                \/ Matching.Tier c = lit "Tier 3")) auto
  /\ Forall (fun c =>
               Matching.Tier c = lit "Tier 1"
               \/ (Matching.Tier c = lit "Tier 2"
                   /\ Matching.Match_Type c = Matching.Fuzzy (Qc_of_Z 100)
                   /\ Matching.Similarity c = Matching.hundred)) review
  /\ length review + length auto <= length df_summary.
Proof.
  unfold Matching.run_tiers.
  pose proof (tiers_perm df_summary) as Hperm.
  destruct (Matching.tiers df_summary) as [[t1 t2] t3].
  rewrite !perform_matching_spec. cbv zeta.
  destruct (true && (100 <? length (unmatched acquiror_clean_set t1))
            && (cpu_count <=? 1)); [discriminate|].
  cbn [mbind option_bind]. cbv beta iota.
  destruct (true && (100 <? length (unmatched acquiror_clean_set t2))
            && (cpu_count <=? 1)); [discriminate|].
  cbn [mbind option_bind]. cbv beta iota.
  intros E. apply (inj Some), pair_equal_spec in E as [<- <-]. repeat split.
  - apply Forall_app. split; apply Forall_forall; intros c Hc;
      apply strict_candidate_ok in Hc as (? & ? & ? & ? & ?);
      repeat split; auto.
  - rewrite !Forall_app. repeat split; apply Forall_forall; intros c Hc.
    + apply strict_candidate_ok in Hc as (? & ? & ? & ? & ?). by left.
    + apply list_elem_of_In, in_flat_map in Hc as (row & _ & Hc).
      apply list_elem_of_In, fuzzy_candidate_ok in Hc
        as (_ & _ & _ & _ & ? & _). by left.
    + apply list_elem_of_In, in_flat_map in Hc as (row & _ & Hc).
      apply list_elem_of_In, fuzzy_candidate_ok in Hc
        as (_ & _ & _ & ? & ? & Hlo & Hhi).
      right. repeat split; [assumption|assumption|].
      by apply Qcle_antisym.
  - apply Permutation_length in Hperm. rewrite !length_app in *.
    rewrite !length_map.
    pose proof (hits_unmatched_length t1).
    pose proof (hits_unmatched_length t2).
    pose proof (hits_unmatched_length t3).
    pose proof (fuzzy_candidate_length (Qc_of_Z 90) (lit "Tier 1")
                  (unmatched acquiror_clean_set t1)).
    pose proof (fuzzy_candidate_length (Qc_of_Z 100) (lit "Tier 2")
                  (unmatched acquiror_clean_set t2)).
    lia.
Qed.

End Routing.

Lemma perform_matching_parallel_serial_witness :
  Matching.perform_matching exact_ratio 2 {[lit "ACME"]} [lit "ACME"]
    example_summary (lit "Tier 1") (Some (Qc_of_Z 90)) true
  = Matching.perform_matching exact_ratio 2 {[lit "ACME"]} [lit "ACME"]
      example_summary (lit "Tier 1") (Some (Qc_of_Z 90)) false.
Proof.
  apply (perform_matching_parallel_serial exact_ratio 2 {[lit "ACME"]}
           [lit "ACME"] example_summary (lit "Tier 1") (Some (Qc_of_Z 90))).
  lia.
Defined.
Lemma run_tiers_routing_witness :
  let review : list Matching.MatchCandidate := [] in
  let auto :=
    [strict_candidate (lit "Tier 2")
       (Matching.mkSummary (CStr (lit "ACME CORP")) (lit "ACME") 7
          (Qc_of_Z 9))] in
  Forall (fun c =>
            Matching.Match_Type c = Matching.Strict
            /\ Matching.Similarity c = Matching.hundred
            /\ Matching.Matched_Acquiror_Clean c = Matching.Assignee_Clean c
            /\ Matching.Assignee_Clean c ∈ ({[lit "ACME"]} : gset pystr)
            /\ (Matching.Tier c = lit "Tier 2"
                \/ Matching.Tier c = lit "Tier 3")) auto
  /\ Forall (fun c =>
               Matching.Tier c = lit "Tier 1"
               \/ (Matching.Tier c = lit "Tier 2"
                   /\ Matching.Match_Type c = Matching.Fuzzy (Qc_of_Z 100)
                   /\ Matching.Similarity c = Matching.hundred)) review
  /\ length review + length auto <= length example_summary.
Proof.
  apply (run_tiers_routing exact_ratio 2 {[lit "ACME"]} [lit "ACME"]
           exact_ratio_le_100 example_summary).
  vm_compute. reflexivity.
Defined.

(** ** The quality check on the matches of the tiers *)

Lemma submseteq_NoDup {A} (l k : list A) : l ⊆+ k -> NoDup k -> NoDup l.
Proof.
  intros (k' & Hk)%submseteq_Permutation Hdup. rewrite Hk in Hdup.
  by apply NoDup_app in Hdup as [? _].
Qed.

Lemma filter_key_unique (cs : list Matching.MatchCandidate) (k : cell) :
  NoDup (map Matching.Assignee_Original cs) ->
  length (List.filter
            (fun c => bool_decide (Matching.Assignee_Original c = k)) cs)
  <= 1.
Proof.
  induction cs as [|c cs IH]; [simpl; lia|].
  cbn [map]. intros [Hc Hcs]%NoDup_cons. cbn [List.filter].
  case_bool_decide as E; [|by apply IH].
  assert (Hnone : List.filter
                    (fun c => bool_decide (Matching.Assignee_Original c = k))
                    cs = []).
  { destruct (List.filter _ cs) as [|d ds] eqn:Ef; [reflexivity|].
    assert (Hd : In d (List.filter
                (fun c => bool_decide (Matching.Assignee_Original c = k)) cs))
      by (rewrite Ef; by left).
    apply filter_In in Hd as [Hd1 Hd2]. apply bool_decide_eq_true in Hd2.
    exfalso. apply Hc. rewrite E, <- Hd2.
    apply list_elem_of_fmap. exists d. split; [done|by apply list_elem_of_In]. }
  rewrite Hnone. simpl. lia.
Qed.

Lemma remove_dups_length {A} `{EqDecision A} (l : list A) :
  length (remove_dups l) <= length l.
Proof.
  induction l as [|x l IH]; [done|]. simpl.
  destruct (decide_rel _ _ _); simpl; lia.
Qed.

Lemma no_one_to_many (cs : list Matching.MatchCandidate) :
  NoDup (map Matching.Assignee_Original cs) ->
  List.filter (fun k => 1 <? Step1Main.nunique cs k)
              (Step1Main.group_keys cs) = [].
Proof.
  intros Hdup. induction (Step1Main.group_keys cs) as [|k ks IH];
    [reflexivity|].
  cbn [List.filter]. rewrite IH.
  replace (1 <? Step1Main.nunique cs k) with false; [reflexivity|].
  symmetry. apply Nat.ltb_ge. unfold Step1Main.nunique.
  etrans; [apply remove_dups_length|]. rewrite length_map.
  by apply filter_key_unique.
Qed.

Section Quality.

Variable token_set_ratio : pystr -> pystr -> Qc.
Variable cpu_count : nat.
Variable acquiror_clean_set : gset pystr.
Variable acquiror_clean_list : list pystr.
Hypothesis ratio_le_100 :
  forall q c, (token_set_ratio q c <= Matching.hundred)%Qc.

Lemma fuzzy_originals (t : Qc) (tier_name : pystr)
  (U : list Matching.summary_row) :
  map Matching.Assignee_Original
      (flat_map (Matching.fuzzy_candidate token_set_ratio acquiror_clean_list
                   t tier_name) U)
  ⊆+ map Matching.assignee U.
Proof.
  induction U as [|row U IH]; [done|]. cbn [flat_map map].
  rewrite map_app. unfold Matching.fuzzy_candidate at 1.
  destruct (Matching.extractOne _ _ _ _) as [[[m s] i]|]; cbn [map app].
  - by apply submseteq_skip.
  - by apply submseteq_cons.
Qed.

Lemma strict_originals (tier_name : pystr) (df : list Matching.summary_row) :
  map Matching.Assignee_Original (map (strict_candidate tier_name) df)
  = map Matching.assignee df.
Proof. rewrite map_map. by apply map_ext. Qed.

Lemma tier_originals (t : Qc) (tier_name : pystr)
  (df : list Matching.summary_row) :
  map Matching.Assignee_Original
      (map (strict_candidate tier_name)
           (List.filter
              (fun row => bool_decide
                            (Matching.clean_name row ∈ acquiror_clean_set))
              df)
         ++ flat_map (Matching.fuzzy_candidate token_set_ratio
                        acquiror_clean_list t tier_name)
              (unmatched acquiror_clean_set df))
  ⊆+ map Matching.assignee df.
Proof.
  rewrite map_app, strict_originals.
  rewrite <- (filter_split_perm
                (fun row => bool_decide
                              (Matching.clean_name row ∈ acquiror_clean_set))
                (fun row => negb (bool_decide
                              (Matching.clean_name row ∈ acquiror_clean_set)))
                df) at 3 by done.
  rewrite map_app. apply submseteq_skips_l. apply fuzzy_originals.
Qed.

Lemma run_tiers_originals (df_summary : list Matching.summary_row)
  (review auto : list Matching.MatchCandidate) :
  Matching.run_tiers token_set_ratio cpu_count acquiror_clean_set
    acquiror_clean_list df_summary = Some (review, auto) ->
  map Matching.Assignee_Original (review ++ auto)
  ⊆+ map Matching.assignee df_summary.
Proof.
  unfold Matching.run_tiers.
  pose proof (tiers_perm df_summary) as Hperm.
  destruct (Matching.tiers df_summary) as [[t1 t2] t3].
  rewrite !perform_matching_spec. cbv zeta.
  destruct (true && (100 <? length (unmatched acquiror_clean_set t1))
            && (cpu_count <=? 1)); [discriminate|].
  cbn [mbind option_bind]. cbv beta iota.
  destruct (true && (100 <? length (unmatched acquiror_clean_set t2))
            && (cpu_count <=? 1)); [discriminate|].
  cbn [mbind option_bind]. cbv beta iota.
  intros E. apply (inj Some), pair_equal_spec in E as [<- <-].
  rewrite <- Hperm. rewrite !map_app.
  pose proof (tier_originals (Qc_of_Z 90) (lit "Tier 1") t1) as H1.
  pose proof (tier_originals (Qc_of_Z 100) (lit "Tier 2") t2) as H2.
  rewrite map_app in H1, H2.
  set (S1 := map Matching.Assignee_Original (map _ (List.filter _ t1))) in *.
  set (F1 := map Matching.Assignee_Original (flat_map _ (unmatched _ t1))) in *.
  set (S2 := map Matching.Assignee_Original (map _ (List.filter _ t2))) in *.
  set (F2 := map Matching.Assignee_Original (flat_map _ (unmatched _ t2))) in *.
  set (S3 := map Matching.Assignee_Original (map _ (List.filter _ t3))).
  assert (H3 : S3 ⊆+ map Matching.assignee t3).
  { subst S3. rewrite strict_originals. apply sublist_submseteq.
    clear. induction t3 as [|r t3 IH]; [constructor|]. simpl.
    destruct (bool_decide _); simpl; by constructor. }
  clearbody S1 F1 S2 F2 S3.
  assert (Hp : S1 ++ F1 ++ F2 ++ S2 ++ S3 ≡ₚ (S1 ++ F1) ++ (S2 ++ F2) ++ S3).
  { rewrite <- !app_assoc. do 2 f_equiv. rewrite !app_assoc. f_equiv.
    apply Permutation_app_comm. }
  rewrite <- !app_assoc in Hp |- *. rewrite Hp. rewrite !app_assoc.
  rewrite <- (app_assoc (S1 ++ F1)).
  repeat apply submseteq_app; rewrite <- ?app_assoc; assumption.
Qed.

(** X9.  [validate_matches] on the matches of the three tiers: when the
    summary holds every original name once, no original name has matches
    with two registry names, so the one-to-many check never fires and the
    key [one_to_many] is not set. *)
Theorem validate_matches_no_one_to_many {D : Type} (describe : list Qc -> D)
  (df_summary : list Matching.summary_row)
  (review auto : list Matching.MatchCandidate) :
  NoDup (map Matching.assignee df_summary) ->
  Matching.run_tiers token_set_ratio cpu_count acquiror_clean_set
    acquiror_clean_list df_summary = Some (review, auto) ->
  let '(issues, stats) :=
    Step1Main.validate_matches describe (review ++ auto) in
  (forall n, Step1Main.OneToMany n ∉ issues)
  /\ Step1Main.one_to_many stats = None.
Proof.
  intros Hdup Hrun.
  assert (Hnd : NoDup (map Matching.Assignee_Original (review ++ auto))).
  { eapply submseteq_NoDup; [by eapply run_tiers_originals|exact Hdup]. }
  unfold Step1Main.validate_matches.
  destruct (review ++ auto) as [|c cs] eqn:E.
  - split; [|reflexivity]. intros n Hn. by apply elem_of_nil in Hn.
  - clear E. cbv beta iota zeta. rewrite (no_one_to_many _ Hnd). cbn [length].
    change (0 <? 0) with false. cbv iota. cbn [app]. split; [|reflexivity].
    intros n Hn. apply elem_of_app in Hn as [Hn|Hn].
    + destruct (0 <? _); [|by apply elem_of_nil in Hn].
      apply list_elem_of_singleton in Hn. discriminate.
    + destruct (0 <? _); [|by apply elem_of_nil in Hn].
      apply list_elem_of_singleton in Hn. discriminate.
Qed.

End Quality.
Lemma validate_matches_no_one_to_many_witness :
  let '(issues, stats) :=
    Step1Main.validate_matches (fun l : list Qc => length l)
      ([] ++ [strict_candidate (lit "Tier 2")
                (Matching.mkSummary (CStr (lit "ACME CORP")) (lit "ACME") 7
                   (Qc_of_Z 9))]) in
  (forall n, Step1Main.OneToMany n ∉ issues)
  /\ Step1Main.one_to_many stats = None.
Proof.
  apply (validate_matches_no_one_to_many exact_ratio 2 {[lit "ACME"]}
           [lit "ACME"] (fun l : list Qc => length l) example_summary).
  - apply (bool_decide_unpack _). vm_compute. exact I.
  - vm_compute. reflexivity.
Defined.

(** ** The original name written beside a match *)

Lemma filter_head_first {A} (p : A -> bool) (l : list A) (a : A)
  (rest : list A) :
  List.filter p l = a :: rest ->
  exists i, l !! i = Some a /\ p a = true
            /\ forall j b, j < i -> l !! j = Some b -> p b = false.
Proof.
  induction l as [|x l IH]; [discriminate|]. cbn [List.filter].
  destruct (p x) eqn:Ex.
  - intros [= -> _]. exists 0. repeat split; [assumption|]. intros j b Hj. lia.
  - intros (i & Hi & Hp & Hfirst)%IH. exists (S i).
    repeat split; [assumption|assumption|].
    intros [|j] b Hj Hb.
    + by injection Hb as <-.
    + apply (Hfirst j); [lia|assumption].
Qed.

Lemma filter_nil_none {A} (p : A -> bool) (l : list A) (a : A) :
  List.filter p l = [] -> a ∈ l -> p a = false.
Proof.
  intros E Ha. destruct (p a) eqn:Ep; [|reflexivity].
  assert (Hf : In a (List.filter p l))
    by (apply filter_In; split; [by apply list_elem_of_In|assumption]).
  rewrite E in Hf. destruct Hf.
Qed.

Section ExportedNames.

Variable token_set_ratio : pystr -> pystr -> Qc.
Variable cpu_count : nat.
Variable df_main : list cell.
Variable acquiror_clean_list : list pystr.
Hypothesis ratio_le_100 :
  forall q c, (token_set_ratio q c <= Matching.hundred)%Qc.
Hypothesis list_of_set :
  forall x, x ∈ acquiror_clean_list ->
            x ∈ Step1Main.acquiror_clean_set df_main.

Lemma run_tiers_matched (acquiror_clean_set : gset pystr)
  (df_summary : list Matching.summary_row)
  (review auto : list Matching.MatchCandidate) :
  Matching.run_tiers token_set_ratio cpu_count acquiror_clean_set
    acquiror_clean_list df_summary = Some (review, auto) ->
  Forall (fun c =>
            Matching.Matched_Acquiror_Clean c ∈ acquiror_clean_set
            \/ Matching.Matched_Acquiror_Clean c ∈ acquiror_clean_list)
         (review ++ auto).
Proof.
  unfold Matching.run_tiers.
  destruct (Matching.tiers df_summary) as [[t1 t2] t3].
  rewrite !perform_matching_spec. cbv zeta.
  destruct (true && (100 <? length (unmatched acquiror_clean_set t1))
            && (cpu_count <=? 1)); [discriminate|].
  cbn [mbind option_bind]. cbv beta iota.
  destruct (true && (100 <? length (unmatched acquiror_clean_set t2))
            && (cpu_count <=? 1)); [discriminate|].
  cbn [mbind option_bind]. cbv beta iota.
  intros E. apply (inj Some), pair_equal_spec in E as [<- <-].
  rewrite !Forall_app. repeat split; apply Forall_forall; intros c Hc.
  - apply strict_candidate_ok in Hc as (_ & _ & -> & ? & _). by left.
  - apply list_elem_of_In, in_flat_map in Hc as (row & _ & Hc).
    apply list_elem_of_In, (fuzzy_candidate_ok _ _ ratio_le_100) in Hc
      as (_ & _ & ? & _). by right.
  - apply list_elem_of_In, in_flat_map in Hc as (row & _ & Hc).
    apply list_elem_of_In, (fuzzy_candidate_ok _ _ ratio_le_100) in Hc
      as (_ & _ & ? & _). by right.
  - apply strict_candidate_ok in Hc as (_ & _ & -> & ? & _). by left.
  - apply strict_candidate_ok in Hc as (_ & _ & -> & ? & _). by left.
Qed.

(** X10.  [get_orig_acquiror] returns the first registry name whose cleaned
    form is the value asked for, and the empty string when there is none.
    For every match the three tiers produce it finds one: the original name
    written beside the match is a name of the registry, and cleaning it gives
    the matched name. *)
Theorem get_orig_acquiror_round_trip
  (df_summary : list Matching.summary_row)
  (review auto : list Matching.MatchCandidate) :
  Matching.run_tiers token_set_ratio cpu_count
    (Step1Main.acquiror_clean_set df_main) acquiror_clean_list df_summary
  = Some (review, auto) ->
  (forall clean_val : pystr,
      if bool_decide (clean_val ∈ Step1Main.acquiror_clean_set df_main) then
        exists (i : nat) (a : cell),
          Step1Main.get_orig_acquiror df_main clean_val = a
          /\ df_main !! i = Some a
          /\ Step1.clean_company_name a = clean_val
          /\ forall j b, j < i -> df_main !! j = Some b ->
                         Step1.clean_company_name b <> clean_val
      else Step1Main.get_orig_acquiror df_main clean_val = CStr [])
  /\ Forall (fun c =>
               let orig :=
                 Step1Main.get_orig_acquiror df_main
                   (Matching.Matched_Acquiror_Clean c) in
               orig ∈ df_main
               /\ Step1.clean_company_name orig
                  = Matching.Matched_Acquiror_Clean c)
            (review ++ auto).
Proof.
  intros Hrun.
  assert (Hfound : forall clean_val,
             clean_val ∈ Step1Main.acquiror_clean_set df_main ->
             exists (i : nat) (a : cell),
               Step1Main.get_orig_acquiror df_main clean_val = a
               /\ df_main !! i = Some a
               /\ Step1.clean_company_name a = clean_val
               /\ forall j b, j < i -> df_main !! j = Some b ->
                              Step1.clean_company_name b <> clean_val).
  { intros clean_val Hin. unfold Step1Main.get_orig_acquiror.
    apply elem_of_list_to_set, list_elem_of_fmap in Hin as (a0 & E0 & Ha0).
    destruct (List.filter _ df_main) as [|a rest] eqn:E.
    - apply (filter_nil_none _ _ a0) in E; [|assumption].
      apply bool_decide_eq_false in E. by symmetry in E0.
    - apply filter_head_first in E as (i & Hi & Hp & Hfirst).
      exists i, a.
      repeat split; [assumption|by apply bool_decide_eq_true in Hp|].
      intros j b Hj Hb. pose proof (Hfirst j b Hj Hb) as Hf.
      by apply bool_decide_eq_false in Hf. }
  split.
  - intros clean_val. case_bool_decide as Hin; [by apply Hfound|].
    unfold Step1Main.get_orig_acquiror.
    destruct (List.filter _ df_main) as [|b bs] eqn:E; [reflexivity|].
    exfalso. apply Hin.
    apply filter_head_first in E as (i & Hi & Hp & _).
    apply bool_decide_eq_true in Hp.
    apply elem_of_list_to_set, list_elem_of_fmap. exists b.
    split; [done|by eapply list_elem_of_lookup_2].
  - eapply Forall_impl; [by eapply run_tiers_matched|].
    intros c Hc. cbv zeta.
    assert (Hin : Matching.Matched_Acquiror_Clean c
                  ∈ Step1Main.acquiror_clean_set df_main)
      by (destruct Hc; auto).
    destruct (Hfound _ Hin) as (i & a & -> & Hi & Ha & _).
    split; [by eapply list_elem_of_lookup_2|assumption].
Qed.

End ExportedNames.

Lemma get_orig_acquiror_round_trip_witness :
  (forall clean_val : pystr,
      if bool_decide (clean_val ∈ Step1Main.acquiror_clean_set
                                    [CStr (lit "Acme Inc")]) then
        exists (i : nat) (a : cell),
          Step1Main.get_orig_acquiror [CStr (lit "Acme Inc")] clean_val = a
          /\ [CStr (lit "Acme Inc")] !! i = Some a
          /\ Step1.clean_company_name a = clean_val
          /\ forall j b, j < i -> [CStr (lit "Acme Inc")] !! j = Some b ->
                         Step1.clean_company_name b <> clean_val
      else Step1Main.get_orig_acquiror [CStr (lit "Acme Inc")] clean_val
           = CStr [])
  /\ Forall (fun c =>
               let orig :=
                 Step1Main.get_orig_acquiror [CStr (lit "Acme Inc")]
                   (Matching.Matched_Acquiror_Clean c) in
               orig ∈ [CStr (lit "Acme Inc")]
               /\ Step1.clean_company_name orig
                  = Matching.Matched_Acquiror_Clean c)
            ([] ++ [strict_candidate (lit "Tier 2")
                      (Matching.mkSummary (CStr (lit "ACME CORP"))
                         (lit "ACME") 7 (Qc_of_Z 9))]).
Proof.
  apply (fun H => get_orig_acquiror_round_trip exact_ratio 2
                    [CStr (lit "Acme Inc")] [lit "ACME"] exact_ratio_le_100
                    H example_summary).
  - intros x Hx. apply list_elem_of_singleton in Hx. subst x.
    apply elem_of_list_to_set. left.
  - vm_compute. reflexivity.
Defined.

(** ** The master dictionary over several files *)

Section Dictionary.

Variable repr_number : Qc -> pystr.
Variable fs : gmap pystr Step2.file.

(** The loop over the rows, on pairs already stripped. *)
Lemma process_rows_fold (file_path : pystr) (st : Step2.loop_state)
  (df_valid : list (cell * cell)) :
  Step2.process_rows repr_number file_path st df_valid
  = fold_left (fun st (p : pystr * pystr) =>
                 Step2.process_pair file_path st p.1 p.2)
      (map (fun p => (Step2.stripped repr_number p.1,
                      Step2.stripped repr_number p.2)) df_valid) st.
Proof.
  unfold Step2.process_rows. revert st.
  induction df_valid as [|p l IH]; intros st; [reflexivity|]. apply IH.
Qed.

Lemma process_pair_dict (file_path : pystr) (st : Step2.loop_state)
  (k v : pystr) :
  Step2.master_dict (Step2.process_pair file_path st k v)
  = Step2.master_dict st ∪ {[k := v]}.
Proof.
  unfold Step2.process_pair.
  destruct (Step2.master_dict st !! k) as [e|] eqn:E.
  - assert (Step2.master_dict st = Step2.master_dict st ∪ {[k := v]}) as H.
    { apply map_eq. intros k'. rewrite lookup_union.
      destruct (decide (k' = k)) as [->|Hne].
      - rewrite E, lookup_singleton_eq. reflexivity.
      - rewrite lookup_singleton_ne by done.
        by destruct (Step2.master_dict st !! k'). }
    by case_bool_decide.
  - cbn. by apply insert_union_singleton_r.
Qed.

Lemma process_pairs_dict (file_path : pystr) (pairs : list (pystr * pystr)) :
  forall st,
    Step2.master_dict
      (fold_left (fun st (p : pystr * pystr) =>
                    Step2.process_pair file_path st p.1 p.2) pairs st)
    = Step2.master_dict st ∪ list_to_map pairs.
Proof.
  induction pairs as [|[k v] pairs IH]; intros st; cbn [fold_left].
  - cbn. by rewrite (right_id_L ∅ (∪)).
  - rewrite IH, process_pair_dict. cbn [list_to_map foldr fst snd].
    rewrite <- (assoc_L (∪)). f_equal.
    by rewrite insert_union_singleton_l.
Qed.

Lemma process_file_dict (b : Step2.build_state) (file_path : pystr) :
  Step2.b_dict (Step2.process_file repr_number fs b file_path)
  = Step2.b_dict b ∪ list_to_map (contributed repr_number fs file_path).
Proof.
  unfold Step2.process_file, contributed.
  destruct (fs !! file_path) as [[|df]|];
    try (cbn; by rewrite (right_id_L ∅ (∪))).
  destruct (col_pos _ _) as [i|]; [|cbn; by rewrite (right_id_L ∅ (∪))].
  destruct (col_pos _ _) as [j|]; [|cbn; by rewrite (right_id_L ∅ (∪))].
  cbv zeta. cbn [Step2.b_dict].
  by rewrite process_rows_fold, process_pairs_dict.
Qed.

Lemma build_dict_from (files_list : list pystr) :
  forall b,
    Step2.b_dict (fold_left (Step2.process_file repr_number fs) files_list b)
    = Step2.b_dict b
        ∪ list_to_map (flat_map (contributed repr_number fs) files_list).
Proof.
  induction files_list as [|p l IH]; intros b; cbn [fold_left flat_map].
  - cbn. by rewrite (right_id_L ∅ (∪)).
  - rewrite IH, process_file_dict, list_to_map_app.
    by rewrite (assoc_L (∪)).
Qed.

Lemma build_dict_eq (files_list : list pystr) :
  Step2.b_dict (Step2.build_master_dictionary repr_number fs files_list)
  = list_to_map (flat_map (contributed repr_number fs) files_list).
Proof.
  unfold Step2.build_master_dictionary. rewrite build_dict_from.
  cbn [Step2.b_dict]. by rewrite (left_id_L ∅ (∪)).
Qed.

(** X11.  The dictionary is decided by first occurrence: taking the files in
    the order of the list and the valid rows of each in row order, a name is
    mapped to the canonical name of the first row that carries it; later rows
    for the same name, in the same or in a later file, never change it. *)
Theorem build_master_dictionary_first_wins (files_list : list pystr) :
  let pairs := flat_map (contributed repr_number fs) files_list in
  let d :=
    Step2.b_dict (Step2.build_master_dictionary repr_number fs files_list) in
  d = list_to_map pairs
  /\ (forall k : pystr,
         d !! k = snd <$> head (List.filter
                                  (fun p => bool_decide (p.1 = k)) pairs))
  /\ (forall more : list pystr,
         d ⊆ Step2.b_dict
               (Step2.build_master_dictionary repr_number fs
                  (files_list ++ more))).
Proof.
  cbv zeta. rewrite build_dict_eq. repeat split.
  - intros k. induction (flat_map _ files_list) as [|[k' v] l IH];
      [reflexivity|].
    cbn [list_to_map foldr List.filter fst snd].
    case_bool_decide as E.
    + subst k'. by rewrite lookup_insert_eq.
    + by rewrite lookup_insert_ne.
  - intros more. rewrite build_dict_eq, flat_map_app, list_to_map_app.
    apply map_union_subseteq_l.
Qed.

End Dictionary.
(** ** The counters, the conflict list and the keys of the dictionary *)

Section Counters.

Variable repr_number : Qc -> pystr.
Variable fs : gmap pystr Step2.file.

Lemma loop_inv_pairs (file_path : pystr) (pairs : list (pystr * pystr)) :
  forall st0 st n,
    loop_inv file_path st0 st n ->
    loop_inv file_path st0
      (fold_left (fun st (p : pystr * pystr) =>
                    Step2.process_pair file_path st p.1 p.2) pairs st)
      (n + length pairs).
Proof.
  induction pairs as [|[k v] pairs IH]; intros st0 st n Hinv;
    cbn [fold_left length].
  - by rewrite Nat.add_0_r.
  - replace (n + S (length pairs)) with (S n + length pairs) by lia.
    apply IH. clear IH.
    destruct Hinv as (H1 & H2 & H3 & H4 & added & H5 & H6).
    unfold Step2.process_pair. cbn [fst snd].
    destruct (Step2.master_dict st !! k) as [e|] eqn:E.
    + case_bool_decide as Eq.
      * repeat split; cbn; try lia; [assumption|]. by exists added.
      * repeat split; cbn; try lia; [rewrite length_app; cbn; lia|assumption|].
        exists (added ++ [Step2.mkConflict k e v file_path]).
        split; [by rewrite H5, app_assoc|].
        apply Forall_app. split; [assumption|].
        constructor; [|constructor]. cbn. repeat split; [assumption|].
        intros ->. by apply Eq.
    + repeat split; cbn; try lia.
      * rewrite map_size_insert_None by assumption. lia.
      * etrans; [exact H4|]. by apply insert_subseteq.
      * exists added. split; [assumption|].
        eapply Forall_impl; [exact H6|]. intros c (Hc1 & Hc2 & Hc3).
        repeat split; [|assumption|assumption].
        rewrite lookup_insert_ne; [assumption|]. intros Hk. rewrite Hk in E.
        congruence.
Qed.

Lemma total_snoc (f : Step2.SourceStat -> nat) (l : list Step2.SourceStat)
  (s : Step2.SourceStat) :
  total f (l ++ [s]) = total f l + f s.
Proof.
  unfold total. rewrite map_app, sum_list_app_split. simpl. lia.
Qed.

Lemma build_inv_file (files : list pystr) (b : Step2.build_state)
  (file_path : pystr) :
  build_inv files b -> file_path ∈ files ->
  build_inv files (Step2.process_file repr_number fs b file_path).
Proof.
  intros Hb Hin. unfold Step2.process_file.
  destruct (fs !! file_path) as [[|df]|]; try assumption.
  destruct (col_pos _ _) as [i|]; [|assumption].
  destruct (col_pos _ _) as [j|]; [|assumption].
  cbv zeta. set (df_valid := List.filter _ _).
  rewrite process_rows_fold.
  set (st0 := Step2.mkLoop (Step2.b_dict b) (Step2.b_conflicts b) 0 0 0).
  assert (H0 : loop_inv file_path st0 st0 0).
  { repeat split; try lia; try done. exists []. split; [by rewrite app_nil_r|].
    constructor. }
  apply (loop_inv_pairs file_path
           (map (fun p => (Step2.stripped repr_number p.1,
                           Step2.stripped repr_number p.2)) df_valid))
    in H0.
  set (st := fold_left _ _ st0) in *.
  destruct H0 as (H1 & H2 & H3 & H4 & added & H5 & H6).
  destruct Hb as (B1 & B2 & B3 & B4).
  cbn [Step2.count_new Step2.count_duplicate Step2.count_conflict
       Step2.master_dict Step2.conflicts st0] in H1, H2, H3, H4, H5.
  rewrite length_map in H1.
  repeat split; cbn [Step2.b_stats Step2.b_dict Step2.b_conflicts].
  - apply Forall_app. split; [assumption|]. constructor; [|constructor].
    cbn. lia.
  - rewrite total_snoc. cbn. lia.
  - rewrite total_snoc. cbn. lia.
  - rewrite H5. apply Forall_app. split.
    + eapply Forall_impl; [exact B4|]. intros c (Hc1 & Hc2 & Hc3).
      repeat split; [|assumption|assumption].
      by eapply lookup_weaken.
    + eapply Forall_impl; [exact H6|]. intros c (Hc1 & Hc2 & Hc3).
      repeat split; [assumption|assumption|by rewrite Hc3].
Qed.

Lemma build_inv_files (files : list pystr) :
  forall l b,
    build_inv files b -> (forall p, p ∈ l -> p ∈ files) ->
    build_inv files (fold_left (Step2.process_file repr_number fs) l b).
Proof.
  induction l as [|p l IH]; intros b Hb Hl; [assumption|].
  cbn [fold_left]. apply IH.
  - apply build_inv_file; [assumption|]. apply Hl. by left.
  - intros q Hq. apply Hl. by right.
Qed.

Lemma build_inv_holds (files_list : list pystr) :
  build_inv files_list
    (Step2.build_master_dictionary repr_number fs files_list).
Proof.
  apply build_inv_files; [|done].
  repeat split; cbn; try constructor.
Qed.

(** X12.  The bookkeeping of [build_master_dictionary] adds up: in the
    statistics of every file the valid rows are the new mappings plus the
    duplicates plus the conflicts; the dictionary has as many entries as
    there were new mappings over all files, and the conflict list as many
    records as there were conflicts. *)
Theorem build_master_dictionary_counts (files_list : list pystr) :
  let b := Step2.build_master_dictionary repr_number fs files_list in
  Forall (fun s => Step2.Valid_Rows s
                   = Step2.New_Mappings s + Step2.Duplicates s
                     + Step2.Conflicts s) (Step2.b_stats b)
  /\ size (Step2.b_dict b) = total Step2.New_Mappings (Step2.b_stats b)
  /\ length (Step2.b_conflicts b) = total Step2.Conflicts (Step2.b_stats b).
Proof.
  cbv zeta. by destruct (build_inv_holds files_list) as (? & ? & ? & _).
Qed.

(** X13.  Every conflict record tells the truth about the final dictionary:
    the name it reports is mapped to the value the record calls existing,
    the ignored new value differs from it, and the source is one of the
    files of the list. *)
Theorem build_master_dictionary_conflicts (files_list : list pystr) :
  let b := Step2.build_master_dictionary repr_number fs files_list in
  Forall (fun c =>
            Step2.b_dict b !! Step2.Assignee c
            = Some (Step2.Existing_Acquiror c)
            /\ Step2.New_Acquiror c <> Step2.Existing_Acquiror c
            /\ Step2.Source_File c ∈ files_list) (Step2.b_conflicts b).
Proof.
  cbv zeta. by destruct (build_inv_holds files_list) as (_ & _ & _ & ?).
Qed.

Lemma contributed_shape (file_path : pystr) (k v : pystr) :
  (k, v) ∈ contributed repr_number fs file_path ->
  k <> [] /\ v <> [] /\ py_strip k = k /\ py_strip v = v.
Proof.
  unfold contributed.
  destruct (fs !! file_path) as [[|df]|]; try by intros ?%elem_of_nil.
  destruct (col_pos _ _) as [i|]; [|by intros ?%elem_of_nil].
  destruct (col_pos _ _) as [j|]; [|by intros ?%elem_of_nil].
  intros (p & [= -> ->] & Hp)%list_elem_of_fmap.
  apply list_elem_of_In, filter_In in Hp as [_ Hp].
  unfold Step2.valid_pair in Hp.
  apply andb_prop in Hp as [Hp H2]. apply andb_prop in Hp as [_ H1].
  apply negb_true_iff, bool_decide_eq_false in H1, H2.
  unfold Step2.stripped in *. repeat split; try assumption; apply strip_idem.
Qed.

(** X14.  No key and no value of the dictionary is empty or has white space
    at either end: both sides of every entry are stripped texts. *)
Theorem build_master_dictionary_entries (files_list : list pystr)
  (k v : pystr) :
  Step2.b_dict (Step2.build_master_dictionary repr_number fs files_list)
    !! k = Some v ->
  k <> [] /\ v <> [] /\ py_strip k = k /\ py_strip v = v.
Proof.
  rewrite build_dict_eq. intros H.
  apply elem_of_list_to_map_2 in H.
  apply list_elem_of_In, in_flat_map in H as (p & _ & H).
  apply list_elem_of_In in H. by eapply contributed_shape.
Qed.

Lemma process_file_skipped (b : Step2.build_state) (file_path : pystr) :
  skipped fs file_path ->
  Step2.process_file repr_number fs b file_path = b.
Proof.
  unfold Step2.process_file, skipped.
  destruct (fs !! file_path) as [[|df]|]; try reflexivity.
  intros [-> | Hj]; [reflexivity|]. rewrite Hj.
  by destruct (col_pos (columns df) (lit "Assignee_Original")).
Qed.

(** X15.  A path is passed over without any effect when there is no file
    under it, when the file cannot be read, or when the workbook lacks one of
    the two columns: the dictionary, the statistics and the conflicts are
    the same as without the path in the list. *)
Theorem build_master_dictionary_skips (before after : list pystr)
  (file_path : pystr) :
  skipped fs file_path ->
  Step2.build_master_dictionary repr_number fs
    (before ++ file_path :: after)
  = Step2.build_master_dictionary repr_number fs (before ++ after).
Proof.
  intros Hskip. unfold Step2.build_master_dictionary.
  rewrite !fold_left_app. cbn [fold_left].
  by rewrite process_file_skipped.
Qed.

End Counters.

Lemma build_master_dictionary_entries_witness :
  lit "A" <> [] /\ lit "X" <> []
  /\ py_strip (lit "A") = lit "A" /\ py_strip (lit "X") = lit "X".
Proof.
  apply (build_master_dictionary_entries (fun _ => [])
           {[lit "b1.xlsx" := sheet [(lit " A ", lit "X ")]]}
           [lit "b1.xlsx"] (lit "A") (lit "X")).
  vm_compute. reflexivity.
Defined.

Lemma build_master_dictionary_skips_witness :
  Step2.build_master_dictionary (fun _ => [])
    {[lit "b1.xlsx" := sheet [(lit "A", lit "X")]]}
    ([lit "b1.xlsx"] ++ lit "missing.xlsx" :: [])
  = Step2.build_master_dictionary (fun _ => [])
      {[lit "b1.xlsx" := sheet [(lit "A", lit "X")]]}
      ([lit "b1.xlsx"] ++ []).
Proof.
  apply (build_master_dictionary_skips (fun _ => [])
           {[lit "b1.xlsx" := sheet [(lit "A", lit "X")]]}
           [lit "b1.xlsx"] [] (lit "missing.xlsx")).
  vm_compute. exact I.
Defined.

(** ** What the merge keeps of the main table *)

Lemma col_pos_cons (x : pystr) (cols : list pystr) (c : pystr) :
  col_pos (x :: cols) c
  = if decide (x = c) then Some 0 else S <$> col_pos cols c.
Proof.
  unfold col_pos. cbn [list_find]. destruct (decide (x = c)); [reflexivity|].
  by destruct (list_find _ cols) as [[m y]|].
Qed.

Lemma select_col_pos (p : pystr -> bool) (c : pystr) :
  p c = false ->
  forall (cols : list pystr) (r : list cell) (i : nat),
    col_pos cols c = Some i ->
    length r = length cols ->
    exists i',
      col_pos (select (map (fun c => negb (p c)) cols) cols) c = Some i'
      /\ at_pos i' (select (map (fun c => negb (p c)) cols) r) = at_pos i r
      /\ i' < length (select (map (fun c => negb (p c)) cols) cols).
Proof.
  intros Hc. induction cols as [|x cols IH]; intros r i Hi Hlen;
    [discriminate|].
  destruct r as [|v r]; [discriminate|]. injection Hlen as Hlen.
  rewrite col_pos_cons in Hi. cbn [map select].
  destruct (decide (x = c)) as [->|Hne].
  - injection Hi as <-. rewrite Hc. cbn [negb]. exists 0.
    rewrite col_pos_cons. rewrite decide_True by done.
    repeat split. cbn. lia.
  - destruct (col_pos cols c) as [i0|] eqn:E; [|discriminate].
    injection Hi as <-.
    destruct (IH r i0 eq_refl Hlen) as (i' & H1 & H2 & H3).
    destruct (negb (p x)).
    + exists (S i'). rewrite col_pos_cons, decide_False by done.
      rewrite H1. repeat split; [exact H2|cbn; lia].
    + exists i'. repeat split; assumption.
Qed.

Lemma select_filter {A} (p : A -> bool) (cols : list A) :
  select (map (fun c => negb (p c)) cols) cols
  = List.filter (fun c => negb (p c)) cols.
Proof.
  induction cols as [|x cols IH]; [reflexivity|]. cbn [map select List.filter].
  rewrite IH. reflexivity.
Qed.

(** X16.  [merge_to_final_outcome] with the two tables of [aggregate_data]
    keeps the main table as it is, apart from the columns whose label starts
    with [patent_]: the result has the rows of the main table, one for one
    and in their order; its columns are the other columns of the main table
    in their order, then the metric columns, then the alias columns; and
    every cell of a kept column is the cell of the main table. *)
Theorem merge_keeps_main_table (set_to_list : list cell -> list cell)
  (df_matched df_main df_stats df_names : DataFrame) (a : nat)
  (Hwf : wf_frame df_main)
  (Hkey : col_pos (columns df_main) (lit "acquiror_name") = Some a)
  (Hagg : Step3.aggregate_data set_to_list df_matched
          = Some (df_stats, df_names)) :
  exists df_final : DataFrame,
    Step3.merge_to_final_outcome df_main df_stats df_names = Some df_final
    /\ n_rows df_final = n_rows df_main
    /\ columns df_final
       = List.filter (fun c => negb (Step3.old_col c)) (columns df_main)
           ++ delete 0 (columns df_stats) ++ delete 0 (columns df_names)
    /\ forall (k : nat) (r : list cell) (c : pystr) (i : nat),
        rows df_main !! k = Some r ->
        col_pos (columns df_main) c = Some i ->
        Step3.old_col c = false ->
        exists r' : list cell,
          rows df_final !! k = Some r'
          /\ row_get (columns df_final) r' c = Some (at_pos i r).
Proof.
  unfold Step3.aggregate_data in Hagg.
  destruct (Step3.read_matched df_matched) as [ms|]; [|discriminate].
  cbn in Hagg. injection Hagg as <- <-.
  destruct (merge_shape set_to_list ms df_main a Hwf Hkey)
    as (a' & Ha' & Hm).
  eexists. split; [exact Hm|]. cbn [columns rows n_rows].
  unfold drop_cols. cbn [columns rows]. repeat split.
  - unfold n_rows. cbn [rows]. by rewrite !length_map.
  - by rewrite select_filter.
  - intros k r c i Hr Hi Hc.
    eexists. split.
    { rewrite !list_lookup_fmap, Hr. reflexivity. }
    assert (Hlen : length r = length (columns df_main)).
    { unfold wf_frame in Hwf. rewrite Forall_forall in Hwf.
      apply Hwf. by eapply list_elem_of_lookup_2. }
    destruct (select_col_pos Step3.old_col c Hc (columns df_main) r i Hi Hlen)
      as (i' & H1 & H2 & H3).
    unfold row_get. rewrite (col_pos_app_l _ _ _ _ H1). cbn.
    rewrite at_pos_app_l; [by rewrite H2|].
    by rewrite (select_length Step3.old_col (columns df_main) r Hlen).
Qed.

Lemma merge_keeps_main_table_witness :
  exists df_final : DataFrame,
    Step3.merge_to_final_outcome example_main (Step3.stats_of example_rows)
      (Step3.names_of (fun l => l) example_rows) = Some df_final
    /\ n_rows df_final = n_rows example_main
    /\ columns df_final
       = List.filter (fun c => negb (Step3.old_col c)) (columns example_main)
           ++ delete 0 (columns (Step3.stats_of example_rows))
           ++ delete 0 (columns (Step3.names_of (fun l => l) example_rows))
    /\ forall (k : nat) (r : list cell) (c : pystr) (i : nat),
        rows example_main !! k = Some r ->
        col_pos (columns example_main) c = Some i ->
        Step3.old_col c = false ->
        exists r' : list cell,
          rows df_final !! k = Some r'
          /\ row_get (columns df_final) r' c = Some (at_pos i r).
Proof.
  apply (merge_keeps_main_table (fun l => l) example_matched example_main
           _ _ 0).
  - repeat constructor.
  - reflexivity.
  - exact example_aggregate.
Defined.

(** ** Step 4B: what the fill loop puts into empty cells *)

Lemma fill_cell_idem cols c v r :
  Step4B.fill_cell cols c v (Step4B.fill_cell cols c v r)
  = Step4B.fill_cell cols c v r.
Proof.
  unfold Step4B.fill_cell. destruct (col_pos cols c) as [i|]; [|reflexivity].
  destruct (isna (at_pos i r)) eqn:E.
  - destruct (isna (at_pos i (<[i:=v]> r))); [|reflexivity].
    apply list_insert_insert_eq.
  - by rewrite E.
Qed.

Lemma fill_cell_comm cols c c' v v' r :
  c <> c' ->
  Step4B.fill_cell cols c v (Step4B.fill_cell cols c' v' r)
  = Step4B.fill_cell cols c' v' (Step4B.fill_cell cols c v r).
Proof.
  intros Hne. unfold Step4B.fill_cell.
  destruct (col_pos cols c) as [i|] eqn:Ei; [|reflexivity].
  destruct (col_pos cols c') as [i'|] eqn:Ei'; [|reflexivity].
  assert (Hii : i <> i') by (intros ->; by apply Hne, (col_pos_inj cols _ _ i')).
  destruct (isna (at_pos i r)) eqn:E, (isna (at_pos i' r)) eqn:E';
    rewrite ?at_pos_insert_ne by done; rewrite ?E, ?E'; try reflexivity.
  by apply list_insert_insert_ne.
Qed.

Lemma fills_idem cols i r : fills cols i (fills cols i r) = fills cols i r.
Proof.
  unfold fills.
  set (f1 := Step4B.fill_cell cols (lit "gvkey") (Step4B.gvkey i)).
  set (f2 := Step4B.fill_cell cols (lit "cusip") (Step4B.cusip i)).
  set (f3 := Step4B.fill_cell cols (lit "cik") (Step4B.cik i)).
  set (f4 := Step4B.fill_cell cols (lit "compustat_name")
               (Step4B.compustat_name i)).
  assert (C14 : forall x, f1 (f4 x) = f4 (f1 x))
    by (intros; by apply fill_cell_comm).
  assert (C13 : forall x, f1 (f3 x) = f3 (f1 x))
    by (intros; by apply fill_cell_comm).
  assert (C12 : forall x, f1 (f2 x) = f2 (f1 x))
    by (intros; by apply fill_cell_comm).
  assert (C24 : forall x, f2 (f4 x) = f4 (f2 x))
    by (intros; by apply fill_cell_comm).
  assert (C23 : forall x, f2 (f3 x) = f3 (f2 x))
    by (intros; by apply fill_cell_comm).
  assert (C34 : forall x, f3 (f4 x) = f4 (f3 x))
    by (intros; by apply fill_cell_comm).
  assert (I1 : forall x, f1 (f1 x) = f1 x) by (intros; apply fill_cell_idem).
  assert (I2 : forall x, f2 (f2 x) = f2 x) by (intros; apply fill_cell_idem).
  assert (I3 : forall x, f3 (f3 x) = f3 x) by (intros; apply fill_cell_idem).
  assert (I4 : forall x, f4 (f4 x) = f4 x) by (intros; apply fill_cell_idem).
  clearbody f1 f2 f3 f4.
  rewrite C14, C13, C12, I1, C24, C23, I2, C34, I3, I4. reflexivity.
Qed.

Lemma fill_cell_at cols c v r i :
  col_pos cols c = Some i -> i < length r ->
  at_pos i (Step4B.fill_cell cols c v r)
  = if isna (at_pos i r) then v else at_pos i r.
Proof.
  intros Hi Hlt. unfold Step4B.fill_cell. rewrite Hi.
  destruct (isna (at_pos i r)); [|reflexivity].
  unfold at_pos. by rewrite list_lookup_insert_eq.
Qed.

Lemma fills_at cols ids r c i :
  c ∈ Step4B.id_cols -> col_pos cols c = Some i -> i < length r ->
  at_pos i (fills cols ids r)
  = if isna (at_pos i r) then ids_value ids c else at_pos i r.
Proof.
  intros Hc Hi Hlt.
  assert (Hother : forall c' v x, c' <> c ->
             at_pos i (Step4B.fill_cell cols c' v x) = at_pos i x).
  { intros c' v x Hne. apply fill_cell_other. intros Hi'.
    apply Hne. by apply (col_pos_inj cols _ _ i). }
  unfold fills, Step4B.id_cols in *.
  repeat (apply elem_of_cons in Hc as [->|Hc]).
  - rewrite !Hother by done. by rewrite fill_cell_at.
  - rewrite !Hother by done.
    rewrite fill_cell_at by (by rewrite ?fill_cell_length).
    by rewrite Hother.
  - rewrite Hother by done.
    rewrite fill_cell_at by (by rewrite ?fill_cell_length).
    by rewrite !Hother.
  - rewrite fill_cell_at by (by rewrite ?fill_cell_length).
    by rewrite !Hother.
  - by apply elem_of_nil in Hc.
Qed.

Lemma fills_key cols ids r a :
  col_pos cols (lit "acquiror_name") = Some a ->
  at_pos a (fills cols ids r) = at_pos a r.
Proof.
  intros Ha. unfold fills.
  rewrite !fill_cell_other; try reflexivity; intros H;
    by pose proof (col_pos_inj _ _ _ _ H Ha).
Qed.

Lemma fill_ids_eq (df_main : DataFrame) (m : gmap cell Step4B.ids) (a : nat) :
  col_pos (columns df_main) (lit "acquiror_name") = Some a ->
  exists added : list pystr,
    Step4B.fill_ids df_main m
    = Some (mkDF (columns df_main ++ added)
                 (map (fun r =>
                         filled m a (columns df_main ++ added)
                           (r ++ replicate (length added) CNull))
                      (rows df_main)))
    /\ (forall c, c ∈ added -> c ∈ Step4B.id_cols /\ c ∉ columns df_main)
    /\ (forall c, c ∈ Step4B.id_cols -> c ∈ columns df_main ++ added).
Proof.
  intros Hkey. unfold Step4B.fill_ids, Step4B.ensure_id_cols.
  destruct (ensure_cols_shape Step4B.id_cols df_main)
    as (added & Ecols & Erows & Hadded & Hall).
  exists added. split; [|split; assumption].
  rewrite Ecols, Erows.
  rewrite (mapM_map_total _ _
             (fun r => filled m a (columns df_main ++ added)
                         (r ++ replicate (length added) CNull)));
    [reflexivity|].
  intros r _. unfold Step4B.fill_row, row_get.
  rewrite (col_pos_app_l _ added _ _ Hkey). cbn [mbind option_bind].
  unfold filled, fills. by destruct (m !! _).
Qed.

(** X17.  The fill loop of step 4B is complete: in a row whose
    [acquiror_name] is a key of the verified mapping, every identifier cell
    that was empty in the main table (or whose column the main table did not
    have) holds the mapping's value for that column afterwards. *)
Theorem fill_ids_fills_empty (df_main : DataFrame) (m : gmap cell Step4B.ids)
  (a : nat)
  (Hwf : wf_frame df_main)
  (Hkey : col_pos (columns df_main) (lit "acquiror_name") = Some a) :
  exists df_final : DataFrame,
    Step4B.fill_ids df_main m = Some df_final
    /\ forall (k : nat) (r : list cell) (ids : Step4B.ids) (c : pystr),
        rows df_main !! k = Some r ->
        m !! at_pos a r = Some ids ->
        c ∈ Step4B.id_cols ->
        isna (Step4B.row_get_default (columns df_main) r c) = true ->
        exists r' : list cell,
          rows df_final !! k = Some r'
          /\ row_get (columns df_final) r' c = Some (ids_value ids c).
Proof.
  destruct (fill_ids_eq df_main m a Hkey) as (added & Hfill & Hadded & Hall).
  eexists. split; [exact Hfill|]. cbn [rows columns].
  intros k r ids c Hr Hm Hc Hna.
  eexists. split; [by rewrite list_lookup_fmap, Hr|].
  assert (Hlen : length r = length (columns df_main)).
  { unfold wf_frame in Hwf. rewrite Forall_forall in Hwf.
    apply Hwf. by eapply list_elem_of_lookup_2. }
  unfold filled. rewrite at_pos_app_nulls, Hm.
  destruct (col_pos_is_Some _ _ (Hall c Hc)) as [i Hi].
  unfold row_get. rewrite Hi. cbn [mbind option_bind]. f_equal.
  assert (Hlt : i < length (r ++ replicate (length added) CNull)).
  { rewrite length_app, length_replicate, Hlen, <- length_app.
    by eapply col_pos_lt. }
  rewrite (fills_at _ _ _ c i Hc Hi Hlt).
  replace (isna (at_pos i (r ++ replicate (length added) CNull))) with true;
    [reflexivity|].
  symmetry. rewrite at_pos_app_nulls.
  unfold Step4B.row_get_default, row_get in Hna.
  destruct (col_pos (columns df_main) c) as [i0|] eqn:E0.
  - rewrite (col_pos_app_l _ added _ _ E0) in Hi. injection Hi as <-.
    exact Hna.
  - assert (length r <= i).
    { rewrite col_pos_app_r in Hi by (by apply col_pos_None).
      destruct (col_pos added c); [|discriminate]. injection Hi as <-. lia. }
    unfold at_pos. by rewrite lookup_ge_None_2.
Qed.

(** X18.  Running the fill loop of step 4B a second time, on its own result
    and with the same mapping, changes nothing. *)
Theorem fill_ids_idempotent (df_main df_final : DataFrame)
  (m : gmap cell Step4B.ids) :
  Step4B.fill_ids df_main m = Some df_final ->
  Step4B.fill_ids df_final m = Some df_final.
Proof.
  intros H.
  destruct (col_pos (columns df_main) (lit "acquiror_name")) as [a|] eqn:Hkey.
  2:{ unfold Step4B.fill_ids, Step4B.ensure_id_cols in *.
      destruct (ensure_cols_shape Step4B.id_cols df_main)
        as (added & Ecols & Erows & Hadded & Hall).
      rewrite Ecols, Erows in H.
      destruct (rows df_main) as [|r rs].
      - cbn in H. injection H as <-.
        destruct (ensure_cols_shape Step4B.id_cols
                    (mkDF (columns df_main ++ added) []))
          as (added' & Ecols' & Erows' & Hadded' & _).
        assert (added' = []) as ->.
        { destruct added' as [|c l]; [reflexivity|]. exfalso.
          destruct (Hadded' c) as [Hc Hnot]; [by left|]. by apply Hnot, Hall. }
        rewrite Ecols', Erows'. cbn. by rewrite app_nil_r.
      - exfalso.
        assert (Hn : col_pos (columns df_main ++ added) (lit "acquiror_name")
                     = None).
        { apply col_pos_None. apply col_pos_None in Hkey.
          rewrite elem_of_app. intros [Hin|Hin]; [by apply Hkey|].
          apply Hadded in Hin as [Hin _]. unfold Step4B.id_cols in Hin.
          repeat (apply elem_of_cons in Hin as [Hin|Hin]; [discriminate|]).
          by apply elem_of_nil in Hin. }
        assert (Hfr : forall x,
                   Step4B.fill_row m (columns df_main ++ added) x = None).
        { intros x. unfold Step4B.fill_row, row_get. by rewrite Hn. }
        cbn [map mapM] in H. rewrite Hfr in H. discriminate. }
  destruct (fill_ids_eq df_main m a Hkey) as (added & Hfill & Hadded & Hall).
  rewrite Hfill in H. injection H as <-.
  set (cols := columns df_main ++ added) in *.
  assert (Hkey' : col_pos cols (lit "acquiror_name") = Some a)
    by (by apply col_pos_app_l).
  destruct (fill_ids_eq (mkDF cols
              (map (fun r => filled m a cols
                               (r ++ replicate (length added) CNull))
                   (rows df_main))) m a Hkey')
    as (added' & Hfill' & Hadded' & _).
  assert (added' = []) as ->.
  { destruct added' as [|c l]; [reflexivity|]. exfalso.
    destruct (Hadded' c) as [Hc Hnot]; [by left|]. by apply Hnot, Hall. }
  rewrite Hfill'. cbn [columns rows length replicate]. rewrite !app_nil_r.
  do 2 f_equal. rewrite map_map. apply map_ext. intros r.
  rewrite app_nil_r. unfold filled at 1.
  unfold filled. destruct (m !! at_pos a (r ++ _)) as [ids|] eqn:E.
  - rewrite fills_key by assumption. rewrite E. apply fills_idem.
  - by rewrite E.
Qed.

Lemma fill_ids_fills_empty_witness :
  exists df_final : DataFrame,
    Step4B.fill_ids example_ids_main example_ids = Some df_final
    /\ forall (k : nat) (r : list cell) (ids : Step4B.ids) (c : pystr),
        rows example_ids_main !! k = Some r ->
        example_ids !! at_pos 0 r = Some ids ->
        c ∈ Step4B.id_cols ->
        isna (Step4B.row_get_default (columns example_ids_main) r c) = true ->
        exists r' : list cell,
          rows df_final !! k = Some r'
          /\ row_get (columns df_final) r' c = Some (ids_value ids c).
Proof.
  apply (fill_ids_fills_empty example_ids_main example_ids 0).
  - repeat constructor.
  - reflexivity.
Defined.

Lemma fill_ids_idempotent_witness :
  Step4B.fill_ids example_ids_final example_ids = Some example_ids_final.
Proof.
  apply (fill_ids_idempotent example_ids_main example_ids_final example_ids).
  vm_compute. reflexivity.
Defined.

(** ** The pivot tables lose nothing *)

Lemma Qc_of_nat_S (n : nat) : Qc_of_nat (S n) = (1 + Qc_of_nat n)%Qc.
Proof.
  unfold Qc_of_nat, Qcplus. apply Q2Qc_eq_iff.
  cbn [this Q2Qc]. rewrite !Qred_correct.
  rewrite Nat2Z.inj_succ. unfold Z.succ. rewrite inject_Z_plus. ring.
Qed.

Lemma Qc_sum_app (a b : list Qc) :
  Step3.Qc_sum (a ++ b) = (Step3.Qc_sum a + Step3.Qc_sum b)%Qc.
Proof.
  unfold Step3.Qc_sum. induction a as [|x a IH]; cbn [app foldr]; [ring|].
  rewrite IH. ring.
Qed.

Lemma one_key_sum {K} `{EqDecision K} (k0 : K) (a : Qc) (S : K -> Qc)
  (keys : list K) :
  NoDup keys -> k0 ∈ keys ->
  Step3.Qc_sum (map (fun k => if bool_decide (k0 = k) then (a + S k)%Qc
                              else S k) keys)
  = (a + Step3.Qc_sum (map S keys))%Qc.
Proof.
  induction keys as [|k keys IH]; intros Hdup Hin;
    [by apply elem_of_nil in Hin|].
  apply NoDup_cons in Hdup as [Hk Hdup]. cbn [map Step3.Qc_sum foldr].
  fold (Step3.Qc_sum (map S keys)).
  case_bool_decide as E.
  - subst k.
    assert (Hrest : map (fun k => if bool_decide (k0 = k) then (a + S k)%Qc
                                  else S k) keys = map S keys).
    { apply map_ext_in. intros k Hk'. case_bool_decide as E'; [|reflexivity].
      subst k. exfalso. by apply Hk, list_elem_of_In. }
    fold (Step3.Qc_sum (map (fun k => if bool_decide (k0 = k)
                                      then (a + S k)%Qc else S k) keys)).
    rewrite Hrest. ring.
  - apply elem_of_cons in Hin as [->|Hin]; [done|].
    fold (Step3.Qc_sum (map (fun k => if bool_decide (k0 = k)
                                      then (a + S k)%Qc else S k) keys)).
    rewrite IH by assumption. ring.
Qed.

Lemma partition_sum {A K} `{EqDecision K} (key : A -> K) (g : A -> Qc)
  (keys : list K) (l : list A) :
  NoDup keys -> (forall x, x ∈ l -> key x ∈ keys) ->
  Step3.Qc_sum
    (map (fun k =>
            Step3.Qc_sum
              (map g (List.filter (fun x => bool_decide (key x = k)) l)))
         keys)
  = Step3.Qc_sum (map g l).
Proof.
  intros Hdup. induction l as [|x l IH]; intros Hl.
  - cbn [List.filter map]. clear. unfold Step3.Qc_sum.
    induction keys as [|k keys IHk]; [reflexivity|].
    cbn [map foldr] in *. rewrite IHk. ring.
  - cbn [map Step3.Qc_sum foldr]. fold (Step3.Qc_sum (map g l)).
    rewrite <- IH by (intros y Hy; apply Hl; by right).
    rewrite <- (one_key_sum (key x) (g x)) by (try assumption; apply Hl; by left).
    f_equal. apply map_ext. intros k. cbn [List.filter].
    by destruct (bool_decide (key x = k)).
Qed.

Lemma group_of_records (ms : list Step3.matched_row) (acq : pystr) (yr : Z) :
  Step3.group_of ms acq yr
  = List.filter (fun m => bool_decide (Step3.m_year m = yr))
                (records_of ms acq).
Proof.
  unfold Step3.group_of, records_of.
  induction ms as [|m ms IH]; [reflexivity|]. cbn [List.filter].
  destruct (bool_decide (Step3.m_acquiror m = acq)); cbn [andb List.filter];
    rewrite IH; reflexivity.
Qed.

Lemma count_sum (l : list Step3.matched_row) :
  Qc_of_nat (length (List.filter (fun m => notna (Step3.m_assignee m)) l))
  = Step3.Qc_sum
      (map (fun m => if notna (Step3.m_assignee m) then 1%Qc else 0%Qc) l).
Proof.
  induction l as [|m l IH]; [apply Qc_is_canon; reflexivity|].
  cbn [List.filter map Step3.Qc_sum foldr].
  fold (Step3.Qc_sum
          (map (fun m => if notna (Step3.m_assignee m) then 1%Qc else 0%Qc) l)).
  destruct (notna (Step3.m_assignee m)).
  - cbn [length]. rewrite Qc_of_nat_S, IH. reflexivity.
  - rewrite IH. ring.
Qed.

Lemma weight_sum (l : list Step3.matched_row) :
  Step3.Qc_sum (omap Step3.m_weight l)
  = Step3.Qc_sum (map (fun m => default 0%Qc (Step3.m_weight m)) l).
Proof.
  unfold Step3.Qc_sum. induction l as [|m l IH]; [reflexivity|].
  cbn [omap list_omap map].
  destruct (Step3.m_weight m) as [w|]; cbn [foldr default]; rewrite IH;
    [reflexivity|ring].
Qed.

Lemma pivot_patent_num (ms : list Step3.matched_row) (acq : pystr) (yr : Z) :
  cell_num (Step3.pivot_patent ms acq yr)
  = Qc_of_nat (length (List.filter (fun m => notna (Step3.m_assignee m))
                         (Step3.group_of ms acq yr))).
Proof.
  unfold Step3.pivot_patent.
  destruct (Step3.group_of ms acq yr); [|reflexivity].
  apply Qc_is_canon. reflexivity.
Qed.

Lemma pivot_inventor_num (ms : list Step3.matched_row) (acq : pystr)
  (yr : Z) :
  cell_num (Step3.pivot_inventor ms acq yr)
  = Step3.Qc_sum (omap Step3.m_weight (Step3.group_of ms acq yr)).
Proof.
  unfold Step3.pivot_inventor.
  by destruct (Step3.group_of ms acq yr).
Qed.

(** X19.  The pivot tables of [aggregate_data] lose and invent nothing: for
    every entity the patent counts of all year columns add up to the number
    of its matched records (those with an assignee), and the inventor
    counts of all year columns add up to the sum of the weights of its
    matched records; these cells make up the row of the entity in the
    statistics table. *)
Theorem pivots_conserve (ms : list Step3.matched_row) (acq : pystr) :
  Step3.Qc_sum
    (map (fun yr => cell_num (Step3.pivot_patent ms acq yr))
         (Step3.years ms))
  = Qc_of_nat
      (length (List.filter (fun m => notna (Step3.m_assignee m))
                           (records_of ms acq)))
  /\ Step3.Qc_sum
       (map (fun yr => cell_num (Step3.pivot_inventor ms acq yr))
            (Step3.years ms))
     = Step3.Qc_sum (omap Step3.m_weight (records_of ms acq))
  /\ (acq ∈ Step3.entities ms ->
      CStr acq
        :: map (Step3.pivot_patent ms acq) (Step3.years ms)
        ++ map (Step3.pivot_inventor ms acq) (Step3.years ms)
      ∈ rows (Step3.stats_of ms)).
Proof.
  assert (Hdup : NoDup (Step3.years ms)) by apply sorted_unique_NoDup.
  assert (Hin : forall m, m ∈ records_of ms acq ->
                          Step3.m_year m ∈ Step3.years ms).
  { intros m Hm. apply sorted_unique_elem.
    apply list_elem_of_In, filter_In in Hm as [Hm _].
    apply list_elem_of_fmap. exists m. split; [done|by apply list_elem_of_In]. }
  split; [|split].
  - rewrite count_sum.
    rewrite <- (partition_sum Step3.m_year _ (Step3.years ms)
                  (records_of ms acq) Hdup Hin).
    f_equal. apply map_ext. intros yr.
    by rewrite pivot_patent_num, group_of_records, count_sum.
  - rewrite weight_sum.
    rewrite <- (partition_sum Step3.m_year _ (Step3.years ms)
                  (records_of ms acq) Hdup Hin).
    f_equal. apply map_ext. intros yr.
    by rewrite pivot_inventor_num, group_of_records, weight_sum.
  - intros Hacq. unfold Step3.stats_of. cbn [rows].
    apply list_elem_of_fmap. by exists acq.
Qed.

(** ** The alias table *)


(** ** What [save_dictionary] writes *)

Lemma pystr_leb_total (a b : pystr) :
  pystr_leb a b = false -> pystr_leb b a = true.
Proof.
  revert b. induction a as [|x a IH]; intros [|y b]; cbn [pystr_leb];
    try done.
  destruct (code x <? code y) eqn:E1; [done|].
  destruct (code y <? code x) eqn:E2; [done|]. apply IH.
Qed.

Lemma insert_by_sorted {A} (le : A -> A -> bool) (x : A) (l : list A) :
  (forall a b, le a b = false -> le b a = true) ->
  sorted_by le l -> sorted_by le (insert_by le x l).
Proof.
  intros Htot. induction l as [|y l IH]; intros Hs; [by split|].
  cbn [insert_by]. destruct (le x y) eqn:E.
  - split; assumption.
  - destruct Hs as [Hy Hs]. specialize (IH Hs). split; [|assumption].
    destruct l as [|z l]; cbn [insert_by] in *.
    + by apply Htot.
    + destruct (le x z); [by apply Htot|assumption].
Qed.

Lemma sort_by_sorted {A} (le : A -> A -> bool) (l : list A) :
  (forall a b, le a b = false -> le b a = true) ->
  sorted_by le (sort_by le l).
Proof.
  intros Htot. unfold sort_by. induction l as [|x l IH]; [exact I|].
  cbn [foldr]. by apply insert_by_sorted.
Qed.

(** X21.  [save_dictionary] on a dictionary that is not empty returns True
    and writes the pickle with the dictionary itself and the Excel view with
    one row per entry, in increasing order of the mapped name; the
    statistics and the conflict report are written only when there is
    something to report, and no other file is touched. *)
Theorem save_dictionary_writes (master : gmap pystr pystr)
  (source_stats : list Step2.SourceStat) (cs : list Step2.ConflictRecord)
  (disk : gmap pystr Step2.artifact) :
  master <> ∅ ->
  let out := Step2.save_dictionary master source_stats cs disk in
  out.1 = true
  /\ out.2 !! Step2.OUTPUT_DICT_FILE = Some (Step2.Pickle master)
  /\ (exists items : list (pystr * pystr),
         items ≡ₚ map_to_list master
         /\ sorted_by (fun a b : pystr * pystr => pystr_leb a.2 b.2) items
         /\ out.2 !! Step2.OUTPUT_EXCEL_FILE
            = Some (Step2.Excel
                      (mkDF [lit "Assignee_Original_Name";
                             lit "Mapped_Acquiror_Name"]
                            (map (fun kv => [CStr kv.1; CStr kv.2]) items))))
  /\ out.2 !! lit "Dictionary_Build_Statistics.xlsx"
     = match source_stats with
       | [] => disk !! lit "Dictionary_Build_Statistics.xlsx"
       | _ => Some (Step2.Excel (Step2.stats_frame source_stats))
       end
  /\ out.2 !! lit "Dictionary_Conflicts.xlsx"
     = match cs with
       | [] => disk !! lit "Dictionary_Conflicts.xlsx"
       | _ => Some (Step2.Excel (Step2.conflicts_frame cs))
       end
  /\ forall p : pystr,
       p ∉ [Step2.OUTPUT_DICT_FILE; Step2.OUTPUT_EXCEL_FILE;
            lit "Dictionary_Build_Statistics.xlsx";
            lit "Dictionary_Conflicts.xlsx"] ->
       out.2 !! p = disk !! p.
Proof.
  intros Hne. cbv zeta. unfold Step2.save_dictionary.
  rewrite bool_decide_eq_false_2 by assumption. cbv zeta. cbn [fst snd].
  set (d1 := <[Step2.OUTPUT_DICT_FILE := _]> disk).
  set (d2 := <[Step2.OUTPUT_EXCEL_FILE := _]> d1).
  set (d3 := match source_stats with [] => d2 | _ => _ end).
  set (d4 := match cs with [] => d3 | _ => _ end).
  assert (N12 : Step2.OUTPUT_DICT_FILE <> Step2.OUTPUT_EXCEL_FILE) by done.
  assert (N13 : Step2.OUTPUT_DICT_FILE
                <> lit "Dictionary_Build_Statistics.xlsx") by done.
  assert (N14 : Step2.OUTPUT_DICT_FILE <> lit "Dictionary_Conflicts.xlsx")
    by done.
  assert (N23 : Step2.OUTPUT_EXCEL_FILE
                <> lit "Dictionary_Build_Statistics.xlsx") by done.
  assert (N24 : Step2.OUTPUT_EXCEL_FILE <> lit "Dictionary_Conflicts.xlsx")
    by done.
  assert (N34 : lit "Dictionary_Build_Statistics.xlsx"
                <> lit "Dictionary_Conflicts.xlsx") by done.
  assert (H3 : forall p, p <> lit "Dictionary_Build_Statistics.xlsx" ->
                         d3 !! p = d2 !! p).
  { intros p Hp. subst d3. destruct source_stats; [reflexivity|].
    by rewrite lookup_insert_ne. }
  assert (H4 : forall p, p <> lit "Dictionary_Conflicts.xlsx" ->
                         d4 !! p = d3 !! p).
  { intros p Hp. subst d4. destruct cs; [reflexivity|].
    by rewrite lookup_insert_ne. }
  repeat split.
  - rewrite H4, H3 by done. subst d2 d1.
    rewrite lookup_insert_ne by done. by rewrite lookup_insert_eq.
  - eexists. split; [apply sort_by_perm|]. split.
    + apply sort_by_sorted. intros a b. apply pystr_leb_total.
    + rewrite H4, H3 by done. subst d2. by rewrite lookup_insert_eq.
  - rewrite H4 by done. subst d3. destruct source_stats.
    + subst d2 d1. by rewrite !lookup_insert_ne.
    + by rewrite lookup_insert_eq.
  - subst d4. destruct cs.
    + subst d3. destruct source_stats.
      * subst d2 d1. by rewrite !lookup_insert_ne.
      * subst d2 d1. by rewrite !lookup_insert_ne.
    + by rewrite lookup_insert_eq.
  - intros p Hp.
    assert (p <> Step2.OUTPUT_DICT_FILE /\ p <> Step2.OUTPUT_EXCEL_FILE
            /\ p <> lit "Dictionary_Build_Statistics.xlsx"
            /\ p <> lit "Dictionary_Conflicts.xlsx") as (P1 & P2 & P3 & P4).
    { repeat split; intros ->; apply Hp; repeat constructor. }
    rewrite H4, H3 by done. subst d2 d1. by rewrite !lookup_insert_ne.
Qed.

Lemma save_dictionary_writes_witness :
  let out :=
    Step2.save_dictionary {[lit "A" := lit "X"]} [] [] ∅ in
  out.1 = true
  /\ out.2 !! Step2.OUTPUT_DICT_FILE
     = Some (Step2.Pickle {[lit "A" := lit "X"]}).
Proof.
  destruct (save_dictionary_writes {[lit "A" := lit "X"]} [] [] ∅)
    as (H1 & H2 & _).
  - apply insert_non_empty.
  - split; assumption.
Defined.

(** ** [drop_duplicates] *)

Lemma drop_duplicates_from_first {A K} `{EqDecision K} (key : A -> K)
  (l : list A) :
  forall (seen : list K) (e : A),
    e ∈ drop_duplicates_from key seen l ->
    (key e ∉ seen)
    /\ head (List.filter (fun x => bool_decide (key x = key e)) l) = Some e.
Proof.
  induction l as [|x l IH]; intros seen e He; [by apply elem_of_nil in He|].
  cbn [drop_duplicates_from] in He. cbn [List.filter].
  case_bool_decide as Hseen.
  - destruct (IH seen e He) as [Hk Hh]. split; [assumption|].
    rewrite bool_decide_eq_false_2; [assumption|]. intros E. apply Hk.
    by rewrite <- E.
  - apply elem_of_cons in He as [->|He].
    + split; [assumption|]. by rewrite bool_decide_eq_true_2.
    + destruct (IH _ e He) as [Hk Hh].
      split; [intros Hin; apply Hk; by right|].
      rewrite bool_decide_eq_false_2; [assumption|]. intros E. apply Hk.
      rewrite <- E. by left.
Qed.

Lemma drop_duplicates_from_keys {A K} `{EqDecision K} (key : A -> K)
  (l : list A) :
  forall (seen : list K) (k : K),
    k ∈ map key l -> k ∉ seen ->
    k ∈ map key (drop_duplicates_from key seen l).
Proof.
  induction l as [|x l IH]; intros seen k Hk Hseen;
    [by apply elem_of_nil in Hk|].
  cbn [map] in Hk. cbn [drop_duplicates_from].
  apply elem_of_cons in Hk as [->|Hk].
  - rewrite bool_decide_eq_false_2 by assumption. by left.
  - case_bool_decide as Hx; [by apply IH|].
    cbn [map]. destruct (decide (k = key x)) as [->|Hne]; [by left|].
    right. apply IH; [assumption|].
    intros [?|?]%elem_of_cons; contradiction.
Qed.

Lemma drop_duplicates_from_sublist {A K} `{EqDecision K} (key : A -> K)
  (l : list A) :
  forall seen, drop_duplicates_from key seen l `sublist_of` l.
Proof.
  induction l as [|x l IH]; intros seen; [constructor|].
  cbn [drop_duplicates_from]. case_bool_decide.
  - by apply sublist_cons.
  - by apply sublist_skip.
Qed.

(** ** Step 4A: the matches and their original names *)

Lemma first_conm (k : pystr) (df_comp : list cell) :
  k <> [] ->
  head (List.filter (fun p : cell * pystr => bool_decide (p.2 = k))
          (List.filter (fun p : cell * pystr => negb (bool_decide (p.2 = [])))
             (map (fun c => (c, Step4A.clean_company_name c)) df_comp)))
  = (fun c => (c, k))
      <$> head (List.filter
                  (fun c => bool_decide (Step4A.clean_company_name c = k))
                  df_comp).
Proof.
  intros Hk. induction df_comp as [|c l IH]; [reflexivity|].
  cbn [map List.filter fst snd].
  destruct (bool_decide (Step4A.clean_company_name c = [])) eqn:E0;
    cbn [negb List.filter fst snd].
  - apply bool_decide_eq_true in E0.
    rewrite bool_decide_eq_false_2 by congruence. exact IH.
  - destruct (bool_decide (Step4A.clean_company_name c = k)) eqn:E;
      [|exact IH].
    apply bool_decide_eq_true in E. cbn. by rewrite E.
Qed.

Lemma original_map_in (u : list (cell * pystr)) :
  forall (m : gmap pystr cell) (k : pystr) (c : cell),
    fold_left (fun (m : gmap pystr cell) (p : cell * pystr) =>
                 <[p.2 := p.1]> m) u m !! k = Some c ->
    (c, k) ∈ u \/ m !! k = Some c.
Proof.
  induction u as [|[c0 k0] u IH]; intros m k c H; [by right|].
  cbn [fold_left fst snd] in H. apply IH in H as [H|H]; [left; by right|].
  destruct (decide (k = k0)) as [->|Hne].
  - rewrite lookup_insert_eq in H. injection H as ->. left. by left.
  - rewrite lookup_insert_ne in H by done. by right.
Qed.

Lemma original_map_some (u : list (cell * pystr)) :
  forall (m : gmap pystr cell) (k : pystr),
    k ∈ map snd u \/ is_Some (m !! k) ->
    is_Some (fold_left (fun (m : gmap pystr cell) (p : cell * pystr) =>
                          <[p.2 := p.1]> m) u m !! k).
Proof.
  induction u as [|[c0 k0] u IH]; intros m k H.
  - destruct H as [H|H]; [by apply elem_of_nil in H|assumption].
  - cbn [fold_left fst snd]. apply IH. cbn [map snd] in H.
    destruct (decide (k = k0)) as [->|Hne].
    + right. rewrite lookup_insert_eq. eauto.
    + destruct H as [[?|H]%elem_of_cons|H]; [done|by left|].
      right. by rewrite lookup_insert_ne.
Qed.

Lemma original_of_clean (df_comp : list cell) (k : pystr) :
  k ∈ Step4AMain.compustat_clean_list df_comp ->
  exists c,
    Step4AMain.clean_to_original_map df_comp !! k = Some c
    /\ head (List.filter
               (fun c => bool_decide (Step4A.clean_company_name c = k))
               df_comp) = Some c.
Proof.
  intros Hk. unfold Step4AMain.clean_to_original_map.
  destruct (original_map_some (Step4AMain.compustat_unique df_comp) ∅ k)
    as [c Hc]; [by left|].
  exists c. split; [assumption|].
  apply original_map_in in Hc as [Hc|Hc]; [|by rewrite lookup_empty in Hc].
  unfold Step4AMain.compustat_unique, drop_duplicates in Hc.
  apply drop_duplicates_from_first in Hc as [_ Hc]. cbn [snd] in Hc.
  assert (Hne : k <> []).
  { apply head_Some_elem_of, list_elem_of_In, filter_In in Hc as [Hc _].
    apply filter_In in Hc as [_ Hc]. cbn [snd] in Hc.
    by apply negb_true_iff, bool_decide_eq_false in Hc. }
  rewrite (first_conm k df_comp Hne) in Hc.
  destruct (head _) as [c'|]; [|discriminate]. cbn in Hc. by injection Hc as ->.
Qed.

Lemma strict_step_fold (clean_set : gset pystr)
  (rows : list (cell * pystr)) :
  forall acc,
    fold_left (Step4AMain.strict_step clean_set) rows acc
    = (acc.1 ++ map (fun row : cell * pystr =>
                       Step4AMain.mkMatch row.1 row.2 row.2
                         Step4AMain.Strict (Qc_of_Z 100))
                    (List.filter
                       (fun row : cell * pystr =>
                          negb (bool_decide (row.2 = []))
                          && bool_decide (row.2 ∈ clean_set)) rows),
       acc.2 ++ List.filter
                  (fun row : cell * pystr =>
                     negb (bool_decide (row.2 = []))
                     && negb (bool_decide (row.2 ∈ clean_set))) rows).
Proof.
  induction rows as [|row rows IH]; intros [s u]; cbn [fold_left].
  - cbn. by rewrite !app_nil_r.
  - rewrite IH. unfold Step4AMain.strict_step. cbn [List.filter fst snd].
    destruct (bool_decide (row.2 = [])); cbn [negb andb]; [reflexivity|].
    destruct (bool_decide (row.2 ∈ clean_set)); cbn [negb fst snd map];
      by rewrite <- app_assoc.
Qed.

Section Step4A.

Variable token_set_ratio : pystr -> pystr -> Qc.
Hypothesis ratio_le_100 :
  forall q c, (token_set_ratio q c <= Matching.hundred)%Qc.

Lemma fuzzy_step_fold (clean_list : list pystr)
  (rows : list (cell * pystr)) :
  forall acc,
    fold_left (Step4AMain.fuzzy_step token_set_ratio clean_list) rows acc
    = acc ++ flat_map (fun row =>
                         Step4AMain.fuzzy_step token_set_ratio clean_list
                           [] row) rows.
Proof.
  induction rows as [|row rows IH]; intros acc; cbn [fold_left flat_map].
  - by rewrite app_nil_r.
  - rewrite IH. rewrite app_assoc. f_equal.
    unfold Step4AMain.fuzzy_step.
    destruct (Matching.extractOne _ _ _ _) as [[[m s] i]|];
      [reflexivity|by rewrite app_nil_r].
Qed.

Lemma filter_disjoint_length {A} (p q : A -> bool) (l : list A) :
  (forall x, p x && q x = false) ->
  length (List.filter p l) + length (List.filter q l) <= length l.
Proof.
  intros H. induction l as [|x l IH]; [done|]. cbn [List.filter].
  specialize (H x). destruct (p x), (q x); cbn [length] in *;
    try discriminate; lia.
Qed.

Lemma target_row (df_ma : list (cell * cell)) (row : cell * pystr) :
  row ∈ Step4AMain.df_ma_target df_ma ->
  row.2 = Step4A.clean_company_name row.1
  /\ exists patent_name,
      (row.1, patent_name) ∈ df_ma /\ notna patent_name = true.
Proof.
  unfold Step4AMain.df_ma_target.
  intros ([a pn] & -> & Hin)%list_elem_of_fmap.
  apply list_elem_of_In, filter_In in Hin as [Hin Hpn].
  split; [reflexivity|]. exists pn. split; [by apply list_elem_of_In|exact Hpn].
Qed.

(** X22.  The matches of step 4A, when there are any: each comes from a
    registry row that has a [patent_name] and a non-empty cleaned name, and
    no row gives two matches; a strict match is matched to its own cleaned
    name with score 100, a fuzzy match has a cleaned name that no Compustat
    name cleans to and a score between the threshold 90 and 100; and the
    original Compustat name written beside the match is the first name of
    the Compustat table whose cleaned form is the matched name. *)
Theorem step4A_matches (df_ma : list (cell * cell)) (df_comp : list cell)
  (matches : list (Step4AMain.match_row * cell)) :
  Step4AMain.main token_set_ratio df_ma df_comp = Some matches ->
  matches <> []
  /\ length matches <= length df_ma
  /\ Forall (verified df_ma df_comp) matches.
Proof.
  unfold Step4AMain.main. rewrite strict_step_fold. cbn [fst snd app].
  rewrite fuzzy_step_fold. cbn [app].
  set (T := Step4AMain.df_ma_target df_ma).
  set (pS := fun row : cell * pystr =>
               negb (bool_decide (row.2 = []))
               && bool_decide (row.2 ∈ Step4AMain.compustat_clean_set df_comp)).
  set (pU := fun row : cell * pystr =>
               negb (bool_decide (row.2 = []))
               && negb (bool_decide
                          (row.2 ∈ Step4AMain.compustat_clean_set df_comp))).
  set (S := map _ (List.filter pS T)).
  set (F := flat_map _ (List.filter pU T)).
  assert (HS : Forall (fun r => verified df_ma df_comp
                 (r, default CNull
                       (Step4AMain.clean_to_original_map df_comp
                          !! Step4AMain.Matched_Compustat_Clean r))) S).
  { apply Forall_forall. intros r (row & -> & Hrow)%list_elem_of_fmap.
    apply list_elem_of_In, filter_In in Hrow as [Hrow Hp].
    apply list_elem_of_In, target_row in Hrow as [Hclean Hpn].
    apply andb_prop in Hp as [Hne Hin].
    apply negb_true_iff, bool_decide_eq_false in Hne.
    apply bool_decide_eq_true, elem_of_list_to_set in Hin.
    destruct (original_of_clean df_comp row.2 Hin) as (c & Hc & Hfirst).
    unfold verified. cbn [fst snd Step4AMain.Acquiror_Original
      Step4AMain.Acquiror_Clean Step4AMain.Matched_Compustat_Clean
      Step4AMain.Match_Type Step4AMain.Score].
    rewrite Hc. cbn [default]. repeat split; assumption. }
  assert (HF : Forall (fun r => verified df_ma df_comp
                 (r, default CNull
                       (Step4AMain.clean_to_original_map df_comp
                          !! Step4AMain.Matched_Compustat_Clean r))) F).
  { apply Forall_forall. intros r Hr.
    apply list_elem_of_In, in_flat_map in Hr as (row & Hrow & Hr).
    apply filter_In in Hrow as [Hrow Hp].
    apply list_elem_of_In, target_row in Hrow as [Hclean Hpn].
    apply andb_prop in Hp as [Hne Hin].
    apply negb_true_iff, bool_decide_eq_false in Hne.
    apply negb_true_iff, bool_decide_eq_false in Hin.
    unfold Step4AMain.fuzzy_step in Hr.
    destruct (Matching.extractOne _ _ _ _) as [[[m s] i]|] eqn:E;
      [|destruct Hr].
    destruct Hr as [<-|[]].
    apply (extractOne_ok token_set_ratio ratio_le_100) in E as (Hm & Hlo & Hhi).
    destruct (original_of_clean df_comp m Hm) as (c & Hc & Hfirst).
    unfold verified. cbn [fst snd Step4AMain.Acquiror_Original
      Step4AMain.Acquiror_Clean Step4AMain.Matched_Compustat_Clean
      Step4AMain.Match_Type Step4AMain.Score].
    rewrite Hc. cbn [default]. repeat split; assumption. }
  assert (HlenF : length F <= length (List.filter pU T)).
  { subst F. clear. induction (List.filter pU T) as [|row l IH]; [done|].
    cbn [flat_map]. rewrite length_app. cbn [length].
    unfold Step4AMain.fuzzy_step at 1.
    destruct (Matching.extractOne _ _ _ _) as [[[m s] i]|]; cbn [length app];
      lia. }
  assert (HlenT : length T <= length df_ma).
  { subst T. unfold Step4AMain.df_ma_target. rewrite length_map.
    clear. induction df_ma as [|x l IH]; [done|]. cbn [List.filter].
    destruct (notna x.2); cbn [length]; lia. }
  assert (Hdisj : length (List.filter pS T) + length (List.filter pU T)
                  <= length T).
  { apply filter_disjoint_length. intros x. unfold pS, pU.
    destruct (bool_decide (x.2 = [])), (bool_decide (x.2 ∈ _)); reflexivity. }
  assert (HlenS : length S = length (List.filter pS T))
    by (subst S; by rewrite length_map).
  clearbody S F T.
  destruct (S ++ F) as [|r0 rs] eqn:E; [discriminate|]. rewrite <- E.
  intros [= <-]. repeat split.
  - rewrite E. discriminate.
  - rewrite length_map, length_app. lia.
  - apply Forall_map. apply Forall_app. by split.
Qed.

End Step4A.

Lemma step4A_matches_witness :
  let df_ma := [(CStr (lit "Acme Inc"), CStr (lit "P1"));
                (CStr (lit "Other Ltd"), CNull)] in
  let df_comp := [CStr (lit "ACME CORP"); CStr (lit "ACME INC")] in
  let matches :=
    [(Step4AMain.mkMatch (CStr (lit "Acme Inc")) (lit "ACME") (lit "ACME")
        Step4AMain.Strict (Qc_of_Z 100), CStr (lit "ACME CORP"))] in
  Step4AMain.main exact_ratio df_ma df_comp = Some matches
  /\ matches <> []
  /\ length matches <= length df_ma
  /\ Forall (verified df_ma df_comp) matches.
Proof.
  split; [vm_compute; reflexivity|].
  apply (step4A_matches exact_ratio exact_ratio_le_100).
  vm_compute. reflexivity.
Defined.

(** ** From the mapping to the aggregation *)

Lemma Forall_zip_with_elem {A B C} (Q : C -> Prop) (f : A -> B -> C)
  (l : list A) (k : list B) :
  (forall a b, a ∈ l -> b ∈ k -> Q (f a b)) -> Forall Q (zip_with f l k).
Proof.
  revert k. induction l as [|a l IH]; intros [|b k] H; cbn [zip_with];
    try constructor.
  - apply H; apply elem_of_cons; by left.
  - apply IH. intros a' b' Ha Hb. apply H; apply elem_of_cons; by right.
Qed.

Lemma assign_wf (df : DataFrame) (c : pystr) (vals : list cell) :
  wf_frame df -> wf_frame (assign df c vals).
Proof.
  unfold wf_frame, assign. intros H.
  destruct (col_pos (columns df) c); cbn [columns rows];
    apply Forall_zip_with_elem; intros r v Hr _;
    apply (proj1 (Forall_forall _ _) H) in Hr.
  - by rewrite length_insert.
  - rewrite !length_app. cbn [length]. lia.
Qed.

Lemma assign_column_all (df : DataFrame) (c : pystr) (vals : list cell)
  (P : cell -> Prop) :
  wf_frame df -> Forall P vals -> column_all (assign df c vals) c P.
Proof.
  unfold wf_frame, assign, column_all. intros Hwf HP.
  destruct (col_pos (columns df) c) as [i|] eqn:E; cbn [columns rows].
  - exists i. split; [exact E|]. apply Forall_zip_with_elem.
    intros r v Hr Hv. apply (proj1 (Forall_forall _ _) Hwf) in Hr.
    apply (proj1 (Forall_forall _ _) HP) in Hv.
    unfold at_pos. rewrite list_lookup_insert_eq; [exact Hv|].
    rewrite Hr. by apply col_pos_lt in E.
  - exists (length (columns df)). split.
    + apply col_pos_None in E. rewrite col_pos_app_r by exact E.
      rewrite col_pos_here. reflexivity.
    + apply Forall_zip_with_elem. intros r v Hr Hv.
      apply (proj1 (Forall_forall _ _) Hwf) in Hr.
      apply (proj1 (Forall_forall _ _) HP) in Hv.
      unfold at_pos. rewrite lookup_app_r by lia.
      rewrite Hr, Nat.sub_diag. exact Hv.
Qed.

Lemma assign_column_other (df : DataFrame) (c c' : pystr) (vals : list cell)
  (P : cell -> Prop) :
  wf_frame df -> c <> c' -> column_all df c' P ->
  column_all (assign df c vals) c' P.
Proof.
  unfold wf_frame, assign, column_all. intros Hwf Hne (i' & Ei' & HP).
  exists i'.
  destruct (col_pos (columns df) c) as [i|] eqn:E; cbn [columns rows].
  - split; [exact Ei'|]. apply Forall_zip_with_elem. intros r v Hr _.
    rewrite at_pos_insert_ne.
    + by apply (proj1 (Forall_forall _ _) HP).
    + intros ->. apply Hne. by apply (col_pos_inj (columns df) c c' i').
  - split; [by apply col_pos_app_l|]. apply Forall_zip_with_elem.
    intros r v Hr _. rewrite at_pos_app_l.
    + by apply (proj1 (Forall_forall _ _) HP).
    + apply (proj1 (Forall_forall _ _) Hwf) in Hr. rewrite Hr.
      by apply col_pos_lt in Ei'.
Qed.

Lemma dropna_wf (df df' : DataFrame) (cs : list pystr) :
  dropna df cs = Some df' -> wf_frame df -> wf_frame df'.
Proof.
  unfold dropna, wf_frame. intros (ps & _ & [= <-])%bind_Some H.
  cbn [columns rows]. apply Forall_forall. intros r Hr.
  apply list_elem_of_In, filter_In in Hr as [Hr _].
  apply list_elem_of_In in Hr. by apply (proj1 (Forall_forall _ _) H).
Qed.

Lemma dropna_column_other (df df' : DataFrame) (cs : list pystr) (c : pystr)
  (P : cell -> Prop) :
  dropna df cs = Some df' -> column_all df c P -> column_all df' c P.
Proof.
  unfold dropna, column_all. intros (ps & _ & [= <-])%bind_Some (i & Ei & H).
  cbn [columns rows]. exists i. split; [exact Ei|].
  apply Forall_forall. intros r Hr.
  apply list_elem_of_In, filter_In in Hr as [Hr _].
  apply list_elem_of_In in Hr. by apply (proj1 (Forall_forall _ _) H).
Qed.

Lemma dropna_column (df df' : DataFrame) (c : pystr) (P : cell -> Prop) :
  dropna df [c] = Some df' -> column_all df c P ->
  column_all df' c (fun v => P v /\ notna v = true).
Proof.
  intros Hd (i & Ei & H). rewrite (dropna_one df c i Ei) in Hd.
  injection Hd as <-. exists i. cbn [columns rows]. split; [exact Ei|].
  apply Forall_forall. intros r Hr.
  apply list_elem_of_In, filter_In in Hr as [Hr Hn].
  apply list_elem_of_In in Hr. split.
  - by apply (proj1 (Forall_forall _ _) H).
  - cbn [forallb] in Hn. by apply andb_prop in Hn as [Hn _].
Qed.

Lemma ensure_cols_wf (cs : list pystr) (df : DataFrame) :
  wf_frame df -> wf_frame (Step3.ensure_cols cs df).
Proof.
  unfold wf_frame, Step3.ensure_cols. intros H.
  destruct (ensure_cols_shape cs df) as (added & -> & -> & _).
  apply Forall_map. eapply Forall_impl; [exact H|]. cbv beta.
  intros r Hr. rewrite !length_app, length_replicate. lia.
Qed.

Lemma ensure_cols_column (cs : list pystr) (df : DataFrame) (c : pystr)
  (P : cell -> Prop) :
  column_all df c P -> column_all (Step3.ensure_cols cs df) c P.
Proof.
  unfold column_all, Step3.ensure_cols. intros (i & Ei & H).
  destruct (ensure_cols_shape cs df) as (added & -> & -> & _).
  exists i. split; [by apply col_pos_app_l|].
  apply Forall_map. eapply Forall_impl; [exact H|]. cbv beta.
  intros r Hr. by rewrite at_pos_app_nulls.
Qed.

Lemma column_all_impl (df : DataFrame) (c : pystr) (P Q : cell -> Prop) :
  (forall v, P v -> Q v) -> column_all df c P -> column_all df c Q.
Proof.
  intros HPQ (i & Ei & H). exists i. split; [exact Ei|].
  eapply Forall_impl; [exact H|]. intros r. apply HPQ.
Qed.

Lemma series_column (df : DataFrame) (c : pystr) (vals : list cell)
  (P : cell -> Prop) :
  series df c = Some vals -> column_all df c P -> Forall P vals.
Proof.
  unfold series. intros (i & Ei & [= <-])%bind_Some (i' & Ei' & H).
  rewrite Ei in Ei'. injection Ei' as <-. by apply Forall_map.
Qed.

Lemma series_column_exists (df : DataFrame) (c : pystr) (vals : list cell) :
  series df c = Some vals -> column_all df c (fun _ => True).
Proof.
  unfold series. intros (i & Ei & _)%bind_Some. exists i.
  split; [exact Ei|]. apply Forall_forall. done.
Qed.

Lemma map_dict_target (master_dict : gmap pystr pystr) (v : cell) :
  Step3.map_dict master_dict v = CNull
  \/ target_of master_dict (Step3.map_dict master_dict v).
Proof.
  destruct v as [|q|k]; cbn [Step3.map_dict]; try by left.
  destruct (master_dict !! k) as [a|] eqn:E; [|by left].
  right. by exists k, a.
Qed.

(** The rows [aggregate_data] reads from a frame whose entity column holds
    targets, whose year column holds numbers and whose weight column holds
    numbers. *)
Lemma read_matched_targets (master_dict : gmap pystr pystr) (df : DataFrame) :
  column_all df (lit "Matched_Acquiror") (target_of master_dict) ->
  column_all df (lit "application_year") (fun v => exists q, v = CNum q) ->
  column_all df (lit "assignee") (fun _ => True) ->
  column_all df (lit "final_inventor_count") (fun v => exists q, v = CNum q) ->
  exists ms,
    Step3.read_matched df = Some ms
    /\ Forall (fun m => target_of master_dict (CStr (Step3.m_acquiror m))) ms.
Proof.
  intros (a & Ea & Ha) (y & Ey & Hy) (n & En & _) (w & Ew & Hw).
  unfold Step3.read_matched. rewrite Ea, Ey, En, Ew.
  cbn [mbind option_bind].
  induction (rows df) as [|r rs IH].
  - exists []. split; [reflexivity|constructor].
  - apply Forall_cons in Ha as [Ha1 Ha]. apply Forall_cons in Hy as [Hy1 Hy].
    apply Forall_cons in Hw as [Hw1 Hw].
    destruct (IH Ha Hy Hw) as (ms & Hms & Hall).
    destruct Ha1 as (k & acq & Hk & Eacq). destruct Hy1 as [yr Eyr].
    destruct Hw1 as [wt Ewt].
    exists (Step3.mkMatched acq (Qc_trunc yr) (at_pos n r) (Some wt) :: ms).
    split.
    + cbn [mapM]. rewrite Eacq, Eyr, Ewt. cbn [mbind option_bind].
      rewrite Hms. reflexivity.
    + constructor; [|exact Hall]. by exists k, acq.
Qed.

Section Pipeline.

Variable repr_number : Qc -> pystr.
Variable parse_number : pystr -> option Qc.
Variable set_to_list : list cell -> list cell.

(** X23.  Steps 4 and 5 of the aggregation compose: on a well-formed patent
    table, whatever [process_patent_data] returns, [aggregate_data] reads
    without an error, and the names in the column acquiror_name of both of
    its tables are values of the master dictionary. *)
Theorem process_then_aggregate (df_patent df_matched : DataFrame)
  (master_dict : gmap pystr pystr) :
  wf_frame df_patent ->
  Step3.process_patent_data repr_number parse_number df_patent master_dict
  = Some df_matched ->
  exists df_stats df_names,
    Step3.aggregate_data set_to_list df_matched = Some (df_stats, df_names)
    /\ column_all df_stats (lit "acquiror_name") (target_of master_dict)
    /\ column_all df_names (lit "acquiror_name") (target_of master_dict).
Proof.
  intros Hwf H. unfold Step3.process_patent_data in H.
  apply bind_Some in H as (assignee & Hassignee & H).
  apply series_column_exists in Hassignee as HA.
  set (df1 := assign df_patent (lit "assignee_stripped") _) in H.
  assert (Hwf1 : wf_frame df1) by (by apply assign_wf).
  assert (HA1 : column_all df1 (lit "assignee") (fun _ => True)).
  { apply assign_column_other; [assumption| |assumption].
    intros E. by apply lit_inj in E. }
  clearbody df1.
  set (df2 := assign df1 (lit "Matched_Acquiror") _) in H.
  assert (Hwf2 : wf_frame df2) by (by apply assign_wf).
  assert (HA2 : column_all df2 (lit "assignee") (fun _ => True)).
  { apply assign_column_other; [assumption| |assumption].
    intros E. by apply lit_inj in E. }
  assert (HM2 : column_all df2 (lit "Matched_Acquiror")
                  (fun v => v = CNull \/ target_of master_dict v)).
  { apply assign_column_all; [assumption|]. apply Forall_map.
    apply Forall_forall. intros v _. apply map_dict_target. }
  clearbody df2.
  apply bind_Some in H as (df3 & Hdf3 & H).
  assert (Hwf3 : wf_frame df3) by (by apply (dropna_wf df2 df3 _ Hdf3)).
  assert (HA3 : column_all df3 (lit "assignee") (fun _ => True))
    by (by apply (dropna_column_other df2 df3 _ _ _ Hdf3)).
  assert (HM3 : column_all df3 (lit "Matched_Acquiror")
                  (target_of master_dict)).
  { apply (dropna_column df2 df3 _ _ Hdf3) in HM2.
    eapply column_all_impl; [|exact HM2]. cbv beta.
    intros v [[->|Hv] Hn]; [discriminate|exact Hv]. }
  clear Hdf3 HM2 HA2 Hwf2 df2.
  apply bind_Some in H as (year & Hyear & H).
  set (df4 := assign df3 (lit "application_year") _) in H.
  assert (Hwf4 : wf_frame df4) by (by apply assign_wf).
  assert (HA4 : column_all df4 (lit "assignee") (fun _ => True)).
  { apply assign_column_other; [assumption| |assumption].
    intros E. by apply lit_inj in E. }
  assert (HM4 : column_all df4 (lit "Matched_Acquiror")
                  (target_of master_dict)).
  { apply assign_column_other; [assumption| |assumption].
    intros E. by apply lit_inj in E. }
  assert (HY4 : column_all df4 (lit "application_year")
                  (fun v => v = CNull \/ exists q, v = CNum q)).
  { apply assign_column_all; [assumption|]. apply Forall_map.
    apply Forall_forall. intros v _.
    destruct (Step3.to_numeric parse_number v) as [q|];
      cbn [Step3.num_cell]; [right; by exists q|by left]. }
  clearbody df4. clear Hyear year.
  apply bind_Some in H as (df5 & Hdf5 & H).
  assert (Hwf5 : wf_frame df5) by (by apply (dropna_wf df4 df5 _ Hdf5)).
  assert (HA5 : column_all df5 (lit "assignee") (fun _ => True))
    by (by apply (dropna_column_other df4 df5 _ _ _ Hdf5)).
  assert (HM5 : column_all df5 (lit "Matched_Acquiror")
                  (target_of master_dict))
    by (by apply (dropna_column_other df4 df5 _ _ _ Hdf5)).
  assert (HY5 : column_all df5 (lit "application_year")
                  (fun v => exists q, v = CNum q)).
  { apply (dropna_column df4 df5 _ _ Hdf5) in HY4.
    eapply column_all_impl; [|exact HY4]. cbv beta.
    intros v [[->|Hv] Hn]; [discriminate|exact Hv]. }
  clear Hdf5 HY4 HM4 HA4 Hwf4 df4.
  apply bind_Some in H as (year & Hyear & H).
  apply (series_column _ _ _ _ Hyear) in HY5 as Hyears.
  set (df6 := assign df5 (lit "application_year") _) in H.
  assert (Hwf6 : wf_frame df6) by (by apply assign_wf).
  assert (HA6 : column_all df6 (lit "assignee") (fun _ => True)).
  { apply assign_column_other; [assumption| |assumption].
    intros E. by apply lit_inj in E. }
  assert (HM6 : column_all df6 (lit "Matched_Acquiror")
                  (target_of master_dict)).
  { apply assign_column_other; [assumption| |assumption].
    intros E. by apply lit_inj in E. }
  assert (HY6 : column_all df6 (lit "application_year")
                  (fun v => exists q, v = CNum q)).
  { apply assign_column_all; [assumption|]. apply Forall_map.
    eapply Forall_impl; [exact Hyears|]. cbv beta.
    intros v [q ->]. by eexists. }
  clearbody df6. clear Hyears Hyear year.
  set (df7 := Step3.ensure_cols Step3.inventor_name_cols df6) in H.
  assert (Hwf7 : wf_frame df7) by (by apply ensure_cols_wf).
  assert (HA7 : column_all df7 (lit "assignee") (fun _ => True))
    by (by apply ensure_cols_column).
  assert (HM7 : column_all df7 (lit "Matched_Acquiror")
                  (target_of master_dict))
    by (by apply ensure_cols_column).
  assert (HY7 : column_all df7 (lit "application_year")
                  (fun v => exists q, v = CNum q))
    by (by apply ensure_cols_column).
  clearbody df7.
  apply bind_Some in H as (counts & _ & Hdf). apply (inj Some) in Hdf.
  subst df_matched.
  destruct (read_matched_targets master_dict
              (assign df7 (lit "final_inventor_count") (map CNum counts)))
    as (ms & Hms & Hall).
  { apply assign_column_other; [assumption| |assumption].
    intros E. by apply lit_inj in E. }
  { apply assign_column_other; [assumption| |assumption].
    intros E. by apply lit_inj in E. }
  { apply assign_column_other; [assumption| |assumption].
    intros E. by apply lit_inj in E. }
  { apply assign_column_all; [assumption|]. apply Forall_map.
    apply Forall_forall. intros q _. by exists q. }
  assert (Hent : Forall (fun acq => target_of master_dict (CStr acq))
                        (Step3.entities ms)).
  { apply Forall_forall. intros acq Hacq.
    apply sorted_unique_elem, list_elem_of_fmap in Hacq as (m & -> & Hm).
    by apply (proj1 (Forall_forall _ _) Hall). }
  exists (Step3.stats_of ms), (Step3.names_of set_to_list ms).
  split; [unfold Step3.aggregate_data; by rewrite Hms|].
  split; (exists 0; split; [reflexivity|]).
  - unfold Step3.stats_of. cbn [rows]. apply Forall_map.
    eapply Forall_impl; [exact Hent|]. done.
  - rewrite names_of_uncut. cbn [rows]. apply Forall_map.
    eapply Forall_impl; [exact Hent|]. done.
Qed.

End Pipeline.

Lemma process_then_aggregate_witness :
  let df_patent :=
    mkDF example_patent_cols
         [[CStr (lit "ACME CORP"); CNum (Qc_of_Z 1995); CNum (Qc_of_Z 2)];
          [CStr (lit " Gamma LLC "); CNum (Qc_of_Z 1995); CNull]] in
  wf_frame df_patent
  /\ exists df_matched df_stats df_names,
      Step3.process_patent_data (fun _ => []) (fun _ => None) df_patent
        example_dict = Some df_matched
      /\ Step3.aggregate_data (fun l => l) df_matched
         = Some (df_stats, df_names)
      /\ column_all df_stats (lit "acquiror_name") (target_of example_dict)
      /\ column_all df_names (lit "acquiror_name") (target_of example_dict).
Proof.
  intros df_patent.
  assert (Hwf : wf_frame df_patent) by (repeat constructor).
  split; [exact Hwf|].
  destruct (process_returns (fun _ => []) (fun _ => None) df_patent
              example_dict 0 1 2 eq_refl eq_refl eq_refl) as [df_matched Hm].
  destruct (process_then_aggregate (fun _ => []) (fun _ => None) (fun l => l)
              df_patent df_matched example_dict Hwf Hm)
    as (df_stats & df_names & Hagg & Hs & Hn).
  exists df_matched, df_stats, df_names. repeat split; assumption.
Defined.

(** ** The cleaning function never raises *)

Lemma re_sub_raising_Some (ic : bool) (pat : string) (repl s : pystr) :
  is_Some (re_compile pat) -> backslash ∉ repl ->
  re_sub_raising ic pat repl s = Some (re_sub_flags ic pat repl s).
Proof.
  intros [re Hre] Hrepl. unfold re_sub_raising, re_sub_flags. rewrite Hre.
  cbn [mbind option_bind]. by rewrite bool_decide_eq_false_2.
Qed.

(** [re.sub] does raise on other arguments: an unclosed bracket and a
    repetition of nothing are no patterns, and a lone backslash is no
    replacement template. *)
Lemma re_sub_raising_raises :
  re_sub_raising false "[A-Z" [] (lit "A") = None
  /\ re_sub_raising false "+A" [] (lit "A") = None
  /\ re_sub_raising false "A" [backslash] (lit "A") = None.
Proof. repeat split; reflexivity. Qed.

Lemma fold_left_returns {A} (f : pystr -> A -> pystr)
  (h : option pystr -> A -> option pystr) (l : list A) :
  Forall (fun a => forall s, h (Some s) a = Some (f s a)) l ->
  forall s, fold_left h l (Some s) = Some (fold_left f l s).
Proof.
  induction 1 as [|a l Ha _ IH]; intros s; [reflexivity|].
  cbn [fold_left]. rewrite Ha. apply IH.
Qed.

Ltac compiles :=
  apply re_sub_raising_Some;
  [vm_compute; eauto
  |rewrite list_elem_of_In; vm_compute; intuition discriminate].

Lemma expand_abbreviations_returns (name : pystr) :
  Step1Raising.expand_abbreviations name
  = Some (Step1.expand_abbreviations name).
Proof.
  apply fold_left_returns. unfold Step1.abbreviations.
  repeat constructor; intros s; cbn [mbind option_bind]; compiles.
Qed.

Lemma remove_suffixes_returns (name : pystr) :
  Step1Raising.remove_suffixes Step1.suffixes_priority name
  = Some (Step1.remove_suffixes Step1.suffixes_priority name).
Proof.
  apply fold_left_returns. unfold Step1.suffixes_priority.
  repeat constructor; intros s; cbn [mbind option_bind]; compiles.
Qed.

Lemma clean_str_returns (name : pystr) :
  Step1Raising.clean_str Step1.suffixes_priority name
  = Some (Step1.clean_str Step1.suffixes_priority name).
Proof.
  unfold Step1Raising.clean_str, Step1.clean_str. cbv zeta.
  rewrite expand_abbreviations_returns. cbn [mbind option_bind].
  rewrite remove_suffixes_returns. cbn [mbind option_bind].
  rewrite re_sub_raising_Some;
    [|vm_compute; eauto
     |rewrite list_elem_of_In; vm_compute; intuition discriminate].
  cbn [mbind option_bind].
  rewrite re_sub_raising_Some;
    [|vm_compute; eauto
     |rewrite list_elem_of_In; vm_compute; intuition discriminate].
  reflexivity.
Qed.

(** C9. Normalization never fails: with the exceptions of [re] made
    explicit, the function returns a string on every cell, a text included
    (every pattern of its tables compiles and no replacement needs
    reading), and that string is the value of the function; a missing
    value (None, NaN) and a value that is not a text give the empty string,
    and so does the empty text, so that
    normalize(None) = normalize("") = "". *)
Theorem clean_company_name_total :
  (forall v : cell,
      Step1Raising.clean_company_name v = Some (Step1.clean_company_name v))
  /\ (forall v : cell, is_str v = false -> Step1.clean_company_name v = [])
  /\ Step1.clean_company_name CNull = Step1.clean_company_name (CStr (lit ""))
  /\ Step1.clean_company_name (CStr (lit "")) = [].
Proof.
  split; [|split; [|split]].
  - intros [|q|s]; [reflexivity|reflexivity|].
    unfold Step1Raising.clean_company_name, Step1.clean_company_name.
    cbn [isna is_str negb orb]. apply clean_str_returns.
  - intros [|q|s] H; [reflexivity|reflexivity|discriminate].
  - vm_compute. reflexivity.
  - vm_compute. reflexivity.
Qed.
(** C4. On a host with a single CPU the parallel branch asks for
    [min(cpu_count() - 1, 4) = 0] sections and workers: for a tier with 101
    records outside the registry, a threshold and [use_parallel=True],
    [perform_matching] raises, whatever the scorer, so no record of the tier
    receives an outcome; the serial branch of the same function, taken with
    [use_parallel=False], returns on the same records. *)
Theorem perform_matching_single_cpu_raises
  (token_set_ratio : pystr -> pystr -> Qc) :
  length single_cpu_tier = 101
  /\ Matching.perform_matching token_set_ratio 1 {[lit "ZETA"]} [lit "ZETA"]
       single_cpu_tier (lit "Tier 1") (Some (Qc_of_Z 90)) true = None
  /\ is_Some
       (Matching.perform_matching token_set_ratio 1 {[lit "ZETA"]}
          [lit "ZETA"] single_cpu_tier (lit "Tier 1") (Some (Qc_of_Z 90))
          false).
Proof.
  split; [reflexivity|].
  rewrite !perform_matching_spec. cbv zeta.
  assert (E : length (unmatched {[lit "ZETA"]} single_cpu_tier) = 101)
    by (vm_compute; reflexivity).
  rewrite E. split; [reflexivity|]. cbn [andb]. eauto.
Qed.
(** ** Records without a dictionary entry, and the rows of the registry *)

Lemma read_matched_years (df : DataFrame) (ms : list Step3.matched_row)
  (y : nat) :
  col_pos (columns df) (lit "application_year") = Some y ->
  Step3.read_matched df = Some ms ->
  forall (r : list cell) (q : Qc),
    r ∈ rows df -> at_pos y r = CNum q -> Qc_trunc q ∈ map Step3.m_year ms.
Proof.
  intros Hy H. unfold Step3.read_matched in H. rewrite Hy in H.
  destruct (col_pos (columns df) (lit "Matched_Acquiror")) as [a|];
    [|discriminate].
  cbn [mbind option_bind] in H.
  destruct (col_pos (columns df) (lit "assignee")) as [n|]; [|discriminate].
  cbn [mbind option_bind] in H.
  destruct (col_pos (columns df) (lit "final_inventor_count")) as [w|];
    [|discriminate].
  cbn [mbind option_bind] in H. apply mapM_Some in H.
  induction H as [|r0 m rs ms' Hr _ IH]; intros r q Hin Hq.
  - by apply elem_of_nil in Hin.
  - cbn [map]. apply elem_of_cons in Hin as [->|Hin].
    + apply elem_of_cons. left. rewrite Hq in Hr.
      destruct (at_pos a r0) as [| |acq]; try discriminate.
      destruct (at_pos w r0) as [|wt|]; try discriminate;
        injection Hr as <-; reflexivity.
    + apply elem_of_cons. right. by apply (IH r q).
Qed.

(** The merged table has the rows of the registry, one for one and in their
    order, each with its own name, and the two metric columns of every year
    of the matched records. *)
Lemma merge_covers (set_to_list : list cell -> list cell)
  (ms : list Step3.matched_row) (df_main : DataFrame) (a : nat) :
  wf_frame df_main ->
  col_pos (columns df_main) (lit "acquiror_name") = Some a ->
  forall df_final : DataFrame,
    Step3.merge_to_final_outcome df_main (Step3.stats_of ms)
      (Step3.names_of set_to_list ms) = Some df_final ->
    Forall2 (fun rm rf =>
               row_get (columns df_final) rf (lit "acquiror_name")
               = Some (at_pos a rm))
            (rows df_main) (rows df_final)
    /\ forall yr : Z,
        yr ∈ map Step3.m_year ms ->
        Step3.patent_col yr ∈ columns df_final
        /\ Step3.patent_inventor_col yr ∈ columns df_final.
Proof.
  intros Hwf Ha df_final HM.
  destruct (merge_shape set_to_list ms df_main a Hwf Ha) as (a' & Ha' & HM').
  rewrite HM in HM'. apply (inj Some) in HM'. subst df_final.
  cbn [columns rows]. split.
  - unfold drop_cols. cbn [columns rows]. rewrite map_map.
    apply Forall2_fmap_r. apply Forall_Forall2_diag.
    apply Forall_forall. intros r Hr.
    assert (Hlen : length r = length (columns df_main))
      by (by apply (proj1 (Forall_forall _ _) Hwf)).
    destruct (select_col_pos Step3.old_col (lit "acquiror_name") eq_refl
                (columns df_main) r a Ha Hlen) as (i' & H1 & H2 & H3).
    unfold drop_cols in Ha'. cbn [columns] in Ha'.
    rewrite H1 in Ha'. apply (inj Some) in Ha'. subst i'.
    unfold row_get. rewrite (col_pos_app_l _ _ _ _ H1).
    cbn [mbind option_bind]. f_equal.
    rewrite at_pos_app_l; [exact H2|].
    by rewrite (select_length Step3.old_col (columns df_main) r Hlen).
  - intros yr Hyr.
    assert (Hy : yr ∈ Step3.years ms) by (by apply sorted_unique_elem).
    unfold Step3.stats_of. cbn [columns delete list_delete].
    split; apply elem_of_app; right; apply elem_of_app; left;
      apply elem_of_app; [left|right]; apply list_elem_of_fmap; by exists yr.
Qed.

(** C6. A record whose stripped raw name is not a key of the master mapping
    is dropped by [process_patent_data] without an error: the frame handed
    to the aggregation exists and is the one obtained without the record, so
    the record adds nothing to any total.  The merge onto the main table
    returns a table with one row for every row of the registry, in the same
    order and with the same name, and with the columns patent_<year> and
    patent_inventor_<year> of every year of a matched record; every cell of
    a metric column is a number, and it is 0 in every row whose name has no
    matched record; the columns patent_<year> and patent_inventor_<year> are
    metric columns. *)
Theorem unmapped_record_contributes_nothing
  (repr_number : Qc -> pystr) (parse_number : pystr -> option Qc)
  (set_to_list : list cell -> list cell)
  (master_dict : gmap pystr pystr) (cols : list pystr)
  (rows1 rows2 : list (list cell)) (r : list cell) (i y n : nat)
  (Hi : col_pos cols (lit "assignee") = Some i)
  (Hy : col_pos cols (lit "application_year") = Some y)
  (Hn : col_pos cols (lit "inventors") = Some n)
  (Hlen : length r = length cols)
  (Hun : master_dict !! py_strip (py_str repr_number (at_pos i r)) = None) :
  (exists df_matched : DataFrame,
      Step3.process_patent_data repr_number parse_number
        (mkDF cols (rows1 ++ r :: rows2)) master_dict = Some df_matched
      /\ Step3.process_patent_data repr_number parse_number
           (mkDF cols (rows1 ++ rows2)) master_dict = Some df_matched)
  /\ (forall (df_main df_matched df_stats df_names : DataFrame) (a : nat)
             (names : list cell),
         wf_frame df_main ->
         col_pos (columns df_main) (lit "acquiror_name") = Some a ->
         Step3.aggregate_data set_to_list df_matched
         = Some (df_stats, df_names) ->
         series df_matched (lit "Matched_Acquiror") = Some names ->
         exists df_final : DataFrame,
           Step3.merge_to_final_outcome df_main df_stats df_names
           = Some df_final
           /\ Forall2 (fun entity row =>
                         row_get (columns df_final) row (lit "acquiror_name")
                         = Some (at_pos a entity))
                      (rows df_main) (rows df_final)
           /\ (forall (record : list cell) (q : Qc),
                  record ∈ rows df_matched ->
                  row_get (columns df_matched) record (lit "application_year")
                  = Some (CNum q) ->
                  Step3.patent_col (Qc_trunc q) ∈ columns df_final
                  /\ Step3.patent_inventor_col (Qc_trunc q)
                     ∈ columns df_final)
           /\ forall (row : list cell) (p : nat) (label : pystr),
               row ∈ rows df_final ->
               columns df_final !! p = Some label ->
               Step3.stat_col label = true ->
               exists q : Qc,
                 row !! p = Some (CNum q)
                 /\ forall k : cell,
                     row_get (columns df_final) row (lit "acquiror_name")
                     = Some k ->
                     k ∉ names ->
                     q = Qc_of_Z 0)
  /\ (forall yr : Z,
         Step3.stat_col (Step3.patent_col yr) = true
         /\ Step3.stat_col (Step3.patent_inventor_col yr) = true).
Proof.
  split; [|split].
  - destruct (process_returns repr_number parse_number
                (mkDF cols (rows1 ++ rows2)) master_dict i y n Hi Hy Hn)
      as [df_matched Hm].
    exists df_matched. split; [|exact Hm]. rewrite <- Hm.
    destruct (process_unfold repr_number parse_number cols master_dict i Hi)
      as [rest Hrest].
    rewrite !Hrest. f_equal.
    destruct (assign_cols_pos (assign_cols cols (lit "assignee_stripped"))
                (lit "Matched_Acquiror")) as [j Hj].
    rewrite !(dropna_one _ _ j) by exact Hj.
    cbn [columns rows]. f_equal. f_equal.
    rewrite !filter_map_comm. f_equal.
    rewrite !List.filter_app. f_equal. cbn [List.filter].
    unfold Step3.map_dict at 1. rewrite Hun. cbn [forallb].
    rewrite assign_row_null; [reflexivity|exact Hj|].
    apply assign_row_length_le. lia.
  - intros df_main df_matched df_stats df_names a names Hwf Ha Hagg Hnames.
    unfold Step3.aggregate_data in Hagg.
    destruct (Step3.read_matched df_matched) as [ms|] eqn:Hread;
      [|discriminate].
    apply (inj Some) in Hagg. apply pair_equal_spec in Hagg as [<- <-].
    destruct (metrics_zero_filled set_to_list ms df_main a Hwf Ha)
      as (df_final & HM & Hcells).
    destruct (merge_covers set_to_list ms df_main a Hwf Ha df_final HM)
      as [Hrows Hyears].
    exists df_final. split; [exact HM|]. split; [exact Hrows|]. split.
    + intros record q Hrec Hq. unfold row_get in Hq.
      apply bind_Some in Hq as (yp & Hyp & Hq). apply (inj Some) in Hq.
      apply Hyears.
      by apply (read_matched_years df_matched ms yp Hyp Hread record q).
    + intros row p label Hrow Hp Hstat.
      destruct (Hcells row p label Hrow Hp Hstat) as (q & Hq & Hzero).
      exists q. split; [exact Hq|]. intros k Hk Hnot. apply (Hzero k Hk).
      intros Hin. apply Hnot.
      unfold series in Hnames.
      destruct (col_pos (columns df_matched) (lit "Matched_Acquiror"))
        as [am|] eqn:Eam; [|discriminate].
      apply (inj Some) in Hnames. subst names.
      rewrite (read_matched_names df_matched ms am Eam Hread).
      apply list_elem_of_In, in_map_iff in Hin as (acq & <- & Hacq).
      apply list_elem_of_In in Hacq.
      apply sorted_unique_elem in Hacq.
      apply list_elem_of_In, in_map_iff in Hacq as (m & <- & Hmin).
      apply list_elem_of_In, in_map_iff.
      exists m. split; [reflexivity|assumption].
  - intros yr. split; [apply stat_col_patent|apply stat_col_patent_inventor].
Qed.

Lemma unmapped_record_contributes_nothing_witness :
  (exists df_matched : DataFrame,
      Step3.process_patent_data (fun _ => []) (fun _ => None)
        (mkDF example_patent_cols
              ([[CStr (lit "ACME CORP"); CNum (Qc_of_Z 1995);
                 CNum (Qc_of_Z 2)]]
                 ++ [CStr (lit " Gamma LLC "); CNum (Qc_of_Z 1995); CNull]
                 :: []))
        example_dict = Some df_matched
      /\ Step3.process_patent_data (fun _ => []) (fun _ => None)
           (mkDF example_patent_cols
                 ([[CStr (lit "ACME CORP"); CNum (Qc_of_Z 1995);
                    CNum (Qc_of_Z 2)]] ++ []))
           example_dict = Some df_matched)
  /\ exists df_final : DataFrame,
      Step3.merge_to_final_outcome example_main
        (Step3.stats_of example_rows)
        (Step3.names_of (fun l => l) example_rows) = Some df_final
      /\ Forall2 (fun entity row =>
                    row_get (columns df_final) row (lit "acquiror_name")
                    = Some (at_pos 0 entity))
                 (rows example_main) (rows df_final)
      /\ (forall (record : list cell) (q : Qc),
             record ∈ rows example_matched ->
             row_get (columns example_matched) record
               (lit "application_year") = Some (CNum q) ->
             Step3.patent_col (Qc_trunc q) ∈ columns df_final
             /\ Step3.patent_inventor_col (Qc_trunc q) ∈ columns df_final)
      /\ forall (row : list cell) (p : nat) (label : pystr),
          row ∈ rows df_final ->
          columns df_final !! p = Some label ->
          Step3.stat_col label = true ->
          exists q : Qc,
            row !! p = Some (CNum q)
            /\ forall k : cell,
                row_get (columns df_final) row (lit "acquiror_name")
                = Some k ->
                k ∉ [CStr (lit "ACME CORPORATION");
                     CStr (lit "ACME CORPORATION")] ->
                q = Qc_of_Z 0.
Proof.
  assert (Hun : example_dict
                  !! py_strip (py_str (fun _ => [])
                                 (at_pos 0 [CStr (lit " Gamma LLC ");
                                            CNum (Qc_of_Z 1995); CNull]))
                = None) by (vm_compute; reflexivity).
  destruct (unmapped_record_contributes_nothing (fun _ => [])
              (fun _ => None) (fun l => l) example_dict
              example_patent_cols
              [[CStr (lit "ACME CORP"); CNum (Qc_of_Z 1995);
                CNum (Qc_of_Z 2)]]
              [] [CStr (lit " Gamma LLC "); CNum (Qc_of_Z 1995); CNull]
              0 1 2 eq_refl eq_refl eq_refl eq_refl Hun)
    as (Hdrop & Hmerge & _).
  split; [exact Hdrop|].
  apply (Hmerge example_main example_matched _ _ 0).
  - repeat constructor.
  - reflexivity.
  - exact example_aggregate.
  - reflexivity.
Defined.
(** ** Two runs of the aggregation and the order of the aliases *)

Lemma set_order_remove_dups : set_order remove_dups.
Proof. intros x. reflexivity. Qed.

Lemma set_order_reverse : set_order (fun x => reverse (remove_dups x)).
Proof. intros x. apply reverse_Permutation. Qed.

Section TwoRuns.

Variables s1 s2 : list cell -> list cell.
Hypothesis order1 : set_order s1.
Hypothesis order2 : set_order s2.
Variable ms : list Step3.matched_row.

Lemma aliases_perm (acq : pystr) :
  Step3.aliases s1 ms acq ≡ₚ Step3.aliases s2 ms acq.
Proof.
  unfold Step3.aliases. etrans; [apply order1|]. symmetry. apply order2.
Qed.

Lemma max_len_order :
  foldr Nat.max 0
    (map length (map (Step3.aliases s1 ms) (Step3.entities ms)))
  = foldr Nat.max 0
      (map length (map (Step3.aliases s2 ms) (Step3.entities ms))).
Proof.
  f_equal. rewrite !map_map. apply map_ext. intros acq.
  apply Permutation_length, aliases_perm.
Qed.

Lemma names_columns_order :
  columns (Step3.names_of s1 ms) = columns (Step3.names_of s2 ms).
Proof.
  rewrite !names_of_uncut. cbv zeta. cbn [columns].
  by rewrite max_len_order.
Qed.

Lemma names_right_part_perm (k : cell) :
  right_part (Step3.names_of s1 ms) 0 k
  ≡ₚ right_part (Step3.names_of s2 ms) 0 k.
Proof.
  unfold right_part. rewrite <- names_columns_order.
  rewrite !names_of_uncut. cbv zeta. cbn [rows columns].
  rewrite !(find_map_key _ CStr) by reflexivity.
  destruct (List.find _ _) as [acq|]; cbn [fmap option_fmap option_map];
    [|reflexivity].
  cbn [delete list_delete]. rewrite <- max_len_order.
  unfold Step3.pad. rewrite (Permutation_length (aliases_perm acq)).
  apply Permutation_app; [apply aliases_perm|reflexivity].
Qed.

End TwoRuns.

(** The merged table forgets an earlier run: dropping the columns that start
    with [patent_] from it gives what is left of the main table. *)
Lemma merge_forgets (set_to_list : list cell -> list cell)
  (ms : list Step3.matched_row) (df_main : DataFrame) (a : nat) :
  wf_frame df_main ->
  col_pos (columns df_main) (lit "acquiror_name") = Some a ->
  exists (df_final : DataFrame) (a' : nat),
    Step3.merge_to_final_outcome df_main (Step3.stats_of ms)
      (Step3.names_of set_to_list ms) = Some df_final
    /\ wf_frame df_final
    /\ col_pos (columns df_final) (lit "acquiror_name") = Some a'
    /\ drop_cols Step3.old_col df_final = drop_cols Step3.old_col df_main.
Proof.
  intros Hwf Hkey.
  set (S := Step3.stats_of ms). set (N := Step3.names_of set_to_list ms).
  destruct (merge_shape set_to_list ms df_main a Hwf Hkey) as (a' & Ha' & HM).
  fold S N in HM.
  set (main' := drop_cols Step3.old_col df_main) in *.
  assert (Hcm : Forall (fun c => Step3.old_col c = false) (columns main'))
    by apply select_labels.
  assert (Hwf' : wf_frame main') by (by apply drop_cols_wf).
  pose proof (stats_labels ms) as HS. fold S in HS.
  pose proof (names_labels set_to_list ms) as HN. fold N in HN.
  eexists. exists a'. split; [exact HM|]. split; [|split].
  - unfold wf_frame. cbn [columns rows].
    apply Forall_forall. intros r Hr.
    apply list_elem_of_In, in_map_iff in Hr as (l & <- & Hl).
    unfold wf_frame in Hwf'. rewrite Forall_forall in Hwf'.
    apply list_elem_of_In in Hl. specialize (Hwf' l Hl).
    destruct (stats_right_part ms (at_pos a' l)) as (HlenS & _ & _).
    fold S in HlenS.
    pose proof (names_right_part set_to_list ms (at_pos a' l)) as HlenN.
    fold N in HlenN.
    rewrite !length_app, length_map. lia.
  - cbn [columns]. by apply col_pos_app_l.
  - apply (drop_cols_extended Step3.old_col (columns main')
             (delete 0 (columns S) ++ delete 0 (columns N)) (rows main')
             (fun l => map fill_total (right_part S 0 (at_pos a' l))
                         ++ right_part N 0 (at_pos a' l))).
    + exact Hcm.
    + apply Forall_app. split.
      * eapply Forall_impl; [exact HS|]. intros c Hc. by apply stat_col_old.
      * eapply Forall_impl; [exact HN|]. by intros c [? _].
    + exact Hwf'.
Qed.

(** A run on the output of an earlier run gives what a run on the main
    table gives, whatever the order of the aliases in the earlier run. *)
Lemma rerun_is_fresh (sA sB : list cell -> list cell)
  (ms : list Step3.matched_row) (df_main : DataFrame) (a : nat) :
  wf_frame df_main ->
  col_pos (columns df_main) (lit "acquiror_name") = Some a ->
  exists outA : DataFrame,
    Step3.merge_to_final_outcome df_main (Step3.stats_of ms)
      (Step3.names_of sA ms) = Some outA
    /\ Step3.merge_to_final_outcome outA (Step3.stats_of ms)
         (Step3.names_of sB ms)
       = Step3.merge_to_final_outcome df_main (Step3.stats_of ms)
           (Step3.names_of sB ms).
Proof.
  intros Hwf Hkey.
  destruct (merge_forgets sA ms df_main a Hwf Hkey)
    as (outA & a' & HM & HwfA & HkeyA & Hdrop).
  exists outA. split; [exact HM|].
  destruct (merge_shape sB ms outA a' HwfA HkeyA) as (a1 & Ha1 & H1).
  destruct (merge_shape sB ms df_main a Hwf Hkey) as (a2 & Ha2 & H2).
  rewrite H1, H2. rewrite Hdrop in Ha1 |- *.
  assert (a1 = a2) by congruence. by subst a1.
Qed.

(** Two runs on the same tables with two orders of the aliases: the rows
    agree outside the alias columns and hold the same cells. *)
Lemma runs_agree (s1 s2 : list cell -> list cell)
  (ms : list Step3.matched_row) (df_main : DataFrame) (a : nat)
  (out1 out2 : DataFrame) :
  set_order s1 -> set_order s2 ->
  wf_frame df_main ->
  col_pos (columns df_main) (lit "acquiror_name") = Some a ->
  Step3.merge_to_final_outcome df_main (Step3.stats_of ms)
    (Step3.names_of s1 ms) = Some out1 ->
  Step3.merge_to_final_outcome df_main (Step3.stats_of ms)
    (Step3.names_of s2 ms) = Some out2 ->
  columns out1 = columns out2
  /\ NoDup (List.filter Step3.stat_col (columns out1))
  /\ Forall2 (fun r1 r2 =>
                r1 ≡ₚ r2
                /\ forall (p : nat) (label : pystr),
                    columns out1 !! p = Some label ->
                    alias_col label = false ->
                    r1 !! p = r2 !! p)
             (rows out1) (rows out2).
Proof.
  intros Hs1 Hs2 Hwf Hkey HM1 HM2.
  destruct (merge_shape s1 ms df_main a Hwf Hkey) as (a1 & Ha1 & H1).
  destruct (merge_shape s2 ms df_main a Hwf Hkey) as (a2 & Ha2 & H2).
  assert (a2 = a1) by congruence. subst a2.
  rewrite HM1 in H1. apply (inj Some) in H1. subst out1.
  rewrite HM2 in H2. apply (inj Some) in H2. subst out2.
  set (S := Step3.stats_of ms) in *.
  set (main' := drop_cols Step3.old_col df_main) in *.
  assert (Hcm : Forall (fun c => Step3.old_col c = false) (columns main'))
    by apply select_labels.
  assert (Hwf' : wf_frame main') by (by apply drop_cols_wf).
  pose proof (stats_labels ms) as HS. fold S in HS.
  pose proof (names_labels s1 ms) as HN.
  cbn [columns rows]. split; [|split].
  - by rewrite (names_columns_order s1 s2 Hs1 Hs2 ms).
  - rewrite !List.filter_app.
    rewrite (filter_none _ (columns main')) by (by apply not_old_not_stat).
    rewrite (filter_all _ (delete 0 (columns S))) by assumption.
    rewrite (filter_none _ (delete 0 (columns _))).
    + rewrite app_nil_r. cbn [app]. apply metric_labels_NoDup.
    + eapply Forall_impl; [exact HN|]. by intros c [_ ?].
  - apply Forall2_fmap. apply Forall_Forall2_diag.
    apply Forall_forall. intros l Hl.
    unfold wf_frame in Hwf'. rewrite Forall_forall in Hwf'.
    specialize (Hwf' l Hl).
    destruct (stats_right_part ms (at_pos a1 l)) as (HlenS & _ & _).
    fold S in HlenS.
    split.
    + apply Permutation_app; [reflexivity|].
      apply Permutation_app; [reflexivity|].
      by apply names_right_part_perm.
    + intros p label Hp Halias.
      assert (Hlt : p < length l + length (map fill_total
                                             (right_part S 0 (at_pos a1 l)))).
      { rewrite length_map, HlenS, Hwf'.
        destruct (decide (p < length (columns main')
                              + length (delete 0 (columns S))))
          as [Hlt|Hge]; [exact Hlt|].
        exfalso. rewrite app_assoc in Hp.
        rewrite lookup_app_r in Hp by (rewrite length_app; lia).
        apply list_elem_of_lookup_2 in Hp.
        rewrite Forall_forall in HN. destruct (HN _ Hp) as [Ho Hst].
        unfold alias_col in Halias. rewrite Ho, Hst in Halias.
        discriminate. }
      rewrite !app_assoc.
      rewrite !(lookup_app_l (_ ++ _)) by (rewrite length_app; lia).
      reflexivity.
Qed.

(** C8. Two runs of the aggregation and merge on identical inputs, in each
    of which [list(set(...))] hands out the aliases in an order of its own:
    both return a table, and a run on the output of the first run returns
    what a run on the main table returns (the same table as the first run
    when the order is the same), because the columns of the earlier run all
    start with patent_ and are dropped before merging.  The two outputs have
    the same columns, no metric column occurs twice, and the rows agree one
    for one: they are equal outside the alias columns and hold the same
    cells. *)
Theorem merge_rerun_idempotent (s1 s2 : list cell -> list cell)
  (df_matched df_main : DataFrame) (a : nat)
  (Hs1 : set_order s1) (Hs2 : set_order s2)
  (Hwf : wf_frame df_main)
  (Hkey : col_pos (columns df_main) (lit "acquiror_name") = Some a)
  (Hagg : is_Some (Step3.aggregate_data s1 df_matched)) :
  exists out1 out2 : DataFrame,
    aggregate_and_merge s1 df_main df_matched = Some out1
    /\ aggregate_and_merge s2 df_main df_matched = Some out2
    /\ aggregate_and_merge s1 out1 df_matched = Some out1
    /\ aggregate_and_merge s2 out1 df_matched = Some out2
    /\ columns out1 = columns out2
    /\ NoDup (List.filter Step3.stat_col (columns out1))
    /\ Forall2 (fun r1 r2 =>
                  r1 ≡ₚ r2
                  /\ forall (p : nat) (label : pystr),
                      columns out1 !! p = Some label ->
                      alias_col label = false ->
                      r1 !! p = r2 !! p)
               (rows out1) (rows out2).
Proof.
  destruct Hagg as [[df_stats df_names] Hagg].
  unfold aggregate_and_merge, Step3.aggregate_data in *.
  destruct (Step3.read_matched df_matched) as [ms|]; [|discriminate].
  clear Hagg. cbn [mbind option_bind].
  destruct (rerun_is_fresh s1 s1 ms df_main a Hwf Hkey) as (out1 & HM1 & H11).
  destruct (rerun_is_fresh s1 s2 ms df_main a Hwf Hkey) as (out1' & HM1' & H12).
  rewrite HM1 in HM1'. apply (inj Some) in HM1'. subst out1'.
  destruct (rerun_is_fresh s2 s2 ms df_main a Hwf Hkey) as (out2 & HM2 & _).
  exists out1, out2.
  split; [exact HM1|]. split; [exact HM2|].
  split; [by rewrite H11|]. split; [by rewrite H12|].
  by apply (runs_agree s1 s2 ms df_main a).
Qed.

Lemma merge_rerun_idempotent_witness :
  exists out1 out2 : DataFrame,
    aggregate_and_merge remove_dups example_main example_matched = Some out1
    /\ aggregate_and_merge (fun x => reverse (remove_dups x)) example_main
         example_matched = Some out2
    /\ aggregate_and_merge remove_dups out1 example_matched = Some out1
    /\ aggregate_and_merge (fun x => reverse (remove_dups x)) out1
         example_matched = Some out2
    /\ columns out1 = columns out2
    /\ NoDup (List.filter Step3.stat_col (columns out1))
    /\ Forall2 (fun r1 r2 =>
                  r1 ≡ₚ r2
                  /\ forall (p : nat) (label : pystr),
                      columns out1 !! p = Some label ->
                      alias_col label = false ->
                      r1 !! p = r2 !! p)
               (rows out1) (rows out2).
Proof.
  apply (merge_rerun_idempotent remove_dups
           (fun x => reverse (remove_dups x)) example_matched example_main 0).
  - exact set_order_remove_dups.
  - exact set_order_reverse.
  - repeat constructor.
  - reflexivity.
  - vm_compute. eauto.
Defined.

(** Two runs on identical inputs that differ in the order in which the set
    of aliases is listed return different tables: the entity of the example
    has two aliases, and they change places. *)
Lemma rerun_alias_order_differs :
  set_order remove_dups
  /\ set_order (fun x => reverse (remove_dups x))
  /\ exists out1 out2 : DataFrame,
      aggregate_and_merge remove_dups example_main example_matched
      = Some out1
      /\ aggregate_and_merge (fun x => reverse (remove_dups x)) example_main
           example_matched = Some out2
      /\ out1 <> out2.
Proof.
  split; [exact set_order_remove_dups|]. split; [exact set_order_reverse|].
  eexists. eexists. split; [vm_compute; reflexivity|].
  split; [vm_compute; reflexivity|]. intros E.
  apply (f_equal (fun df => (rows df !! 0) ≫= (.!! 5))) in E.
  vm_compute in E. discriminate E.
Qed.
(** ** The alias table *)

(** X20.  The alias table of [aggregate_data] is as wide as the longest
    alias list and cuts no list short, whatever the order in which
    [list(set(...))] lists the aliases: it has the column [acquiror_name]
    and [w] alias columns patent_name, patent_name_1, ..., [w] being the
    largest number of distinct assignees of an entity, and the row of every
    entity holds the entity, then each of the assignees recorded for it
    exactly once, then nulls up to the width. *)
Theorem names_table_holds_all_aliases (set_to_list : list cell -> list cell)
  (ms : list Step3.matched_row) (Horder : set_order set_to_list) :
  let w :=
    foldr Nat.max 0
      (map (fun acq =>
              length (remove_dups
                        (map Step3.m_assignee
                           (List.filter
                              (fun m => bool_decide (Step3.m_acquiror m = acq))
                              ms))))
           (Step3.entities ms)) in
  length (columns (Step3.names_of set_to_list ms)) = 1 + w
  /\ (0 < w ->
      columns (Step3.names_of set_to_list ms) !! 1 = Some (lit "patent_name"))
  /\ (forall i, 1 <= i -> i < w ->
        columns (Step3.names_of set_to_list ms) !! (1 + i)
        = Some (lit "patent_name_" ++ int_str (Z.of_nat i)))
  /\ forall acq, acq ∈ Step3.entities ms ->
       exists (als : list cell) (k : nat),
         CStr acq :: als ++ replicate k CNull
           ∈ rows (Step3.names_of set_to_list ms)
         /\ length als + k = w
         /\ NoDup als
         /\ forall v : cell,
             v ∈ als
             <-> exists m, m ∈ ms /\ Step3.m_acquiror m = acq
                           /\ Step3.m_assignee m = v.
Proof.
  cbv zeta. rewrite names_of_uncut. cbv zeta. cbn [columns rows].
  rewrite !map_map.
  assert (Hw : foldr Nat.max 0
                 (map (fun acq => length (Step3.aliases set_to_list ms acq))
                      (Step3.entities ms))
               = foldr Nat.max 0
                   (map (fun acq =>
                           length (remove_dups
                                     (map Step3.m_assignee
                                        (List.filter
                                           (fun m => bool_decide
                                                       (Step3.m_acquiror m = acq))
                                           ms))))
                        (Step3.entities ms))).
  { f_equal. apply map_ext. intros acq. apply Permutation_length, Horder. }
  rewrite Hw. set (w := foldr Nat.max 0 _).
  repeat split.
  - cbn [length]. f_equal. rewrite length_take. cbn [length].
    rewrite length_map, length_seq. lia.
  - intros H0. destruct w as [|w']; [lia|]. reflexivity.
  - intros i Hi Hlt. destruct w as [|w']; [lia|].
    cbn [take lookup list_lookup Nat.add]. destruct i as [|i']; [lia|].
    change (take w' (map (fun i : nat =>
                            lit "patent_name_" ++ int_str (Z.of_nat i))
                         (seq 1 (S w' - 1))) !! i'
            = Some (lit "patent_name_" ++ int_str (Z.of_nat (S i')))).
    rewrite lookup_take_lt by lia.
    rewrite list_lookup_fmap, lookup_seq_lt by lia. reflexivity.
  - intros acq Hacq.
    assert (Hle : length (Step3.aliases set_to_list ms acq) <= w).
    { unfold w. rewrite <- Hw. apply foldr_max_ge.
      apply list_elem_of_fmap. by exists acq. }
    exists (Step3.aliases set_to_list ms acq),
           (w - length (Step3.aliases set_to_list ms acq)).
    split; [|split; [lia|split]].
    + apply list_elem_of_fmap. exists acq. split; [|assumption]. reflexivity.
    + unfold Step3.aliases. rewrite (Horder _). apply NoDup_remove_dups.
    + intros v. unfold Step3.aliases. rewrite (Horder _).
      rewrite elem_of_remove_dups, list_elem_of_fmap. split.
      * intros (m & -> & Hm). exists m.
        apply list_elem_of_In, filter_In in Hm as [Hm Hacqm].
        apply bool_decide_eq_true in Hacqm.
        split; [by apply list_elem_of_In|]. by split.
      * intros (m & Hm & Hacqm & <-). exists m. split; [reflexivity|].
        apply list_elem_of_In, filter_In. split; [by apply list_elem_of_In|].
        by apply bool_decide_eq_true.
Qed.

Lemma names_table_holds_all_aliases_witness :
  length (columns (Step3.names_of remove_dups example_rows)) = 1 + 2
  /\ exists (als : list cell) (k : nat),
      CStr (lit "ACME CORPORATION") :: als ++ replicate k CNull
        ∈ rows (Step3.names_of remove_dups example_rows)
      /\ length als + k = 2
      /\ NoDup als
      /\ forall v : cell,
          v ∈ als
          <-> exists m, m ∈ example_rows
                        /\ Step3.m_acquiror m = lit "ACME CORPORATION"
                        /\ Step3.m_assignee m = v.
Proof.
  destruct (names_table_holds_all_aliases remove_dups example_rows
              set_order_remove_dups) as (Hlen & _ & _ & Hrows).
  split; [exact Hlen|].
  apply (Hrows (lit "ACME CORPORATION")).
  vm_compute. left.
Defined.
